(** * wsh debugterm: the terminal byte-stream decoder and its input normalizer

    A shallow embedding of [cmd/wsh/cmd/wshcmd-debugterm.go] (package [cmd]),
    together with the parts of the Go standard library it calls
    ([unicode/utf8], [strconv], [strings], [encoding/json]), and the
    properties of the decoder that the design document states.

    Conventions.
    - A Go [string] and a Go [[]byte] are both sequences of bytes; they are
      modelled by [bytes = list ascii], conversions between them being the
      identity.
    - Go's [int] is the 64-bit signed integer of the supported targets.
      Indices and lengths are [nat]; parsed numbers and counters are [Z],
      with the wrap-around written out where the code adds.
    - A Go expression that can panic (indexing, slicing, allocation)
      returns a [result]; [Panic] carries the runtime's message. *)

From Stdlib Require Import List ZArith Lia Ascii String Bool Arith DecimalString.
From Equations Require Import Equations.
From Equations.Prop Require Import Logic.
Import ListNotations.

Set Implicit Arguments.
Set Warnings "-register-all".
Local Open Scope Z_scope.

(** ** Bytes and Go strings *)

Definition bytes := list ascii.

Definition str (s : string) : bytes := list_ascii_of_string s.

Definition b2z (b : ascii) : Z := Z.of_N (N_of_ascii b).
Definition z2b (z : Z) : ascii := ascii_of_N (Z.to_N (z mod 256)).

Definition ESC : ascii := "027"%char.
Definition BEL : ascii := "007"%char.
Definition CR : ascii := "013"%char.
Definition LF : ascii := "010"%char.
Definition TAB : ascii := "009"%char.
Definition DQUOTE : ascii := "034"%char.

Definition len (s : bytes) : nat := List.length s.

Definition bytes_eqb (a b : bytes) : bool :=
  if list_eq_dec ascii_dec a b then true else false.

(** ** Results of expressions that can panic, or of loops run on fuel *)

Inductive result (A : Type) : Type :=
| Ok (a : A)
| Panic (msg : string)
| OutOfFuel.
Arguments Panic {A} msg.
Arguments OutOfFuel {A}.

Definition bind {A B} (r : result A) (k : A -> result B) : result B :=
  match r with
  | Ok a => k a
  | Panic m => Panic m
  | OutOfFuel => OutOfFuel
  end.

Notation "x <- r ;; k" := (bind r (fun x => k))
  (at level 61, r at next level, right associativity).
Notation "' p <- r ;; k" := (bind r (fun x => let p := x in k))
  (at level 61, p pattern, r at next level, right associativity).

(** [data[i]] *)
Definition index {A} (data : list A) (i : nat) : result A :=
  match nth_error data i with
  | Some b => Ok b
  | None => Panic "index out of range"
  end.

(** [a && b], where [b] is evaluated only when [a] holds. *)
Definition andr (a : bool) (b : result bool) : result bool :=
  if a then b else Ok false.

(** [data[lo:hi]] *)
Definition slice (data : bytes) (lo hi : nat) : result bytes :=
  if (lo <=? hi)%nat && (hi <=? len data)%nat
  then Ok (firstn (hi - lo) (skipn lo data))
  else Panic "slice bounds out of range".

(** [data[lo:]] *)
Definition sliceFrom (data : bytes) (lo : nat) : result bytes :=
  slice data lo (len data).

(** ** Go's [int] *)

Definition maxInt : Z := 2 ^ 63 - 1.
Definition minInt : Z := - 2 ^ 63.

(** Two's complement wrap-around of [int] arithmetic. *)
Definition wrapInt (z : Z) : Z := (z + 2 ^ 63) mod 2 ^ 64 - 2 ^ 63.

(** The runtime refuses an allocation larger than [maxAlloc] with the
    panic [makeslice: len out of range]; on the 64-bit targets the heap
    has 48 address bits. *)
Definition maxAlloc : Z := 2 ^ 48.

(** ** unicode/utf8 *)

Module utf8.

Definition RuneError : Z := 0xFFFD.
Definition RuneSelf : Z := 0x80.
Definition UTFMax : nat := 4.

(** The table [first]: information about the first byte of an encoding. *)
Definition first (p0 : Z) : Z :=
  if p0 <? 0x80 then 0xF0
  else if p0 <? 0xC2 then 0xF1
  else if p0 <? 0xE0 then 0x02
  else if p0 =? 0xE0 then 0x13
  else if p0 <? 0xED then 0x03
  else if p0 =? 0xED then 0x23
  else if p0 <? 0xF0 then 0x03
  else if p0 =? 0xF0 then 0x34
  else if p0 <? 0xF4 then 0x04
  else if p0 =? 0xF4 then 0x44
  else 0xF1.

Definition acceptRanges (k : Z) : Z * Z :=
  if k =? 0 then (0x80, 0xBF)
  else if k =? 1 then (0xA0, 0xBF)
  else if k =? 2 then (0x80, 0x9F)
  else if k =? 3 then (0x90, 0xBF)
  else if k =? 4 then (0x80, 0x8F)
  else (0, 0).

Definition cont (b : Z) : bool := (0x80 <=? b) && (b <=? 0xBF).

(** [utf8.DecodeRune(p)]: the rune and the width of its encoding. *)
Definition DecodeRune (p : bytes) : Z * nat :=
  match p with
  | [] => (RuneError, 0%nat)
  | c0 :: p1 =>
    let p0 := b2z c0 in
    let x := first p0 in
    if 0xF0 <=? x then
      if x =? 0xF0 then (p0, 1%nat) else (RuneError, 1%nat)
    else
      let sz := Z.land x 7 in
      let '(lo, hi) := acceptRanges (Z.shiftr x 4) in
      if Z.of_nat (len p) <? sz then (RuneError, 1%nat) else
      match p1 with
      | [] => (RuneError, 1%nat)
      | c1 :: p2 =>
        let b1 := b2z c1 in
        if (b1 <? lo) || (hi <? b1) then (RuneError, 1%nat) else
        if sz <=? 2 then
          (Z.lor (Z.shiftl (Z.land p0 0x1F) 6) (Z.land b1 0x3F), 2%nat)
        else
        match p2 with
        | [] => (RuneError, 1%nat)
        | c2 :: p3 =>
          let b2 := b2z c2 in
          if negb (cont b2) then (RuneError, 1%nat) else
          if sz <=? 3 then
            (Z.lor (Z.lor (Z.shiftl (Z.land p0 0x0F) 12)
                          (Z.shiftl (Z.land b1 0x3F) 6))
                   (Z.land b2 0x3F), 3%nat)
          else
          match p3 with
          | [] => (RuneError, 1%nat)
          | c3 :: _ =>
            let b3 := b2z c3 in
            if negb (cont b3) then (RuneError, 1%nat) else
            (Z.lor (Z.lor (Z.lor (Z.shiftl (Z.land p0 0x07) 18)
                                 (Z.shiftl (Z.land b1 0x3F) 12))
                          (Z.shiftl (Z.land b2 0x3F) 6))
                   (Z.land b3 0x3F), 4%nat)
          end
        end
      end
  end.

(** [utf8.ValidRune(r)] *)
Definition ValidRune (r : Z) : bool :=
  ((0 <=? r) && (r <? 0xD800)) || ((0xDFFF <? r) && (r <=? 0x10FFFF)).

(** [utf8.AppendRune(nil, r)]: the encoding of [r]; an invalid rune is
    encoded as [RuneError]. *)
Definition EncodeRune (r : Z) : bytes :=
  if (0 <=? r) && (r <=? 0x7F) then [z2b r]
  else if (0 <=? r) && (r <=? 0x7FF) then
    [z2b (Z.lor 0xC0 (Z.shiftr r 6)); z2b (Z.lor 0x80 (Z.land r 0x3F))]
  else
    let r := if ValidRune r then r else RuneError in
    if r <=? 0xFFFF then
      [z2b (Z.lor 0xE0 (Z.shiftr r 12));
       z2b (Z.lor 0x80 (Z.land (Z.shiftr r 6) 0x3F));
       z2b (Z.lor 0x80 (Z.land r 0x3F))]
    else
      [z2b (Z.lor 0xF0 (Z.shiftr r 18));
       z2b (Z.lor 0x80 (Z.land (Z.shiftr r 12) 0x3F));
       z2b (Z.lor 0x80 (Z.land (Z.shiftr r 6) 0x3F));
       z2b (Z.lor 0x80 (Z.land r 0x3F))].

(** [utf8.RuneStart(b)] *)
Definition RuneStart (b : Z) : bool := negb (Z.land b 0xC0 =? 0x80).

End utf8.

(** ** strings *)

Module strings.

(** [strings.HasPrefix(s, prefix)] *)
Fixpoint HasPrefix (s prefix : bytes) : bool :=
  match prefix, s with
  | [], _ => true
  | p :: prefix', c :: s' => Ascii.eqb c p && HasPrefix s' prefix'
  | _ :: _, [] => false
  end.

(** [strings.HasSuffix(s, suffix)] *)
Definition HasSuffix (s suffix : bytes) : bool :=
  (len suffix <=? len s)%nat &&
  bytes_eqb (skipn (len s - len suffix) s) suffix.

(** [strings.TrimSuffix(s, suffix)] *)
Definition TrimSuffix (s suffix : bytes) : bytes :=
  if HasSuffix s suffix then firstn (len s - len suffix) s else s.

(** [strings.IndexByte(s, c)]: the index of the first [c], or -1. *)
Fixpoint IndexByte (s : bytes) (c : ascii) : Z :=
  match s with
  | [] => -1
  | b :: s' =>
    if Ascii.eqb b c then 0
    else let k := IndexByte s' c in if k <? 0 then -1 else k + 1
  end.

(** [strings.Split(s, sep)] for a separator of one byte: one more part
    than there are separators, the empty string giving one empty part. *)
Fixpoint Split (s : bytes) (sep : ascii) : list bytes :=
  match s with
  | [] => [[]]
  | c :: s' =>
    if Ascii.eqb c sep then [] :: Split s' sep
    else match Split s' sep with
         | p :: ps => (c :: p) :: ps
         | [] => [[c]]
         end
  end.

(** [strings.Join(elems, sep)] *)
Fixpoint Join (elems : list bytes) (sep : bytes) : bytes :=
  match elems with
  | [] => []
  | [e] => e
  | e :: rest => e ++ sep ++ Join rest sep
  end.

(** [strings.Repeat(s, count)].  It panics on a negative count and when
    the length of the result overflows [int]; the result is allocated in
    one piece before it is filled, and the runtime panics when that
    length is beyond [maxAlloc]. *)
Definition Repeat (s : bytes) (count : Z) : result bytes :=
  if count =? 0 then Ok []
  else if count =? 1 then Ok s
  else if count <? 0 then Panic "strings: negative Repeat count"
  else if maxInt <? Z.of_nat (len s) * count
       then Panic "strings: Repeat output length overflow"
  else if (len s =? 0)%nat then Ok []
  else if maxAlloc <? Z.of_nat (len s) * count
       then Panic "runtime error: makeslice: len out of range"
  else Ok (List.concat (List.repeat s (Z.to_nat count))).

(** [unicode.IsSpace(r)] *)
Definition IsSpace (r : Z) : bool :=
  ((0x09 <=? r) && (r <=? 0x0D)) || (r =? 0x20) || (r =? 0x85) || (r =? 0xA0)
  || (r =? 0x1680) || ((0x2000 <=? r) && (r <=? 0x200A))
  || (r =? 0x2028) || (r =? 0x2029) || (r =? 0x202F) || (r =? 0x205F)
  || (r =? 0x3000).

(** [strings.TrimLeftFunc(s, unicode.IsSpace)]: the loop ranges over the
    runes of [s]; an invalid byte is the rune [RuneError] of width 1. *)
Fixpoint trimLeftSpace (fuel : nat) (s : bytes) : bytes :=
  match fuel, s with
  | S fuel', _ :: _ =>
    let '(r, w) := utf8.DecodeRune s in
    if IsSpace r then trimLeftSpace fuel' (skipn w s) else s
  | _, _ => s
  end.

(** [utf8.DecodeLastRuneInString(s)] *)
Definition DecodeLastRune (s : bytes) : Z * nat :=
  let e := len s in
  if (e =? 0)%nat then (utf8.RuneError, 0%nat) else
  let r := b2z (nth (e - 1) s zero) in
  if r <? utf8.RuneSelf then (r, 1%nat) else
  let lim := (e - utf8.UTFMax)%nat in
  (* the rune starts at the last rune-start byte among the last four *)
  let start :=
    if (lim <=? e - 2)%nat && utf8.RuneStart (b2z (nth (e - 2) s zero)) && (2 <=? e)%nat
    then (e - 2)%nat
    else if (lim <=? e - 3)%nat && utf8.RuneStart (b2z (nth (e - 3) s zero)) && (3 <=? e)%nat
    then (e - 3)%nat
    else if (lim <=? e - 4)%nat && utf8.RuneStart (b2z (nth (e - 4) s zero)) && (4 <=? e)%nat
    then (e - 4)%nat
    else (lim - 1)%nat in
  let '(r, size) := utf8.DecodeRune (skipn start s) in
  if (start + size =? e)%nat then (r, size) else (utf8.RuneError, 1%nat).

(** [strings.TrimRightFunc(s, unicode.IsSpace)] *)
Fixpoint trimRightSpace (fuel : nat) (s : bytes) : bytes :=
  match fuel, s with
  | S fuel', _ :: _ =>
    let '(r, size) := DecodeLastRune s in
    if IsSpace r then trimRightSpace fuel' (firstn (len s - size) s) else s
  | _, _ => s
  end.

(** [strings.TrimSpace(s)].  Its fast path for ASCII bytes trims the same
    bytes as the two rune loops, which it falls back to on a byte of
    0x80 or more. *)
Definition TrimSpace (s : bytes) : bytes :=
  let l := trimLeftSpace (len s) s in
  trimRightSpace (len l) l.

End strings.

(** ** strconv *)

Module strconv.

Definition isDigit (c : ascii) : bool := (48 <=? b2z c) && (b2z c <=? 57).

Fixpoint parseDigits (s : bytes) (acc : Z) : option Z :=
  match s with
  | [] => Some acc
  | c :: s' =>
    if isDigit c then parseDigits s' (acc * 10 + (b2z c - 48)) else None
  end.

(** [strconv.Atoi(s)]: an optional sign, then one decimal digit or more;
    [None] stands for the syntax error and for the range error of a
    value that does not fit [int]. *)
Definition Atoi (s : bytes) : option Z :=
  let '(neg, ds) :=
    match s with
    | c :: t =>
      if Ascii.eqb c "-" then (true, t)
      else if Ascii.eqb c "+" then (false, t)
      else (false, s)
    | [] => (false, s)
    end in
  match ds with
  | [] => None
  | _ =>
    match parseDigits ds 0 with
    | None => None
    | Some un =>
      let n := if neg then - un else un in
      if (minInt <=? n) && (n <=? maxInt) then Some n else None
    end
  end.

(** [%d] of [fmt.Sprintf], and [strconv.Itoa]. *)
Definition Itoa (n : Z) : bytes := str (NilZero.string_of_int (Z.to_int n)).

Definition lowerhex (d : Z) : ascii :=
  nth (Z.to_nat (Z.land d 0xF)) (str "0123456789abcdef") "0"%char.

(** [%02x] of a byte *)
Definition hex2 (b : Z) : bytes := [lowerhex (Z.shiftr b 4); lowerhex b].

Section Quoting.

(** [strconv.IsPrint] decides the runes up to 0xFF by comparisons and the
    others by the tables [isPrint16], [isNotPrint16], [isPrint32] and
    [isNotPrint32], which are the parameter [isPrintTable]. *)
Variable isPrintTable : Z -> bool.

Definition IsPrint (r : Z) : bool :=
  if r <=? 0xFF then
    if (0x20 <=? r) && (r <=? 0x7E) then true
    else if (0xA1 <=? r) && (r <=? 0xFF) then negb (r =? 0xAD)
    else false
  else isPrintTable r.

Definition hexDigits (r : Z) (n : nat) : bytes :=
  map (fun k => lowerhex (Z.shiftr r (4 * Z.of_nat k))) (rev (seq 0 n)).

(** [appendEscapedRune(nil, r, quote, ASCIIonly, false)] for the double
    quote. *)
Definition appendEscapedRune (ASCIIonly : bool) (r : Z) : bytes :=
  if (r =? 34) || (r =? 92) then ["\"%char; z2b r]
  else if ASCIIonly && (r <? utf8.RuneSelf) && IsPrint r then [z2b r]
  else if negb ASCIIonly && IsPrint r then utf8.EncodeRune r
  else if r =? 7 then str "\a"
  else if r =? 8 then str "\b"
  else if r =? 12 then str "\f"
  else if r =? 10 then str "\n"
  else if r =? 13 then str "\r"
  else if r =? 9 then str "\t"
  else if r =? 11 then str "\v"
  else if (r <? 32) || (r =? 0x7F) then str "\x" ++ hex2 r
  else if negb (utf8.ValidRune r) then str "\u" ++ hexDigits 0xFFFD 4
  else if r <? 0x10000 then str "\u" ++ hexDigits r 4
  else str "\U" ++ hexDigits r 8.

(** The loop of [appendQuotedWith]: [for width := 0; len(s) > 0; s = s[width:]] *)
Fixpoint quoteLoop (fuel : nat) (ASCIIonly : bool) (s : bytes) : bytes :=
  match fuel, s with
  | S fuel', c :: _ =>
    let '(r, width) :=
      if utf8.RuneSelf <=? b2z c then utf8.DecodeRune s else (b2z c, 1%nat) in
    (if (width =? 1)%nat && (r =? utf8.RuneError)
     then str "\x" ++ hex2 (b2z c)
     else appendEscapedRune ASCIIonly r)
    ++ quoteLoop fuel' ASCIIonly (skipn width s)
  | _, _ => []
  end.

Definition quoteWith (ASCIIonly : bool) (s : bytes) : bytes :=
  [DQUOTE] ++ quoteLoop (len s) ASCIIonly s ++ [DQUOTE].

(** [strconv.Quote(s)] *)
Definition Quote (s : bytes) : bytes := quoteWith false s.

End Quoting.

(** [strconv.QuoteToASCII(s)]: only the runes below 0x80 are printed as
    they are, so the tables are not consulted. *)
Definition QuoteToASCII (s : bytes) : bytes := quoteWith (fun _ => false) true s.

End strconv.

(** ** The lookup tables *)

Fixpoint lookup {K V : Type} (eqb : K -> K -> bool) (m : list (K * V)) (k : K)
  : option V :=
  match m with
  | [] => None
  | (k', v) :: m' => if eqb k' k then Some v else lookup eqb m' k
  end.

Definition csiCommandDescriptions : list (ascii * bytes) :=
  [ ("@"%char, str "insert character");
    ("A"%char, str "cursor up");
    ("B"%char, str "cursor down");
    ("C"%char, str "cursor forward");
    ("D"%char, str "cursor back");
    ("E"%char, str "cursor next line");
    ("F"%char, str "cursor prev line");
    ("G"%char, str "cursor horizontal absolute");
    ("H"%char, str "cursor position");
    ("I"%char, str "cursor horizontal tab");
    ("J"%char, str "erase display");
    ("K"%char, str "erase line");
    ("L"%char, str "insert line");
    ("M"%char, str "delete line");
    ("P"%char, str "delete character");
    ("S"%char, str "scroll up");
    ("T"%char, str "scroll down");
    ("X"%char, str "erase character");
    ("Z"%char, str "cursor backward tab");
    ("a"%char, str "cursor horizontal relative");
    ("b"%char, str "repeat character");
    ("c"%char, str "device attributes");
    ("d"%char, str "cursor vertical absolute");
    ("e"%char, str "cursor vertical relative");
    ("f"%char, str "horizontal vertical position");
    ("g"%char, str "tab clear");
    ("h"%char, str "set mode");
    ("l"%char, str "reset mode");
    ("m"%char, str "SGR");
    ("n"%char, str "device status report");
    ("r"%char, str "set scrolling region");
    ("s"%char, str "save cursor");
    ("u"%char, str "restore cursor") ].

Definition decModeDescriptions : list (bytes * bytes) :=
  [ (str "1", str "application cursor keys");
    (str "3", str "132 column mode");
    (str "6", str "origin mode");
    (str "7", str "auto wrap");
    (str "12", str "blinking cursor");
    (str "25", str "show cursor");
    (str "47", str "alternate screen");
    (str "1000", str "mouse X10 tracking");
    (str "1002", str "mouse button events");
    (str "1003", str "mouse all events");
    (str "1004", str "focus events");
    (str "1006", str "SGR mouse mode");
    (str "1049", str "alt screen + save cursor");
    (str "2004", str "bracketed paste");
    (str "2026", str "synchronized output") ].

Definition sgrSingleDescriptions : list (Z * bytes) :=
  [ (0, str "reset all");
    (1, str "bold");
    (2, str "dim");
    (3, str "italic");
    (4, str "underline");
    (5, str "blink");
    (7, str "reverse");
    (8, str "hidden");
    (9, str "strikethrough");
    (21, str "doubly underlined");
    (22, str "normal intensity");
    (23, str "not italic");
    (24, str "not underlined");
    (25, str "not blinking");
    (27, str "not reversed");
    (28, str "not hidden");
    (29, str "not strikethrough");
    (39, str "default fg");
    (49, str "default bg") ].

(** ** The sequence describer *)

Definition parseCursorForwardN (seq : bytes) : result (Z * bool) :=
  if (len seq <? 3)%nat then Ok (0, false) else
  last <- index seq (len seq - 1) ;;
  if negb (Ascii.eqb last "C") then Ok (0, false) else
  params <- slice seq 2 (len seq - 1) ;;
  if bytes_eqb params [] then Ok (1, true) else
  match strconv.Atoi params with
  | None => Ok (0, false)
  | Some n => if n <=? 0 then Ok (0, false) else Ok (n, true)
  end.

(** [len(parts) op k && parts[0] == a && parts[1] == b] *)
Definition sgrShape (parts : list bytes) (lenOk : bool) (a b : bytes)
  : result bool :=
  andr lenOk (p0 <- index parts 0 ;;
  andr (bytes_eqb p0 a) (p1 <- index parts 1 ;;
  Ok (bytes_eqb p1 b))).

Definition describeSGR (params : bytes) : result bytes :=
  if bytes_eqb params [] then Ok (str "reset all") else
  let parts := strings.Split params ";" in
  let n := List.length parts in
  c <- sgrShape parts (5 <=? n)%nat (str "38") (str "2") ;;
  if c then
    p2 <- index parts 2 ;; p3 <- index parts 3 ;; p4 <- index parts 4 ;;
    Ok (str "fg rgb(" ++ p2 ++ str "," ++ p3 ++ str "," ++ p4 ++ str ")")
  else
  c <- sgrShape parts (5 <=? n)%nat (str "48") (str "2") ;;
  if c then
    p2 <- index parts 2 ;; p3 <- index parts 3 ;; p4 <- index parts 4 ;;
    Ok (str "bg rgb(" ++ p2 ++ str "," ++ p3 ++ str "," ++ p4 ++ str ")")
  else
  c <- sgrShape parts (n =? 3)%nat (str "38") (str "5") ;;
  if c then
    p2 <- index parts 2 ;; Ok (str "fg color256(" ++ p2 ++ str ")")
  else
  c <- sgrShape parts (n =? 3)%nat (str "48") (str "5") ;;
  if c then
    p2 <- index parts 2 ;; Ok (str "bg color256(" ++ p2 ++ str ")")
  else
  if negb (n =? 1)%nat then Ok [] else
  p0 <- index parts 0 ;;
  match strconv.Atoi p0 with
  | None => Ok []
  | Some n =>
    match lookup Z.eqb sgrSingleDescriptions n with
    | Some desc => Ok desc
    | None =>
      if (30 <=? n) && (n <=? 37)
      then Ok (str "fg ansi color " ++ strconv.Itoa (n - 30))
      else if (40 <=? n) && (n <=? 47)
      then Ok (str "bg ansi color " ++ strconv.Itoa (n - 40))
      else if (90 <=? n) && (n <=? 97)
      then Ok (str "fg bright color " ++ strconv.Itoa (n - 90))
      else if (100 <=? n) && (n <=? 107)
      then Ok (str "bg bright color " ++ strconv.Itoa (n - 100))
      else Ok []
    end
  end.

Definition formatDebugTermCSILine (seq : bytes) : result bytes :=
  if (len seq <? 3)%nat then Ok (str "CSI " ++ strconv.QuoteToASCII seq) else
  inner <- sliceFrom seq 2 ;;
  finalByte <- index inner (len inner - 1) ;;
  params <- slice inner 0 (len inner - 1) ;;
  if strings.HasPrefix params (str "?")
     && (Ascii.eqb finalByte "h" || Ascii.eqb finalByte "l")
  then
    modeStr <- sliceFrom params 1 ;;
    let line := if Ascii.eqb finalByte "h"
                then str "DEC SET " ++ modeStr
                else str "DEC RST " ++ modeStr in
    match lookup bytes_eqb decModeDescriptions modeStr with
    | Some desc => Ok (line ++ str " // " ++ desc)
    | None => Ok line
    end
  else
    let finalStr := [finalByte] in
    let line := if bytes_eqb params []
                then str "CSI " ++ finalStr
                else str "CSI " ++ finalStr ++ str " " ++ params in
    if Ascii.eqb finalByte "m" then
      desc <- describeSGR params ;;
      if negb (bytes_eqb desc []) then Ok (line ++ str " // " ++ desc)
      else Ok line
    else
      match lookup Ascii.eqb csiCommandDescriptions finalByte with
      | Some desc => Ok (line ++ str " // " ++ desc)
      | None => Ok line
      end.

Definition formatDebugTermOSCLine (seq : bytes) : result bytes :=
  if (len seq <? 3)%nat then Ok (str "OSC " ++ strconv.QuoteToASCII seq) else
  inner <- sliceFrom seq 2 ;;
  let inner := strings.TrimSuffix inner [BEL] in
  let inner := strings.TrimSuffix inner [ESC; "\"%char] in
  let idx := strings.IndexByte inner ";" in
  if 0 <=? idx then
    code <- slice inner 0 (Z.to_nat idx) ;;
    data <- sliceFrom inner (Z.to_nat idx + 1) ;;
    Ok (str "OSC " ++ code ++ str " " ++ strconv.QuoteToASCII data)
  else Ok (str "OSC " ++ strconv.QuoteToASCII inner).

(** ** The sequence scanner *)

(** The loop [for i < len(data) { if final(data[i]) { return ... }; i++ }]
    walks the bytes of [data[i:]]; it gives the index of the final byte. *)
Fixpoint csiLoop (rest : bytes) (i : nat) : option nat :=
  match rest with
  | [] => None
  | b :: rest' =>
    if (0x40 <=? b2z b) && (b2z b <=? 0x7e) then Some i
    else csiLoop rest' (S i)
  end.

Definition consumeDebugTermCSI (data : bytes) (start : nat)
  : result (bytes * nat) :=
  match csiLoop (skipn (start + 2) data) (start + 2) with
  | Some i => seq <- slice data start (i + 1) ;; Ok (seq, (i + 1)%nat)
  | None => seq <- sliceFrom data start ;; Ok (seq, len data)
  end.

(** The loop of [consumeDebugTermOSC]; it gives the index after the
    terminator. *)
Fixpoint oscLoop (rest : bytes) (i : nat) : option nat :=
  match rest with
  | [] => None
  | b :: rest' =>
    if Ascii.eqb b BEL then Some (i + 1)%nat
    else if Ascii.eqb b ESC
            && match rest' with c :: _ => Ascii.eqb c "\" | [] => false end
    then Some (i + 2)%nat
    else oscLoop rest' (S i)
  end.

Definition consumeDebugTermOSC (data : bytes) (start : nat)
  : result (bytes * nat) :=
  match oscLoop (skipn (start + 2) data) (start + 2) with
  | Some e => seq <- slice data start e ;; Ok (seq, e)
  | None => seq <- sliceFrom data start ;; Ok (seq, len data)
  end.

(** The loop of [consumeDebugTermST]. *)
Fixpoint stLoop (rest : bytes) (i : nat) : option nat :=
  match rest with
  | [] => None
  | b :: rest' =>
    if Ascii.eqb b ESC
       && match rest' with c :: _ => Ascii.eqb c "\" | [] => false end
    then Some (i + 2)%nat
    else stLoop rest' (S i)
  end.

Definition consumeDebugTermST (data : bytes) (start : nat)
  : result (bytes * nat) :=
  match stLoop (skipn (start + 2) data) (start + 2) with
  | Some e => seq <- slice data start e ;; Ok (seq, e)
  | None => seq <- sliceFrom data start ;; Ok (seq, len data)
  end.

Definition isDebugTermC0Control (b : ascii) : bool :=
  (b2z b <? 0x20) || (b2z b =? 0x7f).

(** The loop of [consumeDebugTermText], which advances by the width of a
    rune; [fuel] bounds the number of iterations. *)
Fixpoint textLoop (fuel : nat) (data : bytes) (i : nat) : nat :=
  match fuel with
  | O => i
  | S fuel' =>
    match skipn i data with
    | [] => i
    | b :: _ =>
      if Ascii.eqb b ESC || Ascii.eqb b BEL then i
      else if Ascii.eqb b LF || Ascii.eqb b CR || Ascii.eqb b TAB
      then textLoop fuel' data (S i)
      else if isDebugTermC0Control b then i
      else if b2z b <? 0x80 then textLoop fuel' data (S i)
      else
        let '(_, sz) := utf8.DecodeRune (skipn i data) in
        if (sz =? 1)%nat then i else textLoop fuel' data (i + sz)
    end
  end.

Definition consumeDebugTermText (data : bytes) (i : nat) : nat * nat :=
  (i, textLoop (len data - i) data i).

(** ** The text coalescer *)

Definition isCRLF (c : ascii) : bool := Ascii.eqb c CR || Ascii.eqb c LF.

(** [for i < len(s) && p(s[i]) { i++ }], on the bytes [s[i:]]. *)
Fixpoint scanWhile (p : ascii -> bool) (rest : bytes) (i : nat) : nat :=
  match rest with
  | [] => i
  | c :: rest' => if p c then scanWhile p rest' (S i) else i
  end.

(** The start [i] of the next CR/LF run of [s], and its end [j]. *)
Definition crlfStart (s : bytes) : nat :=
  scanWhile (fun c => negb (isCRLF c)) s 0.
Definition crlfEnd (s : bytes) : nat :=
  scanWhile isCRLF (skipn (crlfStart s) s) (crlfStart s).

(** [splitOnCRLFRuns] splits [s] at the end of each run of CR and LF
    bytes.  The outer loop continues on [s[j:]], which is shorter. *)
Equations? splitOnCRLFRuns (s : bytes) : list bytes by wf (len s) lt :=
  splitOnCRLFRuns s with inspect (len s =? 0)%nat := {
    | exist _ true _ => [];
    | exist _ false _ with inspect (crlfStart s =? len s)%nat := {
      | exist _ true _ => [s];
      | exist _ false _ =>
        firstn (crlfEnd s) s :: splitOnCRLFRuns (skipn (crlfEnd s) s) } }.
Proof.
  clear splitOnCRLFRuns.
  assert (A : forall p r i, (i <= scanWhile p r i)%nat).
  { intros p r; induction r as [|c r IH]; intros i; simpl; [lia|].
    destruct (p c); [specialize (IH (S i)); lia | lia]. }
  assert (B : forall r i,
    (scanWhile (fun c => negb (isCRLF c)) r i <> i + len r ->
     i + 1 <= scanWhile isCRLF
                (skipn (scanWhile (fun c => negb (isCRLF c)) r i - i) r)
                (scanWhile (fun c => negb (isCRLF c)) r i))%nat).
  { intros r; induction r as [|c r IH]; intros i; simpl.
    - intros H; lia.
    - destruct (isCRLF c) eqn:E; simpl.
      + intros _. rewrite Nat.sub_diag. simpl. rewrite E.
        pose proof (A isCRLF r (S i)). lia.
      + intros H. pose proof (A (fun c => negb (isCRLF c)) r (S i)).
        replace (scanWhile (fun c0 => negb (isCRLF c0)) r (S i) - i)%nat
          with (S (scanWhile (fun c0 => negb (isCRLF c0)) r (S i) - S i))
          by lia.
        simpl. specialize (IH (S i)). lia. }
  apply Nat.eqb_neq in e0. apply Nat.eqb_neq in e.
  specialize (B s 0%nat). rewrite Nat.sub_0_r in B. simpl in B.
  unfold crlfEnd, crlfStart in *. specialize (B e0).
  unfold len in *. rewrite length_skipn. lia.
Qed.

(** The coalescer state of one decode call, with the lines emitted so far. *)
Record dstate : Type := mkState {
  lines : list bytes;
  textBuf : bytes;
  totalCSpaces : Z
}.

Definition appendLine (st : dstate) (line : bytes) : dstate :=
  {| lines := lines st ++ [line];
     textBuf := textBuf st;
     totalCSpaces := totalCSpaces st |}.

(** The tokens of the byte stream, each with the span it consumed. *)
Inductive token : Type :=
| Text (raw : bytes)
| ControlByte (b : ascii)
| Bell
| BareEscape (raw : bytes)
| CSI (raw : bytes)
| OSC (raw : bytes)
| DCS (raw : bytes)
| PM (raw : bytes)
| APC (raw : bytes).

Definition raw (t : token) : bytes :=
  match t with
  | Text r | BareEscape r | CSI r | OSC r | DCS r | PM r | APC r => r
  | ControlByte b => [b]
  | Bell => [BEL]
  end.

Section Decoder.

Variable isPrintTable : Z -> bool.

(** The loop [for i, seg := range segs] of [flushText], [n] being
    [len(segs)]. *)
Fixpoint flushRange (segs : list bytes) (i n : nat) (total : Z) : list bytes :=
  match segs with
  | [] => []
  | seg :: rest =>
    (if (i =? n - 1)%nat && (0 <? total)
     then str "TXT " ++ strconv.Quote isPrintTable seg
          ++ str " // " ++ strconv.Itoa total ++ str "C"
     else str "TXT " ++ strconv.Quote isPrintTable seg)
    :: flushRange rest (S i) n total
  end.

Definition flushText (st : dstate) : dstate :=
  if bytes_eqb (textBuf st) [] && (totalCSpaces st =? 0) then st else
  let segs := splitOnCRLFRuns (textBuf st) in
  let segs := if (List.length segs =? 0)%nat then [textBuf st] else segs in
  {| lines := lines st ++ flushRange segs 0 (List.length segs) (totalCSpaces st);
     textBuf := [];
     totalCSpaces := 0 |}.

(** One iteration of the scan loop of [formatDebugTermDecode] at index
    [i < len(data)]: the next index and the next state. *)
Definition decodeStep (data : bytes) (i : nat) (st : dstate)
  : result (nat * dstate) :=
  b <- index data i ;;
  if Ascii.eqb b ESC then
    if (len data <=? i + 1)%nat then
      Ok (S i, appendLine (flushText st) (str "ESC"))
    else
      next <- index data (i + 1) ;;
      if Ascii.eqb next "[" then
        '(seq, e) <- consumeDebugTermCSI data i ;;
        '(n, ok) <- parseCursorForwardN seq ;;
        if ok : bool then
          spaces <- strings.Repeat (str " ") n ;;
          Ok (e, {| lines := lines st;
                    textBuf := textBuf st ++ spaces;
                    totalCSpaces := wrapInt (totalCSpaces st + n) |})
        else
          let st := flushText st in
          line <- formatDebugTermCSILine seq ;;
          Ok (e, appendLine st line)
      else if Ascii.eqb next "]" then
        let st := flushText st in
        '(seq, e) <- consumeDebugTermOSC data i ;;
        line <- formatDebugTermOSCLine seq ;;
        Ok (e, appendLine st line)
      else if Ascii.eqb next "P" then
        let st := flushText st in
        '(seq, e) <- consumeDebugTermST data i ;;
        Ok (e, appendLine st (str "DCS " ++ strconv.QuoteToASCII seq))
      else if Ascii.eqb next "^" then
        let st := flushText st in
        '(seq, e) <- consumeDebugTermST data i ;;
        Ok (e, appendLine st (str "PM " ++ strconv.QuoteToASCII seq))
      else if Ascii.eqb next "_" then
        let st := flushText st in
        '(seq, e) <- consumeDebugTermST data i ;;
        Ok (e, appendLine st (str "APC " ++ strconv.QuoteToASCII seq))
      else
        let st := flushText st in
        seq <- slice data i (i + 2) ;;
        Ok ((i + 2)%nat, appendLine st (str "ESC " ++ strconv.QuoteToASCII seq))
  else if Ascii.eqb b BEL then
    Ok (S i, appendLine (flushText st) (str "BEL"))
  else
    let '(start, e) := consumeDebugTermText data i in
    if (start <? e)%nat then
      text <- slice data start e ;;
      Ok (e, {| lines := lines st;
                textBuf := textBuf st ++ text;
                totalCSpaces := totalCSpaces st |})
    else
      Ok (S i, appendLine (flushText st)
                 (str "CTL 0x" ++ strconv.hex2 (b2z b))).

(** *** The tokens of the scanner

    The loop body classifies the bytes at [i] and consumes a span of
    them; [scanToken] is that classification alone, and [route] is what
    the body does with the span. *)

Definition scanToken (data : bytes) (i : nat) : result (token * nat) :=
  b <- index data i ;;
  if Ascii.eqb b ESC then
    if (len data <=? i + 1)%nat then Ok (BareEscape [b], S i)
    else
      next <- index data (i + 1) ;;
      if Ascii.eqb next "[" then
        '(seq, e) <- consumeDebugTermCSI data i ;; Ok (CSI seq, e)
      else if Ascii.eqb next "]" then
        '(seq, e) <- consumeDebugTermOSC data i ;; Ok (OSC seq, e)
      else if Ascii.eqb next "P" then
        '(seq, e) <- consumeDebugTermST data i ;; Ok (DCS seq, e)
      else if Ascii.eqb next "^" then
        '(seq, e) <- consumeDebugTermST data i ;; Ok (PM seq, e)
      else if Ascii.eqb next "_" then
        '(seq, e) <- consumeDebugTermST data i ;; Ok (APC seq, e)
      else
        seq <- slice data i (i + 2) ;; Ok (BareEscape seq, (i + 2)%nat)
  else if Ascii.eqb b BEL then Ok (Bell, S i)
  else
    let '(start, e) := consumeDebugTermText data i in
    if (start <? e)%nat then
      text <- slice data start e ;; Ok (Text text, e)
    else Ok (ControlByte b, S i).

Definition route (t : token) (st : dstate) : result dstate :=
  match t with
  | Text text =>
    Ok {| lines := lines st;
          textBuf := textBuf st ++ text;
          totalCSpaces := totalCSpaces st |}
  | CSI seq =>
    '(n, ok) <- parseCursorForwardN seq ;;
    if ok : bool then
      spaces <- strings.Repeat (str " ") n ;;
      Ok {| lines := lines st;
            textBuf := textBuf st ++ spaces;
            totalCSpaces := wrapInt (totalCSpaces st + n) |}
    else
      line <- formatDebugTermCSILine seq ;;
      Ok (appendLine (flushText st) line)
  | OSC seq =>
    line <- formatDebugTermOSCLine seq ;;
    Ok (appendLine (flushText st) line)
  | DCS seq =>
    Ok (appendLine (flushText st) (str "DCS " ++ strconv.QuoteToASCII seq))
  | PM seq =>
    Ok (appendLine (flushText st) (str "PM " ++ strconv.QuoteToASCII seq))
  | APC seq =>
    Ok (appendLine (flushText st) (str "APC " ++ strconv.QuoteToASCII seq))
  | BareEscape seq =>
    if (len seq <? 2)%nat
    then Ok (appendLine (flushText st) (str "ESC"))
    else Ok (appendLine (flushText st)
               (str "ESC " ++ strconv.QuoteToASCII seq))
  | Bell => Ok (appendLine (flushText st) (str "BEL"))
  | ControlByte b =>
    Ok (appendLine (flushText st) (str "CTL 0x" ++ strconv.hex2 (b2z b)))
  end.

(** The tokens of [data] from index [i] on. *)
Fixpoint scanLoop (fuel : nat) (data : bytes) (i : nat) : result (list token) :=
  if (len data <=? i)%nat then Ok [] else
  match fuel with
  | O => OutOfFuel
  | S fuel' =>
    '(t, i') <- scanToken data i ;;
    ts <- scanLoop fuel' data i' ;;
    Ok (t :: ts)
  end.

Definition scan (data : bytes) : result (list token) :=
  scanLoop (len data) data 0.

(** Routing a list of tokens through the coalescer, in order. *)
Fixpoint routeAll (ts : list token) (st : dstate) : result dstate :=
  match ts with
  | [] => Ok st
  | t :: ts' => st' <- route t st ;; routeAll ts' st'
  end.

(** [for i := 0; i < len(data); { ... }] *)
Fixpoint decodeLoop (fuel : nat) (data : bytes) (i : nat) (st : dstate)
  : result dstate :=
  if (len data <=? i)%nat then Ok st else
  match fuel with
  | O => OutOfFuel
  | S fuel' =>
    '(i', st') <- decodeStep data i st ;;
    decodeLoop fuel' data i' st'
  end.

Definition formatDebugTermDecode (data : bytes) : result bytes :=
  if (len data =? 0)%nat then Ok [] else
  st <- decodeLoop (len data) data 0
          {| lines := []; textBuf := []; totalCSpaces := 0 |} ;;
  let st := flushText st in
  Ok (strings.Join (lines st) [LF] ++ [LF]).

End Decoder.

(** ** encoding/json *)

Module json.

(** A JSON text, its string values unquoted. *)
Inductive value : Type :=
| Null
| Bool (b : bool)
| Number (lit : bytes)
| String (s : bytes)
| Array (elems : list value)
| Object (members : list (bytes * value)).

(** What a decoding gives: a value, the error that [Unmarshal] returns,
    or nothing when the fuel of the model ran out. *)
Inductive outcome (A : Type) : Type :=
| Done (a : A)
| Error
| Fuel.
Arguments Error {A}.
Arguments Fuel {A}.

Definition maxNestingDepth : Z := 10000.

Definition isSpace (c : ascii) : bool :=
  Ascii.eqb c " " || Ascii.eqb c TAB || Ascii.eqb c CR || Ascii.eqb c LF.

Fixpoint skipSpace (s : bytes) : bytes :=
  match s with
  | c :: s' => if isSpace c then skipSpace s' else s
  | [] => []
  end.

Definition hexVal (c : ascii) : option Z :=
  let z := b2z c in
  if (48 <=? z) && (z <=? 57) then Some (z - 48)
  else if (97 <=? z) && (z <=? 102) then Some (z - 97 + 10)
  else if (65 <=? z) && (z <=? 70) then Some (z - 65 + 10)
  else None.

(** [getu4]: the value of the four hexadecimal digits of a [\u] escape. *)
Definition getu4 (h1 h2 h3 h4 : ascii) : option Z :=
  match hexVal h1, hexVal h2, hexVal h3, hexVal h4 with
  | Some a, Some b, Some c, Some d => Some (((a * 16 + b) * 16 + c) * 16 + d)
  | _, _, _, _ => None
  end.

(** [utf16.IsSurrogate] and [utf16.DecodeRune] *)
Definition IsSurrogate (r : Z) : bool := (0xD800 <=? r) && (r <? 0xE000).
Definition utf16DecodeRune (r1 r2 : Z) : Z :=
  if (0xD800 <=? r1) && (r1 <? 0xDC00) && (0xDC00 <=? r2) && (r2 <? 0xE000)
  then Z.lor (Z.shiftl (r1 - 0xD800) 10) (r2 - 0xDC00) + 0x10000
  else utf8.RuneError.

Definition simpleEscape (e : ascii) : option ascii :=
  if Ascii.eqb e DQUOTE then Some DQUOTE
  else if Ascii.eqb e "\" then Some "\"%char
  else if Ascii.eqb e "/" then Some "/"%char
  else if Ascii.eqb e "b" then Some "008"%char
  else if Ascii.eqb e "f" then Some "012"%char
  else if Ascii.eqb e "n" then Some LF
  else if Ascii.eqb e "r" then Some CR
  else if Ascii.eqb e "t" then Some TAB
  else None.

Definition push (b : bytes) (r : option (bytes * bytes)) : option (bytes * bytes) :=
  match r with
  | Some (v, rest) => Some (b ++ v, rest)
  | None => None
  end.

(** A string literal after its opening quote: the value that
    [unquoteBytes] gives to the literal the scanner accepts, and the
    input after the closing quote.  A control byte or a bad escape is a
    syntax error; a byte that is not UTF-8 is coerced to U+FFFD, as is an
    unpaired surrogate escape. *)
Fixpoint stringLit (s : bytes) : option (bytes * bytes) :=
  match s with
  | [] => None
  | c :: s1 =>
    if Ascii.eqb c DQUOTE then Some ([], s1)
    else if Ascii.eqb c "\" then
      match s1 with
      | [] => None
      | e :: s2 =>
        match simpleEscape e with
        | Some b => push [b] (stringLit s2)
        | None =>
          if Ascii.eqb e "u" then
            match s2 with
            | h1 :: h2 :: h3 :: h4 :: s6 =>
              match getu4 h1 h2 h3 h4 with
              | None => None
              | Some rr =>
                if IsSurrogate rr then
                  match s6 with
                  | b1 :: u1 :: k1 :: k2 :: k3 :: k4 :: s12 =>
                    match (if Ascii.eqb b1 "\" && Ascii.eqb u1 "u"
                           then getu4 k1 k2 k3 k4 else None) with
                    | Some rr1 =>
                      let dec := utf16DecodeRune rr rr1 in
                      if dec =? utf8.RuneError
                      then push (utf8.EncodeRune utf8.RuneError) (stringLit s6)
                      else push (utf8.EncodeRune dec) (stringLit s12)
                    | None =>
                      push (utf8.EncodeRune utf8.RuneError) (stringLit s6)
                    end
                  | _ => push (utf8.EncodeRune utf8.RuneError) (stringLit s6)
                  end
                else push (utf8.EncodeRune rr) (stringLit s6)
              end
            | _ => None
            end
          else None
        end
      end
    else if b2z c <? 0x20 then None
    else if b2z c <? utf8.RuneSelf then push [c] (stringLit s1)
    else
      let '(rr, size) := utf8.DecodeRune s in
      match size, s1 with
      | 2%nat, _ :: r => push (utf8.EncodeRune rr) (stringLit r)
      | 3%nat, _ :: _ :: r => push (utf8.EncodeRune rr) (stringLit r)
      | 4%nat, _ :: _ :: _ :: r => push (utf8.EncodeRune rr) (stringLit r)
      | _, _ => push (utf8.EncodeRune rr) (stringLit s1)
      end
  end.

Fixpoint spanDigits (s : bytes) : bytes * bytes :=
  match s with
  | c :: s' =>
    if strconv.isDigit c
    then let '(ds, rest) := spanDigits s' in (c :: ds, rest)
    else ([], s)
  | [] => ([], [])
  end.

(** A number literal: an optional minus sign; a zero, or a digit from 1
    to 9 and digits; optionally a point and one digit or more; optionally
    an exponent, which is e or E, an optional sign and one digit or more. *)
Definition numberLit (s : bytes) : option (bytes * bytes) :=
  let '(sign, s) :=
    match s with
    | c :: t => if Ascii.eqb c "-" then ([c], t) else ([], s)
    | [] => ([], s)
    end in
  match s with
  | [] => None
  | d :: t =>
    if negb (strconv.isDigit d) then None else
    let '(int, s) := if Ascii.eqb d "0" then ([d], t) else spanDigits s in
    let frac :=
      match s with
      | c :: t =>
        if Ascii.eqb c "." then
          let '(ds, rest) := spanDigits t in
          match ds with [] => None | _ => Some (c :: ds, rest) end
        else Some ([], s)
      | [] => Some ([], s)
      end in
    match frac with
    | None => None
    | Some (fr, s) =>
      match s with
      | c :: t =>
        if Ascii.eqb c "e" || Ascii.eqb c "E" then
          let '(sg, t) :=
            match t with
            | g :: t' =>
              if Ascii.eqb g "+" || Ascii.eqb g "-" then ([g], t') else ([], t)
            | [] => ([], t)
            end in
          let '(ds, rest) := spanDigits t in
          match ds with
          | [] => None
          | _ => Some (sign ++ int ++ fr ++ [c] ++ sg ++ ds, rest)
          end
        else Some (sign ++ int ++ fr, s)
      | [] => Some (sign ++ int ++ fr, s)
      end
    end
  end.

(** [literal word v s]: the literals [true], [false] and [null]. *)
Definition literal (word : bytes) (v : value) (s : bytes)
  : outcome (value * bytes) :=
  if strings.HasPrefix s word then Done (v, skipn (len word) s) else Error.

(** The scanner, as a recursive descent on the input.  [depth] is the
    number of arrays and objects that are open; [fuel] bounds the number
    of calls. *)
Fixpoint parseValue (fuel : nat) (depth : Z) (s : bytes)
  : outcome (value * bytes) :=
  match fuel with
  | O => Fuel
  | S fuel' =>
    match skipSpace s with
    | [] => Error
    | c :: s1 =>
      if Ascii.eqb c "[" then
        if maxNestingDepth <? depth + 1 then Error else
        match skipSpace s1 with
        | [] => Error
        | c1 :: s2 =>
          if Ascii.eqb c1 "]" then Done (Array [], s2)
          else parseElems fuel' (depth + 1) (c1 :: s2) []
        end
      else if Ascii.eqb c "{" then
        if maxNestingDepth <? depth + 1 then Error else
        match skipSpace s1 with
        | [] => Error
        | c1 :: s2 =>
          if Ascii.eqb c1 "}" then Done (Object [], s2)
          else parseMembers fuel' (depth + 1) (c1 :: s2) []
        end
      else if Ascii.eqb c DQUOTE then
        match stringLit s1 with
        | Some (v, rest) => Done (String v, rest)
        | None => Error
        end
      else if Ascii.eqb c "-" || strconv.isDigit c then
        match numberLit (c :: s1) with
        | Some (lit, rest) => Done (Number lit, rest)
        | None => Error
        end
      else if Ascii.eqb c "t" then literal (str "true") (Bool true) (c :: s1)
      else if Ascii.eqb c "f" then literal (str "false") (Bool false) (c :: s1)
      else if Ascii.eqb c "n" then literal (str "null") Null (c :: s1)
      else Error
    end
  end

(** The elements of an array from an element on, [acc] being the
    elements before it. *)
with parseElems (fuel : nat) (depth : Z) (s : bytes) (acc : list value)
  : outcome (value * bytes) :=
  match fuel with
  | O => Fuel
  | S fuel' =>
    match parseValue fuel' depth s with
    | Done (v, rest) =>
      match skipSpace rest with
      | c :: rest' =>
        if Ascii.eqb c "," then parseElems fuel' depth rest' (acc ++ [v])
        else if Ascii.eqb c "]" then Done (Array (acc ++ [v]), rest')
        else Error
      | [] => Error
      end
    | Error => Error
    | Fuel => Fuel
    end
  end

(** The members of an object from a key on. *)
with parseMembers (fuel : nat) (depth : Z) (s : bytes)
                  (acc : list (bytes * value))
  : outcome (value * bytes) :=
  match fuel with
  | O => Fuel
  | S fuel' =>
    match skipSpace s with
    | c :: s1 =>
      if negb (Ascii.eqb c DQUOTE) then Error else
      match stringLit s1 with
      | None => Error
      | Some (key, s2) =>
        match skipSpace s2 with
        | c2 :: s3 =>
          if negb (Ascii.eqb c2 ":") then Error else
          match parseValue fuel' depth s3 with
          | Done (v, rest) =>
            match skipSpace rest with
            | c3 :: rest' =>
              if Ascii.eqb c3 ","
              then parseMembers fuel' depth rest' (acc ++ [(key, v)])
              else if Ascii.eqb c3 "}"
              then Done (Object (acc ++ [(key, v)]), rest')
              else Error
            | [] => Error
            end
          | Error => Error
          | Fuel => Fuel
          end
        | [] => Error
        end
      end
    | [] => Error
    end
  end.

(** The whole input is one value, with white space around it. *)
Definition parse (data : bytes) : outcome value :=
  match parseValue (2 * len data + 2) 0 data with
  | Done (v, rest) =>
    match skipSpace rest with
    | [] => Done v
    | _ :: _ => Error
    end
  | Error => Error
  | Fuel => Fuel
  end.

End json.

(** ** The input normalizer *)

Record debugTermStdinEntry : Type := mkEntry { Data : bytes }.

Module unmarshal.
Import json.

Definition upper (c : ascii) : ascii :=
  if (97 <=? b2z c) && (b2z c <=? 122) then z2b (b2z c - 32) else c.

(** A key selects the field tagged [data] when it is that name, or is
    that name when the case of its letters is ignored. *)
Definition isDataKey (key : bytes) : bool :=
  bytes_eqb key (str "data") || bytes_eqb (map upper key) (str "DATA").

(** Storing the members of an object into an entry, in order.  A string
    sets the field, [null] leaves it, any other value is an
    [UnmarshalTypeError]; the members of other keys are skipped. *)
Fixpoint storeMembers (ms : list (bytes * value)) (e : debugTermStdinEntry)
  : option debugTermStdinEntry :=
  match ms with
  | [] => Some e
  | (key, v) :: ms' =>
    if isDataKey key then
      match v with
      | String s => storeMembers ms' {| Data := s |}
      | Null => storeMembers ms' e
      | _ => None
      end
    else storeMembers ms' e
  end.

Definition storeEntry (v : value) : option debugTermStdinEntry :=
  match v with
  | Object ms => storeMembers ms {| Data := [] |}
  | Null => Some {| Data := [] |}
  | _ => None
  end.

Definition storeString (v : value) : option bytes :=
  match v with
  | String s => Some s
  | Null => Some []
  | _ => None
  end.

Fixpoint storeAll {A} (f : value -> option A) (vs : list value)
  : option (list A) :=
  match vs with
  | [] => Some []
  | v :: vs' =>
    match f v, storeAll f vs' with
    | Some a, Some l => Some (a :: l)
    | _, _ => None
    end
  end.

(** Storing a value into a slice. *)
Definition storeSlice {A} (f : value -> option A) (v : value)
  : outcome (list A) :=
  match v with
  | Array vs =>
    match storeAll f vs with Some l => Done l | None => Error end
  | Null => Done []
  | _ => Error
  end.

(** [json.Unmarshal(data, &structArr)], for [structArr []debugTermStdinEntry] *)
Definition Entries (data : bytes) : outcome (list debugTermStdinEntry) :=
  match parse data with
  | Done v => storeSlice storeEntry v
  | Error => Error
  | Fuel => Fuel
  end.

(** [json.Unmarshal(data, &strArr)], for [strArr []string] *)
Definition Strings (data : bytes) : outcome (list bytes) :=
  match parse data with
  | Done v => storeSlice storeString v
  | Error => Error
  | Fuel => Fuel
  end.

End unmarshal.

(** The error value that a Go function returns beside its result. *)
Definition error := option string.

(** The message that [parseDebugTermStdinData] prints on the standard
    error when the first decoding fails is not part of its result. *)
Definition parseDebugTermStdinData (data : bytes) : result (bytes * error) :=
  let trimmed := strings.TrimSpace data in
  if (len trimmed =? 0)%nat then Ok (data, None) else
  c <- index trimmed 0 ;;
  if Ascii.eqb c "[" then
    match unmarshal.Entries data with
    | json.Done structArr => Ok (strings.Join (map Data structArr) [], None)
    | json.Fuel => OutOfFuel
    | json.Error =>
      match unmarshal.Strings data with
      | json.Done strArr => Ok (strings.Join strArr [], None)
      | json.Fuel => OutOfFuel
      | json.Error => Ok (data, None)
      end
    end
  else Ok (data, None).

(** ** Definitions that the statements of the properties use *)

(** The message of the panic that the runtime raises on an allocation
    beyond [maxAlloc]. *)
Definition makeslicePanic : string := "runtime error: makeslice: len out of range".

(** What the three consume functions have in common: the span starts at
    [start], has two bytes or more and ends within the buffer. *)
Definition spanFrom (data : bytes) (start : nat) (r : result (bytes * nat)) : Prop :=
  exists e, r = Ok (firstn (e - start) (skipn start data), e)
            /\ (start + 2 <= e <= len data)%nat.

(** The codes that [sgrSingleDescriptions] describes. *)
Definition sgrExactCodes : list Z :=
  [0; 1; 2; 3; 4; 5; 7; 8; 9; 21; 22; 23; 24; 25; 27; 28; 29; 39; 49].

Definition inRange (lo hi n : Z) : Prop := lo <= n <= hi.

(** The first two parts are [a] and [b]. *)
Definition startsWith (parts : list bytes) (a b : string) : Prop :=
  nth 0 parts [] = str a /\ nth 1 parts [] = str b.

(** The bytes that end a CSI sequence. *)
Definition isFinalByte (b : ascii) : bool := (0x40 <=? b2z b) && (b2z b <=? 0x7e).

(** The line that the design document gives to a CSI sequence without a
    final byte: an opaque CSI, the raw span quoted and no final byte. *)
Definition opaqueCSILine (span : bytes) : bytes :=
  str "CSI " ++ strconv.QuoteToASCII span.

(** The line of an OSC span as the design document states it: the two
    bytes of the prefix and one trailing terminator, BEL or ESC
    backslash, are stripped, and what is left is split on its first
    semicolon. *)
Definition stripTerminator (inner : bytes) : bytes :=
  if strings.HasSuffix inner [BEL] then firstn (len inner - 1) inner
  else if strings.HasSuffix inner [ESC; "\"%char] then firstn (len inner - 2) inner
  else inner.

Fixpoint cutFirst (c : ascii) (s : bytes) : option (bytes * bytes) :=
  match s with
  | [] => None
  | b :: s' =>
    if Ascii.eqb b c then Some ([], s')
    else match cutFirst c s' with
         | Some (l, r) => Some (b :: l, r)
         | None => None
         end
  end.

Definition oscLineStated (seq : bytes) : bytes :=
  let inner := stripTerminator (skipn 2 seq) in
  match cutFirst ";" inner with
  | Some (code, data) => str "OSC " ++ code ++ str " " ++ strconv.QuoteToASCII data
  | None => str "OSC " ++ strconv.QuoteToASCII inner
  end.

(** The bytes of an OSC payload: no BEL, and no ESC before a backslash. *)
Fixpoint oscPlain (s : bytes) : bool :=
  match s with
  | [] => true
  | b :: s' =>
    negb (Ascii.eqb b BEL)
    && negb (Ascii.eqb b ESC
             && match s' with c :: _ => Ascii.eqb c "\" | [] => false end)
    && oscPlain s'
  end.

(** The [TXT] line of a segment, and the annotation of the count of
    collapsed spaces. *)
Definition txtLine (isPrintTable : Z -> bool) (seg : bytes) : bytes :=
  str "TXT " ++ strconv.Quote isPrintTable seg.

Definition spaceAnnotation (total : Z) : bytes :=
  if 0 <? total then str " // " ++ strconv.Itoa total ++ str "C" else [].

(** A segment that ends with a run of CR and LF bytes, after bytes that
    are neither; a segment without such a byte; a segment that starts
    with a byte that is neither. *)
Definition endsWithRun (seg : bytes) : Prop :=
  exists body run,
    seg = body ++ run
    /\ Forall (fun c => isCRLF c = false) body
    /\ run <> []
    /\ Forall (fun c => isCRLF c = true) run.

Definition noRun (seg : bytes) : Prop :=
  seg <> [] /\ Forall (fun c => isCRLF c = false) seg.

Definition startsPlain (seg : bytes) : Prop :=
  exists c t, seg = c :: t /\ isCRLF c = false.

(** Every segment but the last ends with a run, and the run is maximal:
    the next segment starts with a byte that is neither CR nor LF.  The
    last segment ends with a run or has none. *)
Fixpoint segmentsOk (segs : list bytes) : Prop :=
  match segs with
  | [] => True
  | seg :: rest =>
    match rest with
    | [] => endsWithRun seg \/ noRun seg
    | nxt :: _ => endsWithRun seg /\ startsPlain nxt /\ segmentsOk rest
    end
  end.

(** The string that an object gives to the field [Data]: the string of
    its last member that has the key of the field and a string as value,
    and the empty string when it has no such member. *)
Definition stringOf (v : json.value) : option bytes :=
  match v with
  | json.String s => Some s
  | _ => None
  end.

Fixpoint lastData (ms : list (bytes * json.value)) : option bytes :=
  match ms with
  | [] => None
  | (k, v) :: ms' =>
    match lastData ms' with
    | Some s => Some s
    | None => if unmarshal.isDataKey k then stringOf v else None
    end
  end.

Definition dataField (ms : list (bytes * json.value)) : bytes :=
  match lastData ms with
  | Some s => s
  | None => []
  end.

(** The members of an object that have the key of the field hold a
    string or [null]. *)
Definition dataTyped (ms : list (bytes * json.value)) : Prop :=
  forall k v, In (k, v) ms -> unmarshal.isDataKey k = true ->
              v = json.Null \/ exists s, v = json.String s.


(** [utf8.Valid(s)]: no byte of [s] decodes to the rune error of width 1. *)
Fixpoint validLoop (fuel : nat) (s : bytes) : bool :=
  match fuel, s with
  | S fuel', _ :: _ =>
    let '(r, size) := utf8.DecodeRune s in
    if (r =? utf8.RuneError) && (size =? 1)%nat then false
    else validLoop fuel' (skipn size s)
  | _, _ => true
  end.

Definition Valid (s : bytes) : bool := validLoop (len s) s.

(** The JSON text of a string: between quotes, the quote and the
    backslash escaped by a backslash, a byte below 0x20 written as the
    escape of its code, and every other byte as it is. *)
Definition escapeByte (c : ascii) : bytes :=
  if Ascii.eqb c DQUOTE then str "\" ++ [DQUOTE]
  else if Ascii.eqb c "\" then str "\\"
  else if b2z c <? 0x20 then str "\u00" ++ strconv.hex2 (b2z c)
  else [c].

Definition encodeString (f : bytes) : bytes :=
  [DQUOTE] ++ flat_map escapeByte f ++ [DQUOTE].

(** The JSON text of an array: its elements between brackets, separated
    by commas. *)
Definition encodeArray (elems : list bytes) : bytes :=
  str "[" ++ strings.Join elems (str ",") ++ str "]".

(** The two encodings of a list of fragments. *)
Definition encodeStrings (fs : list bytes) : bytes :=
  encodeArray (map encodeString fs).

Definition encodeObject (f : bytes) : bytes :=
  str "{" ++ encodeString (str "data") ++ str ":" ++ encodeString f ++ str "}".


(** The bytes of a rune of two bytes or more: what [DecodeRune] accepts. *)
Inductive encoding : bytes -> Z -> Prop :=
| enc2 c0 c1 :
    0xC2 <= b2z c0 < 0xE0 -> 0x80 <= b2z c1 <= 0xBF ->
    encoding [c0; c1] ((b2z c0 - 0xC0) * 64 + (b2z c1 - 0x80))
| enc3 c0 c1 c2 lo hi :
    0xE0 <= b2z c0 < 0xF0 ->
    lo = (if b2z c0 =? 0xE0 then 0xA0 else 0x80) ->
    hi = (if b2z c0 =? 0xED then 0x9F else 0xBF) ->
    lo <= b2z c1 <= hi -> 0x80 <= b2z c2 <= 0xBF ->
    encoding [c0; c1; c2]
      ((b2z c0 - 0xE0) * 4096 + (b2z c1 - 0x80) * 64 + (b2z c2 - 0x80))
| enc4 c0 c1 c2 c3 lo hi :
    0xF0 <= b2z c0 <= 0xF4 ->
    lo = (if b2z c0 =? 0xF0 then 0x90 else 0x80) ->
    hi = (if b2z c0 =? 0xF4 then 0x8F else 0xBF) ->
    lo <= b2z c1 <= hi -> 0x80 <= b2z c2 <= 0xBF -> 0x80 <= b2z c3 <= 0xBF ->
    encoding [c0; c1; c2; c3]
      ((b2z c0 - 0xF0) * 262144 + (b2z c1 - 0x80) * 4096
       + (b2z c2 - 0x80) * 64 + (b2z c3 - 0x80)).


(** ** Definitions that the statements of the further properties use *)

(** The bytes that [consumeDebugTermText] takes one by one: line feed,
    carriage return, tab, and the ASCII bytes that are no control. *)
Definition isPlainByte (c : ascii) : bool :=
  Ascii.eqb c LF || Ascii.eqb c CR || Ascii.eqb c TAB
  || ((0x20 <=? b2z c) && (b2z c <? 0x7f)).

(** A run of text: plain bytes and well-formed runes of two bytes or
    more. *)
Inductive textRun : bytes -> Prop :=
| textRun_nil : textRun []
| textRun_plain c s : isPlainByte c = true -> textRun s -> textRun (c :: s)
| textRun_rune p r s : encoding p r -> textRun s -> textRun (p ++ s).

(** The bytes at which a run of text ends: the end of the buffer, ESC,
    BEL, a control byte that is not white space, and a byte of 0x80 or
    more that starts no well-formed rune. *)
Definition textStops (post : bytes) : bool :=
  match post with
  | [] => true
  | c :: _ =>
    Ascii.eqb c ESC || Ascii.eqb c BEL
    || (negb (isPlainByte c) && (b2z c <? 0x80))
    || ((0x80 <=? b2z c) && (snd (utf8.DecodeRune post) =? 1)%nat)
  end.

(** The payload of a DCS, PM or APC string: no ESC before a backslash. *)
Fixpoint stPlain (s : bytes) : bool :=
  match s with
  | [] => true
  | b :: s' =>
    negb (Ascii.eqb b ESC
          && match s' with c :: _ => Ascii.eqb c "\" | [] => false end)
    && stPlain s'
  end.

(** The bytes of a CSI sequence before its final byte. *)
Definition noFinal (s : bytes) : Prop := Forall (fun b => isFinalByte b = false) s.

(** The second byte of an escape pair that starts no sequence. *)
Definition isBareEscape (x : ascii) : bool :=
  negb (Ascii.eqb x "[" || Ascii.eqb x "]" || Ascii.eqb x "P"
        || Ascii.eqb x "^" || Ascii.eqb x "_").

(** The end of an OSC string, and the end of a DCS, PM or APC string. *)
Definition ST : bytes := [ESC; "\"%char].
Definition oscEnd (term : bytes) : Prop := term = [BEL] \/ term = ST.

(** The shape of a token, [post] being the bytes that follow it in the
    buffer.  A text is a run that ends where the bytes after it begin; a
    control byte is a byte at which no run of text begins; a sequence is
    ended by its terminator, or it is the last token and runs to the end
    of the buffer. *)
Inductive wfToken : token -> bytes -> Prop :=
| wf_text a post :
    a <> [] -> textRun a -> textStops post = true -> wfToken (Text a) post
| wf_control c post :
    Ascii.eqb c ESC = false -> Ascii.eqb c BEL = false ->
    textStops (c :: post) = true -> wfToken (ControlByte c) post
| wf_bell post : wfToken Bell post
| wf_escape x post :
    isBareEscape x = true -> wfToken (BareEscape [ESC; x]) post
| wf_escape_end : wfToken (BareEscape [ESC]) []
| wf_csi params f post :
    noFinal params -> isFinalByte f = true ->
    wfToken (CSI (ESC :: "["%char :: params ++ [f])) post
| wf_csi_end params :
    noFinal params -> wfToken (CSI (ESC :: "["%char :: params)) []
| wf_osc payload term post :
    oscPlain payload = true -> oscEnd term ->
    wfToken (OSC (ESC :: "]"%char :: payload ++ term)) post
| wf_osc_end payload :
    oscPlain payload = true -> wfToken (OSC (ESC :: "]"%char :: payload)) []
| wf_dcs payload post :
    stPlain payload = true -> wfToken (DCS (ESC :: "P"%char :: payload ++ ST)) post
| wf_dcs_end payload :
    stPlain payload = true -> wfToken (DCS (ESC :: "P"%char :: payload)) []
| wf_pm payload post :
    stPlain payload = true -> wfToken (PM (ESC :: "^"%char :: payload ++ ST)) post
| wf_pm_end payload :
    stPlain payload = true -> wfToken (PM (ESC :: "^"%char :: payload)) []
| wf_apc payload post :
    stPlain payload = true -> wfToken (APC (ESC :: "_"%char :: payload ++ ST)) post
| wf_apc_end payload :
    stPlain payload = true -> wfToken (APC (ESC :: "_"%char :: payload)) [].

(** The bytes of a list of tokens, and the lists in which every token
    has its shape before the bytes of the tokens after it. *)
Definition serialize (ts : list token) : bytes := List.concat (map raw ts).

Fixpoint wellFormed (ts : list token) : Prop :=
  match ts with
  | [] => True
  | t :: ts' => wfToken t (serialize ts') /\ wellFormed ts'
  end.

(** The value of decimal digits after the value [acc], as the loop of
    [Atoi] computes it. *)
Fixpoint horner (d : Decimal.uint) (acc : Z) : Z :=
  match d with
  | Decimal.Nil => acc
  | Decimal.D0 d => horner d (acc * 10 + 0)
  | Decimal.D1 d => horner d (acc * 10 + 1)
  | Decimal.D2 d => horner d (acc * 10 + 2)
  | Decimal.D3 d => horner d (acc * 10 + 3)
  | Decimal.D4 d => horner d (acc * 10 + 4)
  | Decimal.D5 d => horner d (acc * 10 + 5)
  | Decimal.D6 d => horner d (acc * 10 + 6)
  | Decimal.D7 d => horner d (acc * 10 + 7)
  | Decimal.D8 d => horner d (acc * 10 + 8)
  | Decimal.D9 d => horner d (acc * 10 + 9)
  end.


(** The lines of a flush: one [TXT] line for each segment, the last one
    with the annotation of the count. *)
Definition txtLines (isPrintTable : Z -> bool) (segs : list bytes) (total : Z)
  : list bytes :=
  map (txtLine isPrintTable) (removelast segs)
  ++ [txtLine isPrintTable (last segs []) ++ spaceAnnotation total].









(** ** encoding/hex *)

Module hex.

(** [toChar] *)
Definition toChar (b : ascii) : ascii :=
  if (b2z b <? 32) || (126 <? b2z b) then "."%char else b.

(** [a[i] = v] on an array. *)
Fixpoint store {A : Type} (a : list A) (i : nat) (v : A) : list A :=
  match a, i with
  | [], _ => []
  | _ :: t, O => v :: t
  | x :: t, S i' => x :: store t i' v
  end.

(** The eight digits of the offset at the start of a line: the bytes
    [byte(n >> 24)], [byte(n >> 16)], [byte(n >> 8)] and [byte(n)],
    encoded. *)
Definition offset (n : Z) : bytes :=
  strconv.hex2 (Z.shiftr n 24 mod 256) ++ strconv.hex2 (Z.shiftr n 16 mod 256)
  ++ strconv.hex2 (Z.shiftr n 8 mod 256) ++ strconv.hex2 (n mod 256).

(** The dumper: what it has written to its writer, the right column of
    the current line, the number of bytes in the current line and the
    number of bytes in total, which is a [uint]. *)
Record dumper : Type := mkDumper {
  written : bytes;
  rightChars : list ascii;
  used : nat;
  total : Z;
  closed : bool
}.

(** [Dumper(w)] *)
Definition Dumper : dumper :=
  {| written := []; rightChars := List.repeat zero 18; used := 0;
     total := 0; closed := false |}.

(** The body of the loop [for i := range data] of the method [Write]. *)
Definition writeByte (h : dumper) (b : ascii) : dumper :=
  let out := if (used h =? 0)%nat
             then written h ++ offset (total h) ++ str "  "
             else written h in
  let cell := strconv.hex2 (b2z b) ++ str " " in
  let cell := if (used h =? 7)%nat then cell ++ str " "
              else if (used h =? 15)%nat then cell ++ str " |"
              else cell in
  let out := out ++ cell in
  let right := store (rightChars h) (used h) (toChar b) in
  let n := (total h + 1) mod 2 ^ 64 in
  if (S (used h) =? 16)%nat then
    let right := store (store right 16 "|"%char) 17 LF in
    {| written := out ++ right; rightChars := right; used := 0;
       total := n; closed := closed h |}
  else
    {| written := out; rightChars := right; used := S (used h);
       total := n; closed := closed h |}.

(** The method [Write]; on a closed dumper it writes nothing and returns
    an error. *)
Definition Write (h : dumper) (data : bytes) : dumper :=
  if closed h then h else fold_left writeByte data h.

(** The loop [for h.used < 16] of the method [Close], which pads the
    line with the bytes of [buf], four spaces and a bar. *)
Fixpoint padLoop (fuel used : nat) : bytes :=
  match fuel with
  | O => []
  | S fuel' =>
    if (used <? 16)%nat then
      let l := if (used =? 7)%nat then 4%nat
               else if (used =? 15)%nat then 5%nat else 3%nat in
      firstn l (str "    |") ++ padLoop fuel' (S used)
    else []
  end.

(** The method [Close] *)
Definition Close (h : dumper) : dumper :=
  if closed h then h else
  if (used h =? 0)%nat then
    {| written := written h; rightChars := rightChars h; used := used h;
       total := total h; closed := true |}
  else
    let nBytes := used h in
    let right := store (store (rightChars h) nBytes "|"%char) (nBytes + 1) LF in
    {| written := written h ++ padLoop 16 (used h) ++ firstn (nBytes + 2) right;
       rightChars := right; used := 16; total := total h; closed := true |}.

(** [hex.Dump(data)].  The builder is grown before the dumper writes
    to it, which changes nothing of what is written. *)
Definition Dump (data : bytes) : bytes :=
  if (len data =? 0)%nat then [] else
  written (Close (Write Dumper data)).

End hex.

Definition formatDebugTermHex (data : bytes) : bytes := hex.Dump data.

(** A line of the dump as [hexdump -C] prints it: the offset, sixteen
    cells of two digits and a space, with one more space after the
    eighth, blank where the row has no byte, and the printable bytes of
    the row between bars. *)
Definition hexCell (row : bytes) (k : nat) : bytes :=
  match nth_error row k with
  | Some b => strconv.hex2 (b2z b)
  | None => str "  "
  end ++ str " " ++ (if (k =? 7)%nat then str " " else []).

Definition hexRow (off : Z) (row : bytes) : bytes :=
  hex.offset off ++ str "  " ++ flat_map (hexCell row) (seq 0 16)
  ++ str " |" ++ map hex.toChar row ++ str "|" ++ [LF].

(** The rows of sixteen bytes of a buffer, each with its offset. *)
Fixpoint hexRows (fuel : nat) (off : Z) (data : bytes) : list bytes :=
  match fuel, data with
  | S fuel', _ :: _ =>
    hexRow off (firstn 16 data) :: hexRows fuel' (off + 16) (skipn 16 data)
  | _, _ => []
  end.

(** The state of the dumper between two lines. *)
Definition betweenLines (h : hex.dumper) : Prop :=
  hex.used h = 0%nat /\ hex.closed h = false
  /\ List.length (hex.rightChars h) = 18%nat.


(** ** strings.ToLower and the mode flag *)

Module unicode.

Section Tables.

(** [unicode.ToLower] decides the runes up to [MaxASCII] by comparisons
    and the others by the case tables, which are the parameter
    [toLowerTable]. *)
Variable toLowerTable : Z -> Z.

Definition ToLower (r : Z) : Z :=
  if r <=? 0x7F then
    if (65 <=? r) && (r <=? 90) then r + 32 else r
  else toLowerTable r.

End Tables.

End unicode.

Module stringsMap.

Section Mapping.

Variable mapping : Z -> Z.

(** [b.WriteRune(r)] when [r >= 0] *)
Definition writeRune (r : Z) : bytes :=
  if 0 <=? r then utf8.EncodeRune r else [].

(** The second loop of [strings.Map]: every rune of the rest of the
    string is mapped and written, a byte that is no rune as
    [RuneError]. *)
Fixpoint mapRest (fuel : nat) (s : bytes) : bytes :=
  match fuel, s with
  | S fuel', _ :: _ =>
    let '(c, width) := utf8.DecodeRune s in
    writeRune (mapping c) ++ mapRest fuel' (skipn width s)
  | _, _ => []
  end.

(** The first loop of [strings.Map], which looks for the first rune
    that the mapping changes, or that is no rune: [None] when there is
    none, and the whole output otherwise. *)
Fixpoint mapScan (fuel : nat) (s : bytes) (i : nat) : option bytes :=
  match fuel with
  | O => None
  | S fuel' =>
    match skipn i s with
    | [] => None
    | _ :: _ =>
      let '(c, width) := utf8.DecodeRune (skipn i s) in
      let r := mapping c in
      if (r =? c) && negb (c =? utf8.RuneError) then mapScan fuel' s (i + width)
      else if (c =? utf8.RuneError) && negb (width =? 1)%nat && (r =? c)
      then mapScan fuel' s (i + width)
      else Some (firstn i s ++ writeRune r
                 ++ mapRest (len s) (skipn (i + width) s))
    end
  end.

(** [strings.Map(mapping, s)] *)
Definition Map (s : bytes) : bytes :=
  match mapScan (len s) s 0 with
  | Some b => b
  | None => s
  end.

End Mapping.

Section Lower.

Variable toLowerTable : Z -> Z.

Definition isUpper (c : ascii) : bool := (65 <=? b2z c) && (b2z c <=? 90).

Definition lowerByte (c : ascii) : ascii :=
  if isUpper c then z2b (b2z c + 32) else c.

(** [strings.ToLower(s)]: a string of ASCII bytes is returned as it is
    when it has no upper case letter, and with its upper case letters
    replaced otherwise; any other string is mapped rune by rune. *)
Definition ToLower (s : bytes) : bytes :=
  if forallb (fun c => b2z c <? utf8.RuneSelf) s then
    if existsb isUpper s then map lowerByte s else s
  else Map (unicode.ToLower toLowerTable) s.

End Lower.

End stringsMap.

Definition DebugTermModeHex : bytes := str "hex".
Definition DebugTermModeDecode : bytes := str "decode".

Section Mode.

Variable isPrintTable : Z -> bool.
Variable toLowerTable : Z -> Z.

(** [getDebugTermMode()], [debugTermMode] being the value of the flag:
    the mode, and the message of the error or [None]. *)
Definition getDebugTermMode (debugTermMode : bytes) : bytes * option bytes :=
  let mode := stringsMap.ToLower toLowerTable debugTermMode in
  if negb (bytes_eqb mode DebugTermModeHex)
     && negb (bytes_eqb mode DebugTermModeDecode)
  then ([], Some (str "invalid mode " ++ strconv.Quote isPrintTable debugTermMode
                  ++ str " (expected "
                  ++ strconv.Quote isPrintTable DebugTermModeHex
                  ++ str " or "
                  ++ strconv.Quote isPrintTable DebugTermModeDecode
                  ++ str ")"))
  else (mode, None).

End Mode.

(** Two strings of the same letters, whatever their case. *)
Definition sameLetters (a b : bytes) : bool :=
  bytes_eqb (map stringsMap.lowerByte a) (map stringsMap.lowerByte b).

(** A token at which the pending text is flushed: every token but a
    text and a cursor-forward sequence that is read as such. *)
Definition flushes (t : token) : Prop :=
  match t with
  | Text _ => False
  | CSI seq =>
    match parseCursorForwardN seq with
    | Ok (_, true) => False
    | _ => True
    end
  | _ => True
  end.

(** The report of a list of lines: every line and a line feed. *)
Definition reportOf (ls : list bytes) : bytes :=
  flat_map (fun l => l ++ [LF]) ls.

(** A state with the lines [ls] before its own. *)
Definition withLines (ls : list bytes) (st : dstate) : dstate :=
  {| lines := ls ++ lines st;
     textBuf := textBuf st;
     totalCSpaces := totalCSpaces st |}.

Definition emptyState : dstate :=
  {| lines := []; textBuf := []; totalCSpaces := 0 |}.

(** The parts of the line of a CSI sequence: the parameters after a
    space, when there are some, and the description after two slashes,
    when there is one. *)
Definition csiParams (params : bytes) : bytes :=
  if bytes_eqb params [] then [] else str " " ++ params.

Definition csiComment (desc : option bytes) : bytes :=
  match desc with
  | Some d => str " // " ++ d
  | None => []
  end.

(** A comment with a description that starts with a final byte. *)
Definition headed (x : bytes) : Prop :=
  x = [] \/ exists c t, x = str " // " ++ c :: t /\ isFinalByte c = true.


(** * Properties *)

Unset Implicit Arguments.

(** ** Bytes, indices and slices *)

Lemma bytes_eqb_eq (a b : bytes) : bytes_eqb a b = true <-> a = b.
Proof.
  unfold bytes_eqb. destruct (list_eq_dec ascii_dec a b); split; congruence.
Qed.

Lemma bytes_eqb_refl (a : bytes) : bytes_eqb a a = true.
Proof. now apply bytes_eqb_eq. Qed.

Lemma bytes_eqb_neq (a b : bytes) : bytes_eqb a b = false <-> a <> b.
Proof.
  unfold bytes_eqb. destruct (list_eq_dec ascii_dec a b); split; congruence.
Qed.

Lemma b2z_range (b : ascii) : 0 <= b2z b < 256.
Proof.
  unfold b2z. pose proof (N_ascii_bounded b). lia.
Qed.

Lemma index_Ok {A : Type} (data : list A) (i : nat) (b : A) :
  index data i = Ok b <-> nth_error data i = Some b.
Proof.
  unfold index. destruct (nth_error data i); split; congruence.
Qed.

Lemma index_lt {A : Type} (data : list A) (i : nat) :
  (i < List.length data)%nat -> exists b, index data i = Ok b.
Proof.
  intros H. unfold index. destruct (nth_error data i) eqn:E; eauto.
  apply nth_error_None in E. lia.
Qed.

Lemma index_skipn (data : bytes) (i : nat) (b : ascii) :
  index data i = Ok b -> exists rest, skipn i data = b :: rest.
Proof.
  rewrite index_Ok. revert data. induction i as [|i IH]; intros [|c data]; simpl; try discriminate.
  - intros [= ->]. eauto.
  - apply IH.
Qed.

Lemma skipn_cons_index (data : bytes) (i : nat) (b : ascii) (rest : bytes) :
  skipn i data = b :: rest ->
  index data i = Ok b /\ (i < len data)%nat /\ skipn (S i) data = rest.
Proof.
  revert data. induction i as [|i IH]; intros [|c data]; simpl; try discriminate.
  - intros [= -> ->]. repeat split. lia.
  - intros H. destruct (IH _ H) as (H1 & H2 & H3). repeat split; auto.
    unfold len in *. simpl. lia.
Qed.

Lemma slice_Ok (data : bytes) (lo hi : nat) :
  (lo <= hi <= len data)%nat ->
  slice data lo hi = Ok (firstn (hi - lo) (skipn lo data)).
Proof.
  intros [H1 H2]. unfold slice.
  apply Nat.leb_le in H1. apply Nat.leb_le in H2. now rewrite H1, H2.
Qed.

Lemma sliceFrom_Ok (data : bytes) (lo : nat) :
  (lo <= len data)%nat -> sliceFrom data lo = Ok (skipn lo data).
Proof.
  intros H. unfold sliceFrom. rewrite slice_Ok by lia.
  f_equal. apply firstn_all2. unfold len. rewrite length_skipn. lia.
Qed.

Lemma firstn_skipn_split (data : bytes) (i e : nat) :
  (i <= e)%nat ->
  skipn i data = firstn (e - i) (skipn i data) ++ skipn e data.
Proof.
  intros H. rewrite <- (firstn_skipn (e - i) (skipn i data)) at 1.
  f_equal. rewrite skipn_skipn. f_equal. lia.
Qed.

(** ** The width of a rune *)

Lemma DecodeRune_width (p : bytes) :
  p <> [] ->
  (1 <= snd (utf8.DecodeRune p) <= len p)%nat.
Proof.
  destruct p as [|c0 p1]; [congruence|]. intros _.
  unfold utf8.DecodeRune, len.
  repeat match goal with
  | |- context [if ?c then _ else _] => destruct c
  | |- context [let '(_, _) := ?x in _] => destruct x
  | |- context [match ?l with [] => _ | _ :: _ => _ end] => destruct l
  end; simpl; lia.
Qed.

Lemma DecodeRune_ascii (c : ascii) (p : bytes) :
  b2z c < 0x80 -> utf8.DecodeRune (c :: p) = (b2z c, 1%nat).
Proof.
  intros H. unfold utf8.DecodeRune, utf8.first.
  replace (b2z c <? 128) with true by (symmetry; apply Z.ltb_lt; lia).
  reflexivity.
Qed.

(** ** The scanner consumes a span that starts at the index *)

Lemma csiLoop_bounds (rest : bytes) (i k : nat) :
  csiLoop rest i = Some k -> (i <= k < i + len rest)%nat.
Proof.
  revert i. induction rest as [|b rest IH]; intros i; simpl; [discriminate|].
  destruct ((64 <=? b2z b) && (b2z b <=? 126)).
  - intros [= <-]. unfold len; simpl; lia.
  - intros H. apply IH in H. unfold len in *; simpl; lia.
Qed.

Lemma oscLoop_bounds (rest : bytes) (i e : nat) :
  oscLoop rest i = Some e -> (i < e <= i + len rest)%nat.
Proof.
  revert i. induction rest as [|b rest IH]; intros i; simpl; [discriminate|].
  destruct (Ascii.eqb b BEL).
  - intros [= <-]. unfold len; simpl; lia.
  - destruct (Ascii.eqb b ESC); simpl.
    + destruct rest as [|c rest'].
      * simpl. discriminate.
      * destruct (Ascii.eqb c "\").
        -- intros [= <-]. unfold len; simpl; lia.
        -- intros H. apply IH in H. unfold len in *; simpl in *; lia.
    + intros H. apply IH in H. unfold len in *; simpl in *; lia.
Qed.

Lemma stLoop_bounds (rest : bytes) (i e : nat) :
  stLoop rest i = Some e -> (i < e <= i + len rest)%nat.
Proof.
  revert i. induction rest as [|b rest IH]; intros i; simpl; [discriminate|].
  destruct (Ascii.eqb b ESC); simpl.
  - destruct rest as [|c rest'].
    + simpl. discriminate.
    + destruct (Ascii.eqb c "\").
      * intros [= <-]. unfold len; simpl; lia.
      * intros H. apply IH in H. unfold len in *; simpl in *; lia.
  - intros H. apply IH in H. unfold len in *; simpl in *; lia.
Qed.

Lemma len_skipn (data : bytes) (n : nat) : len (skipn n data) = (len data - n)%nat.
Proof. unfold len. apply length_skipn. Qed.

Lemma consumeDebugTermCSI_span (data : bytes) (start : nat) :
  (start + 2 <= len data)%nat ->
  spanFrom data start (consumeDebugTermCSI data start).
Proof.
  intros H. unfold consumeDebugTermCSI, spanFrom.
  destruct (csiLoop _ _) as [k|] eqn:E.
  - apply csiLoop_bounds in E. rewrite len_skipn in E.
    exists (k + 1)%nat. rewrite slice_Ok by lia. simpl. split; [reflexivity | lia].
  - exists (len data). unfold sliceFrom. rewrite slice_Ok by lia. simpl.
    split; [reflexivity | lia].
Qed.

Lemma consumeDebugTermOSC_span (data : bytes) (start : nat) :
  (start + 2 <= len data)%nat ->
  spanFrom data start (consumeDebugTermOSC data start).
Proof.
  intros H. unfold consumeDebugTermOSC, spanFrom.
  destruct (oscLoop _ _) as [k|] eqn:E.
  - apply oscLoop_bounds in E. rewrite len_skipn in E.
    exists k. rewrite slice_Ok by lia. simpl. split; [reflexivity | lia].
  - exists (len data). unfold sliceFrom. rewrite slice_Ok by lia. simpl.
    split; [reflexivity | lia].
Qed.

Lemma consumeDebugTermST_span (data : bytes) (start : nat) :
  (start + 2 <= len data)%nat ->
  spanFrom data start (consumeDebugTermST data start).
Proof.
  intros H. unfold consumeDebugTermST, spanFrom.
  destruct (stLoop _ _) as [k|] eqn:E.
  - apply stLoop_bounds in E. rewrite len_skipn in E.
    exists k. rewrite slice_Ok by lia. simpl. split; [reflexivity | lia].
  - exists (len data). unfold sliceFrom. rewrite slice_Ok by lia. simpl.
    split; [reflexivity | lia].
Qed.

Lemma textLoop_bounds (fuel : nat) (data : bytes) (i : nat) :
  (i <= len data)%nat -> (i <= textLoop fuel data i <= len data)%nat.
Proof.
  revert i. induction fuel as [|fuel IH]; intros i Hi; simpl; [lia|].
  destruct (skipn i data) as [|b rest] eqn:E; [lia|].
  destruct (skipn_cons_index _ _ _ _ E) as (_ & Hlt & _).
  assert (HS : (S i <= textLoop fuel data (S i) <= len data)%nat) by (apply IH; lia).
  destruct (Ascii.eqb b ESC || Ascii.eqb b BEL); [lia|].
  destruct (Ascii.eqb b LF || Ascii.eqb b CR || Ascii.eqb b TAB); [lia|].
  destruct (isDebugTermC0Control b); [lia|].
  destruct (b2z b <? 128); [lia|].
  assert (W : (1 <= snd (utf8.DecodeRune (b :: rest)) <= len (b :: rest))%nat)
    by (apply DecodeRune_width; discriminate).
  assert (L : len (b :: rest) = (len data - i)%nat)
    by (rewrite <- E; apply len_skipn).
  rewrite L in W.
  destruct (utf8.DecodeRune (b :: rest)) as [r sz]. simpl in W.
  destruct (sz =? 1)%nat; [lia|].
  assert (i + sz <= len data)%nat by lia.
  specialize (IH (i + sz)%nat H). lia.
Qed.

(** The loop of [consumeDebugTermText] has come to its end within
    [len(data) - i] iterations: more fuel does not change its result. *)
Lemma textLoop_fuel (fuel : nat) (data : bytes) (i : nat) :
  (len data - i <= fuel)%nat ->
  textLoop fuel data i = textLoop (len data - i) data i.
Proof.
  remember (len data - i)%nat as n eqn:Hn.
  revert i fuel Hn. induction n as [n IHn] using lt_wf_ind. intros i fuel Hn Hf.
  destruct (skipn i data) as [|b rest] eqn:E.
  - destruct fuel, n; simpl; rewrite ?E; reflexivity.
  - destruct (skipn_cons_index _ _ _ _ E) as (_ & Hlt & _).
    destruct n as [|n]; [lia|]. destruct fuel as [|fuel]; [lia|].
    simpl. rewrite E.
    assert (HS : textLoop fuel data (S i) = textLoop n data (S i)).
    { transitivity (textLoop (len data - S i) data (S i)).
      - apply IHn; lia.
      - symmetry. apply IHn; lia. }
    destruct (Ascii.eqb b ESC || Ascii.eqb b BEL); [reflexivity|].
    destruct (Ascii.eqb b LF || Ascii.eqb b CR || Ascii.eqb b TAB); [exact HS|].
    destruct (isDebugTermC0Control b); [reflexivity|].
    destruct (b2z b <? 128); [exact HS|].
    assert (W : (1 <= snd (utf8.DecodeRune (b :: rest)) <= len (b :: rest))%nat)
      by (apply DecodeRune_width; discriminate).
    assert (L : len (b :: rest) = (len data - i)%nat)
      by (rewrite <- E; apply len_skipn).
    rewrite L in W.
    destruct (utf8.DecodeRune (b :: rest)) as [r sz]. simpl in W.
    destruct (sz =? 1)%nat; [reflexivity|].
    transitivity (textLoop (len data - (i + sz)) data (i + sz)).
    + apply IHn; lia.
    + symmetry. apply IHn; lia.
Qed.

(** Every token consumes a span of one byte or more that starts at the
    index, and the scanner does not panic. *)
Lemma scanToken_span (data : bytes) (i : nat) :
  (i < len data)%nat ->
  exists t e, scanToken data i = Ok (t, e)
              /\ (i < e <= len data)%nat
              /\ raw t = firstn (e - i) (skipn i data).
Proof.
  intros Hi. unfold scanToken.
  destruct (index_lt data i Hi) as [b Hb]. rewrite Hb. simpl.
  destruct (index_skipn _ _ _ Hb) as [rest Hrest].
  assert (One : firstn (S i - i) (skipn i data) = [b]).
  { rewrite Hrest. replace (S i - i)%nat with 1%nat by lia. reflexivity. }
  destruct (Ascii.eqb b ESC) eqn:Eesc.
  - destruct (len data <=? i + 1)%nat eqn:Elast.
    + exists (BareEscape [b]), (S i). repeat split; try lia. cbn [raw]. now rewrite One.
    + apply Nat.leb_gt in Elast.
      assert (Hi1 : (i + 1 < len data)%nat) by lia.
      destruct (index_lt data (i + 1) Hi1) as [next Hn]. rewrite Hn. simpl.
      assert (H2 : (i + 2 <= len data)%nat) by lia.
      pose proof (consumeDebugTermCSI_span data i H2) as (e1 & E1 & B1).
      pose proof (consumeDebugTermOSC_span data i H2) as (e2 & E2 & B2).
      pose proof (consumeDebugTermST_span data i H2) as (e3 & E3 & B3).
      destruct (Ascii.eqb next "[");
        [rewrite E1; simpl; eexists _, _; repeat split; first [reflexivity | lia]|].
      destruct (Ascii.eqb next "]");
        [rewrite E2; simpl; eexists _, _; repeat split; first [reflexivity | lia]|].
      destruct (Ascii.eqb next "P");
        [rewrite E3; simpl; eexists _, _; repeat split; first [reflexivity | lia]|].
      destruct (Ascii.eqb next "^");
        [rewrite E3; simpl; eexists _, _; repeat split; first [reflexivity | lia]|].
      destruct (Ascii.eqb next "_");
        [rewrite E3; simpl; eexists _, _; repeat split; first [reflexivity | lia]|].
      rewrite slice_Ok by lia. simpl.
      eexists _, _; repeat split; first [reflexivity | lia].
  - destruct (Ascii.eqb b BEL) eqn:Ebel.
    + apply Ascii.eqb_eq in Ebel. subst b.
      exists Bell, (S i). repeat split; try lia. cbn [raw]. now rewrite One.
    + unfold consumeDebugTermText.
      pose proof (textLoop_bounds (len data - i) data i ltac:(lia)) as Bt.
      destruct (i <? textLoop (len data - i) data i)%nat eqn:Elt.
      * apply Nat.ltb_lt in Elt. rewrite slice_Ok by lia. simpl.
        eexists _, _; repeat split; first [reflexivity | lia].
      * exists (ControlByte b), (S i). repeat split; try lia. cbn [raw]. now rewrite One.
Qed.

Lemma scanLoop_cover (fuel : nat) (data : bytes) (i : nat) :
  (len data - i <= fuel)%nat -> (i <= len data)%nat ->
  exists toks, scanLoop fuel data i = Ok toks
               /\ List.concat (map raw toks) = skipn i data.
Proof.
  revert i. induction fuel as [|fuel IH]; intros i Hf Hi.
  - assert (i = len data) by lia. subst i. simpl.
    rewrite Nat.leb_refl. exists []. split; [reflexivity|].
    simpl. symmetry. apply skipn_all.
  - simpl. destruct (len data <=? i)%nat eqn:E.
    + apply Nat.leb_le in E. exists []. split; [reflexivity|].
      simpl. symmetry. apply skipn_all2. exact E.
    + apply Nat.leb_gt in E.
      destruct (scanToken_span data i E) as (t & e & Ht & Hb & Hraw).
      rewrite Ht. simpl.
      destruct (IH e ltac:(lia) ltac:(lia)) as (ts & Hts & Hc).
      rewrite Hts. simpl. exists (t :: ts). split; [reflexivity|].
      simpl. rewrite Hraw, Hc. symmetry. apply firstn_skipn_split. lia.
Qed.

(** C2.  For every buffer [B] the scanner gives a list of tokens, and the
    spans that the tokens consumed (text runs, control bytes, BEL, bare
    escapes, and the CSI, OSC, DCS, PM and APC spans that the consume
    functions return), concatenated in the order of emission, are [B]:
    no byte is duplicated, dropped or reordered. *)
Theorem scan_spans_cover_buffer (B : bytes) :
  exists toks, scan B = Ok toks /\ List.concat (map raw toks) = B.
Proof.
  unfold scan.
  destruct (scanLoop_cover (len B) B 0 ltac:(lia) ltac:(lia)) as (ts & H1 & H2).
  exists ts. split; [exact H1 | exact H2].
Qed.

(** ** The formatter routes the tokens of the scanner *)

Section DecoderProperties.

Variable isPrintTable : Z -> bool.

Lemma decodeStep_route (data : bytes) (i : nat) (st : dstate) :
  decodeStep isPrintTable data i st =
  ('(t, e) <- scanToken data i ;;
   st' <- route isPrintTable t st ;;
   Ok (e, st')).
Proof.
  unfold decodeStep, scanToken.
  destruct (index data i) as [b| |]; simpl; try reflexivity.
  destruct (Ascii.eqb b ESC).
  - destruct (len data <=? i + 1)%nat; [reflexivity|].
    destruct (index data (i + 1)) as [next| |]; simpl; try reflexivity.
    destruct (Ascii.eqb next "[").
    { destruct (consumeDebugTermCSI data i) as [[seq e]| |]; simpl; try reflexivity.
      destruct (parseCursorForwardN seq) as [[n ok]| |]; simpl; try reflexivity.
      destruct ok; simpl.
      - destruct (strings.Repeat _ n); reflexivity.
      - destruct (formatDebugTermCSILine seq); reflexivity. }
    destruct (Ascii.eqb next "]").
    { destruct (consumeDebugTermOSC data i) as [[seq e]| |]; simpl; try reflexivity.
      destruct (formatDebugTermOSCLine seq); reflexivity. }
    destruct (Ascii.eqb next "P");
      [destruct (consumeDebugTermST data i) as [[seq e]| |]; reflexivity|].
    destruct (Ascii.eqb next "^");
      [destruct (consumeDebugTermST data i) as [[seq e]| |]; reflexivity|].
    destruct (Ascii.eqb next "_");
      [destruct (consumeDebugTermST data i) as [[seq e]| |]; reflexivity|].
    unfold slice.
    destruct ((i <=? i + 2)%nat && (i + 2 <=? len data)%nat) eqn:E; [|reflexivity].
    simpl. apply andb_prop in E. destruct E as [_ E]. apply Nat.leb_le in E.
    assert (L : len (firstn (i + 2 - i) (skipn i data)) = 2%nat).
    { unfold len. rewrite length_firstn, length_skipn. unfold len in E. lia. }
    rewrite L. reflexivity.
  - destruct (Ascii.eqb b BEL); [reflexivity|].
    unfold consumeDebugTermText.
    destruct (i <? textLoop (len data - i) data i)%nat; [|reflexivity].
    destruct (slice data i (textLoop (len data - i) data i)); reflexivity.
Qed.

(** A prefix of the tokens is routed before the scan loop can fail;
    as the scanner does not fail, the decode loop is the routing of the
    tokens. *)
Lemma decodeLoop_routeAll (fuel : nat) (data : bytes) (i : nat) (st : dstate) :
  (len data - i <= fuel)%nat -> (i <= len data)%nat ->
  exists toks, scanLoop fuel data i = Ok toks
               /\ decodeLoop isPrintTable fuel data i st = routeAll isPrintTable toks st.
Proof.
  revert i st. induction fuel as [|fuel IH]; intros i st Hf Hi.
  - assert (i = len data) by lia. subst i. simpl.
    rewrite Nat.leb_refl. exists []. split; reflexivity.
  - simpl. destruct (len data <=? i)%nat eqn:E.
    + exists []. split; reflexivity.
    + apply Nat.leb_gt in E.
      rewrite decodeStep_route.
      destruct (scanToken_span data i E) as (t & e & Ht & Hb & Hraw).
      rewrite Ht. simpl.
      destruct (route isPrintTable t st) as [st'| |] eqn:R; simpl.
      * destruct (IH e st' ltac:(lia) ltac:(lia)) as (ts & Hts & Hd).
        rewrite Hts. simpl. exists (t :: ts). split; [reflexivity|].
        simpl. rewrite R. simpl. exact Hd.
      * destruct (IH e st ltac:(lia) ltac:(lia)) as (ts & Hts & Hd).
        rewrite Hts. simpl. exists (t :: ts). split; [reflexivity|].
        simpl. rewrite R. reflexivity.
      * destruct (IH e st ltac:(lia) ltac:(lia)) as (ts & Hts & Hd).
        rewrite Hts. simpl. exists (t :: ts). split; [reflexivity|].
        simpl. rewrite R. reflexivity.
Qed.

End DecoderProperties.

(** ** The SGR describer *)

Lemma Split_nonempty (s : bytes) (sep : ascii) : strings.Split s sep <> [].
Proof.
  destruct s as [|c s]; simpl; [discriminate|].
  destruct (Ascii.eqb c sep); [discriminate|].
  destruct (strings.Split s sep); discriminate.
Qed.

Lemma sgr_lookup_exact (n : Z) :
  In n sgrExactCodes ->
  exists d, lookup Z.eqb sgrSingleDescriptions n = Some d.
Proof.
  unfold sgrExactCodes. simpl. intros H.
  repeat (destruct H as [<- | H]; [eexists; reflexivity|]). contradiction.
Qed.

Lemma sgr_lookup_other (n : Z) :
  ~ In n sgrExactCodes -> lookup Z.eqb sgrSingleDescriptions n = None.
Proof.
  intros H. unfold sgrSingleDescriptions. cbn [lookup].
  repeat match goal with
  | |- context [Z.eqb ?k n] =>
    destruct (Z.eqb_spec k n) as [Heq|Hne];
    [exfalso; apply H; rewrite <- Heq; unfold sgrExactCodes; simpl; tauto
    |clear Hne]
  end.
  reflexivity.
Qed.

Lemma index_nth (parts : list bytes) (k : nat) :
  (k < List.length parts)%nat -> index parts k = Ok (nth k parts []).
Proof.
  intros H. apply index_Ok. apply nth_error_nth'. exact H.
Qed.

Lemma sgrShape_spec (parts : list bytes) (lenOk : bool) (a b : bytes) :
  (lenOk = true -> 2 <= List.length parts)%nat ->
  sgrShape parts lenOk a b
  = Ok (lenOk && bytes_eqb (nth 0 parts []) a && bytes_eqb (nth 1 parts []) b).
Proof.
  intros H. unfold sgrShape, andr. destruct lenOk; [|reflexivity].
  specialize (H eq_refl). rewrite !index_nth by lia. simpl.
  destruct (bytes_eqb (nth 0 parts []) a); reflexivity.
Qed.

Theorem describeSGR_cases (params : bytes) :
  let parts := strings.Split params ";" in
  let p := fun k => nth k parts [] in
  (params = [] -> describeSGR params = Ok (str "reset all"))
  /\ (params <> [] -> (5 <= List.length parts)%nat -> startsWith parts "38" "2" ->
      describeSGR params =
      Ok (str "fg rgb(" ++ p 2%nat ++ str "," ++ p 3%nat ++ str ","
          ++ p 4%nat ++ str ")"))
  /\ (params <> [] -> (5 <= List.length parts)%nat -> startsWith parts "48" "2" ->
      describeSGR params =
      Ok (str "bg rgb(" ++ p 2%nat ++ str "," ++ p 3%nat ++ str ","
          ++ p 4%nat ++ str ")"))
  /\ (params <> [] -> List.length parts = 3%nat -> startsWith parts "38" "5" ->
      describeSGR params = Ok (str "fg color256(" ++ p 2%nat ++ str ")"))
  /\ (params <> [] -> List.length parts = 3%nat -> startsWith parts "48" "5" ->
      describeSGR params = Ok (str "bg color256(" ++ p 2%nat ++ str ")"))
  /\ (params <> [] -> List.length parts = 1%nat ->
      forall n, strconv.Atoi (p 0%nat) = Some n ->
      (In n sgrExactCodes ->
       exists d, lookup Z.eqb sgrSingleDescriptions n = Some d
                 /\ describeSGR params = Ok d)
      /\ (~ In n sgrExactCodes -> inRange 30 37 n ->
          describeSGR params
          = Ok (str "fg ansi color " ++ strconv.Itoa (n - 30)))
      /\ (~ In n sgrExactCodes -> inRange 40 47 n ->
          describeSGR params
          = Ok (str "bg ansi color " ++ strconv.Itoa (n - 40)))
      /\ (~ In n sgrExactCodes -> inRange 90 97 n ->
          describeSGR params
          = Ok (str "fg bright color " ++ strconv.Itoa (n - 90)))
      /\ (~ In n sgrExactCodes -> inRange 100 107 n ->
          describeSGR params
          = Ok (str "bg bright color " ++ strconv.Itoa (n - 100)))
      /\ (~ In n sgrExactCodes -> ~ inRange 30 37 n -> ~ inRange 40 47 n ->
          ~ inRange 90 97 n -> ~ inRange 100 107 n ->
          describeSGR params = Ok []))
  /\ (params <> [] -> List.length parts = 1%nat ->
      strconv.Atoi (p 0%nat) = None -> describeSGR params = Ok [])
  /\ (params <> [] -> List.length parts <> 1%nat ->
      ~ ((5 <= List.length parts)%nat /\ (startsWith parts "38" "2" \/ startsWith parts "48" "2")) ->
      ~ (List.length parts = 3%nat /\ (startsWith parts "38" "5" \/ startsWith parts "48" "5")) ->
      describeSGR params = Ok []).
Proof.
  intros parts p. unfold describeSGR.
  destruct (bytes_eqb params []) eqn:E0.
  { apply bytes_eqb_eq in E0. repeat split; try congruence; intros; congruence. }
  apply bytes_eqb_neq in E0. fold parts.
  assert (Hne : parts <> []) by apply Split_nonempty.
  assert (Hlen : (1 <= List.length parts)%nat)
    by (destruct parts; [congruence | simpl; lia]).
  rewrite !sgrShape_spec
    by (intros HH; first [apply Nat.leb_le in HH | apply Nat.eqb_eq in HH]; lia).
  unfold startsWith. fold (p 0%nat) (p 1%nat).
  assert (T : forall (x : bytes) (a : string), x = str a -> bytes_eqb x (str a) = true)
    by (intros; now apply bytes_eqb_eq).
  assert (F : forall (x : bytes) (a b : string),
             str a <> str b -> x = str a -> bytes_eqb x (str b) = false)
    by (intros x a b N E; apply bytes_eqb_neq; congruence).
  assert (N1 : str "38" <> str "48") by (vm_compute; discriminate).
  assert (N2 : str "48" <> str "38") by (vm_compute; discriminate).
  assert (N3 : str "2" <> str "5") by (vm_compute; discriminate).
  assert (N4 : str "5" <> str "2") by (vm_compute; discriminate).
  split; [congruence|].
  split.
  { intros _ L5 [A B]. apply Nat.leb_le in L5.
    rewrite L5, (T _ _ A), (T _ _ B). cbn [andb bind].
    apply Nat.leb_le in L5. rewrite !index_nth by lia. reflexivity. }
  split.
  { intros _ L5 [A B]. apply Nat.leb_le in L5.
    rewrite L5, (T _ _ A), (T _ _ B), (F _ _ _ N2 A). cbn [andb bind].
    apply Nat.leb_le in L5. rewrite !index_nth by lia. reflexivity. }
  split.
  { intros _ L3 [A B].
    replace (5 <=? List.length parts)%nat with false
      by (symmetry; apply Nat.leb_gt; lia).
    rewrite L3, (T _ _ A), (T _ _ B). cbn [andb bind Nat.eqb].
    rewrite !index_nth by lia. reflexivity. }
  split.
  { intros _ L3 [A B].
    replace (5 <=? List.length parts)%nat with false
      by (symmetry; apply Nat.leb_gt; lia).
    rewrite L3, (T _ _ A), (T _ _ B), (F _ _ _ N2 A). cbn [andb bind Nat.eqb].
    rewrite !index_nth by lia. reflexivity. }
  split.
  { intros _ L1 n At.
    replace (5 <=? List.length parts)%nat with false
      by (symmetry; apply Nat.leb_gt; lia).
    rewrite L1. cbn [andb bind Nat.eqb negb].
    rewrite index_nth by lia. cbn [bind]. fold (p 0%nat). rewrite At.
    split.
    { intros I. destruct (sgr_lookup_exact n I) as [d Hd]. exists d.
      rewrite Hd. split; reflexivity. }
    unfold inRange.
    repeat split; intros NI; rewrite (sgr_lookup_other n NI); intros;
      repeat match goal with
      | |- context [Z.leb ?a ?b] =>
        destruct (Z.leb_spec a b); try (exfalso; lia); cbn [andb]
      end; reflexivity. }
  split.
  { intros _ L1 At.
    replace (5 <=? List.length parts)%nat with false
      by (symmetry; apply Nat.leb_gt; lia).
    rewrite L1. cbn [andb bind Nat.eqb negb].
    rewrite index_nth by lia. cbn [bind]. fold (p 0%nat). rewrite At.
    reflexivity. }
  intros _ L1 H5 H3.
  destruct (5 <=? List.length parts)%nat eqn:L5;
    [apply Nat.leb_le in L5 | apply Nat.leb_gt in L5].
  - replace (List.length parts =? 3)%nat with false
      by (symmetry; apply Nat.eqb_neq; lia).
    replace (List.length parts =? 1)%nat with false
      by (symmetry; apply Nat.eqb_neq; lia).
    destruct (bytes_eqb (p 0%nat) (str "38")) eqn:E38;
    destruct (bytes_eqb (p 0%nat) (str "48")) eqn:E48;
    destruct (bytes_eqb (p 1%nat) (str "2")) eqn:E2;
    rewrite ?bytes_eqb_eq in *; cbn [andb bind negb]; try reflexivity;
    exfalso; apply H5; tauto.
  - replace (List.length parts =? 1)%nat with false
      by (symmetry; apply Nat.eqb_neq; lia).
    destruct (List.length parts =? 3)%nat eqn:L3;
      [apply Nat.eqb_eq in L3 | cbn [andb bind negb]; reflexivity].
    destruct (bytes_eqb (p 0%nat) (str "38")) eqn:E38;
    destruct (bytes_eqb (p 0%nat) (str "48")) eqn:E48;
    destruct (bytes_eqb (p 1%nat) (str "5")) eqn:E5;
    rewrite ?bytes_eqb_eq in *; cbn [andb bind negb]; try reflexivity;
    exfalso; apply H3; tauto.
Qed.

Lemma describeSGR_cases_witness :
  describeSGR (str "1;99") = Ok []
  /\ describeSGR (str "48;2;10;20;30")
     = Ok (str "bg rgb(" ++ str "10" ++ str "," ++ str "20" ++ str ","
           ++ str "30" ++ str ")")
  /\ describeSGR (str "+31") = Ok (str "fg ansi color " ++ strconv.Itoa (31 - 30)).
Proof.
  split; [|split].
  - destruct (describeSGR_cases (str "1;99")) as (_ & _ & _ & _ & _ & _ & _ & H).
    apply H.
    + discriminate.
    + vm_compute. discriminate.
    + intros [L _]. vm_compute in L. lia.
    + intros [L _]. vm_compute in L. discriminate.
  - destruct (describeSGR_cases (str "48;2;10;20;30")) as (_ & _ & H & _).
    apply H.
    + discriminate.
    + vm_compute. reflexivity.
    + split; reflexivity.
  - destruct (describeSGR_cases (str "+31")) as (_ & _ & _ & _ & _ & H & _).
    destruct (H ltac:(discriminate) eq_refl 31 eq_refl) as (_ & H1 & _).
    apply H1.
    + vm_compute. intuition discriminate.
    + unfold inRange. split; discriminate.
Defined.

Lemma describeSGR_total (params : bytes) : exists d, describeSGR params = Ok d.
Proof.
  unfold describeSGR.
  destruct (bytes_eqb params []); [eauto|].
  set (parts := strings.Split params ";").
  assert (Hne : parts <> []) by apply Split_nonempty.
  assert (Hlen : (1 <= List.length parts)%nat)
    by (destruct parts; [congruence | simpl; lia]).
  rewrite !sgrShape_spec
    by (intros HH; first [apply Nat.leb_le in HH | apply Nat.eqb_eq in HH]; lia).
  destruct (5 <=? List.length parts)%nat eqn:L5;
    [apply Nat.leb_le in L5 | apply Nat.leb_gt in L5].
  - replace (List.length parts =? 3)%nat with false
      by (symmetry; apply Nat.eqb_neq; lia).
    replace (List.length parts =? 1)%nat with false
      by (symmetry; apply Nat.eqb_neq; lia).
    destruct (bytes_eqb (nth 0 parts []) (str "38"));
    destruct (bytes_eqb (nth 0 parts []) (str "48"));
    destruct (bytes_eqb (nth 1 parts []) (str "2"));
    cbn [andb bind negb]; rewrite ?index_nth by lia; cbn [bind]; eauto.
  - destruct (List.length parts =? 3)%nat eqn:L3;
      [apply Nat.eqb_eq in L3 | apply Nat.eqb_neq in L3].
    + destruct (bytes_eqb (nth 0 parts []) (str "38"));
      destruct (bytes_eqb (nth 0 parts []) (str "48"));
      destruct (bytes_eqb (nth 1 parts []) (str "5"));
      cbn [andb bind negb]; rewrite ?index_nth by lia; cbn [bind];
      rewrite ?L3; cbn [Nat.eqb negb]; eauto.
    + cbn [andb bind].
      destruct (List.length parts =? 1)%nat; cbn [negb]; [|eauto].
      rewrite index_nth by lia. cbn [bind].
      destruct (strconv.Atoi _) as [n|]; [|eauto].
      destruct (lookup _ _ _); [eauto|].
      repeat match goal with
      | |- context [if ?c then _ else _] => destruct c
      end; eauto.
Qed.

(** ** CSI sequences without a final byte *)

Lemma csiLoop_none (rest : bytes) (i : nat) :
  Forall (fun b => isFinalByte b = false) rest -> csiLoop rest i = None.
Proof.
  intros H. revert i. induction H as [|b rest Hb _ IH]; intros i; simpl.
  - reflexivity.
  - unfold isFinalByte in Hb. rewrite Hb. apply IH.
Qed.

Lemma csiCommandDescriptions_final (f : ascii) :
  isFinalByte f = false -> lookup Ascii.eqb csiCommandDescriptions f = None.
Proof.
  intros H. unfold csiCommandDescriptions. cbn [lookup].
  repeat match goal with
  | |- context [Ascii.eqb ?k f] =>
    destruct (Ascii.eqb_spec k f) as [Heq|Hne];
    [rewrite <- Heq in H; vm_compute in H; discriminate | clear Hne]
  end.
  reflexivity.
Qed.

Lemma skipn_two (data : bytes) (i : nat) (a b : ascii) :
  nth_error data i = Some a -> nth_error data (i + 1) = Some b ->
  skipn i data = a :: b :: skipn (i + 2) data.
Proof.
  revert data. induction i as [|i IH]; intros [|c data]; simpl; try discriminate.
  - intros [= ->]. destruct data as [|d data]; simpl; [discriminate|].
    intros [= ->]. reflexivity.
  - apply IH.
Qed.

(** The line of a CSI span whose last byte [f] is not a final byte:
    the last byte stands where the final byte stands. *)
Lemma formatDebugTermCSILine_no_final (a b f : ascii) (params : bytes) :
  isFinalByte f = false ->
  formatDebugTermCSILine (a :: b :: params ++ [f])
  = Ok (str "CSI " ++ [f]
        ++ (if bytes_eqb params [] then [] else str " " ++ params)).
Proof.
  intros Hf. unfold formatDebugTermCSILine.
  assert (L : len (a :: b :: params ++ [f]) = (len params + 3)%nat).
  { unfold len. simpl. rewrite length_app. simpl. lia. }
  replace (len (a :: b :: params ++ [f]) <? 3)%nat with false
    by (symmetry; apply Nat.ltb_ge; lia).
  rewrite sliceFrom_Ok by lia. cbn [bind skipn].
  assert (L2 : len (params ++ [f]) = (len params + 1)%nat).
  { unfold len. rewrite length_app. simpl. lia. }
  replace (index (params ++ [f]) (len (params ++ [f]) - 1)) with (Ok f).
  2:{ symmetry. apply index_Ok. rewrite L2.
      replace (len params + 1 - 1)%nat with (List.length params + 0)%nat
        by (unfold len; lia).
      rewrite nth_error_app2 by lia.
      replace (List.length params + 0 - List.length params)%nat with 0%nat by lia.
      reflexivity. }
  cbn [bind]. rewrite slice_Ok by lia. cbn [bind skipn].
  replace (firstn (len (params ++ [f]) - 1 - 0) (params ++ [f])) with params.
  2:{ rewrite L2. replace (len params + 1 - 1 - 0)%nat with (List.length params + 0)%nat
        by (unfold len; lia).
      rewrite firstn_app_2. simpl. now rewrite app_nil_r. }
  assert (Hh : Ascii.eqb f "h" = false).
  { destruct (Ascii.eqb_spec f "h"); [subst; vm_compute in Hf; discriminate|reflexivity]. }
  assert (Hl : Ascii.eqb f "l" = false).
  { destruct (Ascii.eqb_spec f "l"); [subst; vm_compute in Hf; discriminate|reflexivity]. }
  assert (Hm : Ascii.eqb f "m" = false).
  { destruct (Ascii.eqb_spec f "m"); [subst; vm_compute in Hf; discriminate|reflexivity]. }
  rewrite Hh, Hl, Hm. cbn [orb]. rewrite andb_false_r.
  rewrite (csiCommandDescriptions_final f Hf).
  destruct (bytes_eqb params []); reflexivity.
Qed.

(** C4, as the code has it.  A CSI sequence at [i] with no byte of
    0x40..0x7e before the end of the buffer has the rest of the buffer
    as its raw span.  Its line is the opaque [CSI] with the quoted span
    when the span is [ESC [] alone; otherwise the last byte of the span
    stands as the final byte and the bytes before it as the parameters,
    and the line has no description. *)
Theorem unterminated_csi_line (data : bytes) (i : nat) :
  nth_error data i = Some ESC ->
  nth_error data (i + 1) = Some "["%char ->
  Forall (fun b => isFinalByte b = false) (skipn (i + 2) data) ->
  scanToken data i = Ok (CSI (skipn i data), len data)
  /\ consumeDebugTermCSI data i = Ok (skipn i data, len data)
  /\ (len data = (i + 2)%nat ->
      formatDebugTermCSILine (skipn i data) = Ok (opaqueCSILine (skipn i data)))
  /\ (forall (params : bytes) (f : ascii),
      skipn (i + 2) data = params ++ [f] ->
      formatDebugTermCSILine (skipn i data)
      = Ok (str "CSI " ++ [f]
            ++ (if bytes_eqb params [] then [] else str " " ++ params))).
Proof.
  intros H0 H1 Hno.
  assert (Hlen : (i + 2 <= len data)%nat).
  { assert (i + 1 < List.length data)%nat by (apply nth_error_Some; congruence).
    unfold len. lia. }
  assert (Hc : consumeDebugTermCSI data i = Ok (skipn i data, len data)).
  { unfold consumeDebugTermCSI. rewrite (csiLoop_none _ _ Hno).
    rewrite sliceFrom_Ok by lia. reflexivity. }
  pose proof (skipn_two data i _ _ H0 H1) as Hsk.
  split; [|split; [exact Hc|split]].
  - unfold scanToken. apply index_Ok in H0, H1. rewrite H0. cbn [bind].
    rewrite Ascii.eqb_refl.
    replace (len data <=? i + 1)%nat with false
      by (symmetry; apply Nat.leb_gt; lia).
    rewrite H1. cbn [bind]. rewrite Ascii.eqb_refl. rewrite Hc. reflexivity.
  - intros E. rewrite Hsk.
    assert (Z0 : skipn (i + 2) data = []).
    { apply skipn_all2. unfold len in E. lia. }
    rewrite Z0. reflexivity.
  - intros params f E. rewrite Hsk, E.
    apply formatDebugTermCSILine_no_final.
    rewrite E in Hno. apply Forall_app in Hno. destruct Hno as [_ Hf].
    now inversion Hf.
Qed.

(** C4, as the design document states it, fails on the buffer
    [ESC [ 3 1]: no byte of the span is a final byte, and the line is
    [CSI 1 3], the last byte of the span standing as the final byte,
    not the opaque CSI. *)
Lemma unterminated_csi_promotes_last_byte :
  let data := ESC :: str "[31" in
  Forall (fun b => isFinalByte b = false) (skipn 2 data)
  /\ consumeDebugTermCSI data 0 = Ok (data, len data)
  /\ formatDebugTermCSILine data = Ok (str "CSI 1 3")
  /\ formatDebugTermCSILine data <> Ok (opaqueCSILine data).
Proof.
  cbv zeta. repeat split.
  - repeat constructor.
  - vm_compute. discriminate.
Qed.

Lemma unterminated_csi_line_witness :
  let data := str "ab" ++ ESC :: str "[?25" in
  scanToken data 2 = Ok (CSI (skipn 2 data), len data)
  /\ formatDebugTermCSILine (skipn 2 data) = Ok (str "CSI 5 ?2").
Proof.
  cbv zeta.
  destruct (unterminated_csi_line (str "ab" ++ ESC :: str "[?25") 2)
    as (H1 & _ & _ & H4).
  - reflexivity.
  - reflexivity.
  - repeat constructor.
  - split; [exact H1|]. exact (H4 (str "?2") "5"%char eq_refl).
Defined.

(** ** OSC lines *)

Lemma HasSuffix_app (s suf : bytes) : strings.HasSuffix (s ++ suf) suf = true.
Proof.
  unfold strings.HasSuffix, len. rewrite length_app.
  replace (List.length suf <=? List.length s + List.length suf)%nat with true
    by (symmetry; apply Nat.leb_le; lia).
  replace (List.length s + List.length suf - List.length suf)%nat
    with (List.length s + 0)%nat by lia.
  rewrite skipn_app, Nat.add_0_r, skipn_all.
  replace (List.length s - List.length s)%nat with 0%nat by lia.
  simpl. apply bytes_eqb_refl.
Qed.

Lemma HasSuffix_inv (s suf : bytes) :
  strings.HasSuffix s suf = true -> exists p, s = p ++ suf.
Proof.
  unfold strings.HasSuffix. intros H. apply andb_prop in H. destruct H as [_ H].
  apply bytes_eqb_eq in H. exists (firstn (len s - len suf) s).
  etransitivity; [symmetry; apply (firstn_skipn (len s - len suf))|].
  f_equal. exact H.
Qed.

Lemma TrimSuffix_app (s suf : bytes) : strings.TrimSuffix (s ++ suf) suf = s.
Proof.
  unfold strings.TrimSuffix. rewrite HasSuffix_app.
  unfold len. rewrite length_app.
  replace (List.length s + List.length suf - List.length suf)%nat
    with (List.length s + 0)%nat by lia.
  rewrite firstn_app_2. simpl. apply app_nil_r.
Qed.

Lemma TrimSuffix_none (s suf : bytes) :
  strings.HasSuffix s suf = false -> strings.TrimSuffix s suf = s.
Proof. unfold strings.TrimSuffix. now intros ->. Qed.

Lemma oscPlain_app_inv (p q : bytes) :
  oscPlain (p ++ q) = true -> oscPlain q = true.
Proof.
  induction p as [|b p IH]; simpl; [auto|].
  intros H. apply andb_prop in H. destruct H as [_ H]. auto.
Qed.

Lemma oscPlain_no_BEL (s : bytes) :
  oscPlain s = true -> strings.HasSuffix s [BEL] = false.
Proof.
  intros H. destruct (strings.HasSuffix s [BEL]) eqn:E; [|reflexivity].
  apply HasSuffix_inv in E. destruct E as [p ->].
  apply oscPlain_app_inv in H. vm_compute in H. discriminate.
Qed.

Lemma oscPlain_no_ST (s : bytes) :
  oscPlain s = true -> strings.HasSuffix s [ESC; "\"%char] = false.
Proof.
  intros H. destruct (strings.HasSuffix s [ESC; "\"%char]) eqn:E; [|reflexivity].
  apply HasSuffix_inv in E. destruct E as [p ->].
  apply oscPlain_app_inv in H. vm_compute in H. discriminate.
Qed.

Lemma HasSuffix_app_ST_BEL (p : bytes) :
  strings.HasSuffix (p ++ [ESC; "\"%char]) [BEL] = false.
Proof.
  destruct (strings.HasSuffix _ [BEL]) eqn:E; [|reflexivity].
  apply HasSuffix_inv in E. destruct E as [q E].
  apply (f_equal (@rev ascii)) in E. rewrite !rev_app_distr in E.
  simpl in E. discriminate.
Qed.

(** What the loop of [consumeDebugTermOSC] has walked over when it stops
    at a terminator, and when it reaches the end of the buffer. *)
Lemma oscLoop_some (rest : bytes) (i e : nat) :
  oscLoop rest i = Some e ->
  exists payload term,
    firstn (e - i) rest = payload ++ term
    /\ (term = [BEL] \/ term = [ESC; "\"%char])
    /\ oscPlain payload = true
    /\ (forall c t, payload = c :: t -> exists r, rest = c :: r).
Proof.
  revert i e. induction rest as [|b rest IH]; intros i e; simpl; [discriminate|].
  destruct (Ascii.eqb b BEL) eqn:Eb.
  { intros [= <-]. apply Ascii.eqb_eq in Eb. subst b.
    exists [], [BEL]. replace (i + 1 - i)%nat with 1%nat by lia.
    repeat split; auto. intros; discriminate. }
  destruct (Ascii.eqb b ESC && match rest with c :: _ => Ascii.eqb c "\" | [] => false end) eqn:Ep.
  { intros [= <-]. apply andb_prop in Ep. destruct Ep as [E1 E2].
    destruct rest as [|c rest]; [discriminate|].
    apply Ascii.eqb_eq in E1, E2. subst b c.
    exists [], [ESC; "\"%char]. replace (i + 2 - i)%nat with 2%nat by lia.
    repeat split; auto. intros; discriminate. }
  intros H. pose proof (oscLoop_bounds _ _ _ H) as B.
  destruct (IH _ _ H) as (payload & term & H1 & H2 & H3 & H4).
  exists (b :: payload), term.
  replace (e - i)%nat with (S (e - S i)) by lia. simpl. rewrite H1.
  repeat split; auto.
  - rewrite Eb. simpl. rewrite H3, andb_true_r.
    destruct payload as [|c t]; [now rewrite andb_false_r|].
    destruct (H4 c t eq_refl) as [r ->]. now rewrite Ep.
  - intros c t [= <- <-]. eauto.
Qed.

Lemma oscLoop_none (rest : bytes) (i : nat) :
  oscLoop rest i = None -> oscPlain rest = true.
Proof.
  revert i. induction rest as [|b rest IH]; intros i; simpl; [reflexivity|].
  destruct (Ascii.eqb b BEL); [discriminate|].
  destruct (Ascii.eqb b ESC && match rest with c :: _ => Ascii.eqb c "\" | [] => false end);
    [discriminate|].
  intros H. simpl. eauto.
Qed.

Lemma IndexByte_cutFirst (s : bytes) (c : ascii) :
  match cutFirst c s with
  | Some (l, r) =>
    0 <= strings.IndexByte s c < Z.of_nat (len s)
    /\ l = firstn (Z.to_nat (strings.IndexByte s c)) s
    /\ r = skipn (Z.to_nat (strings.IndexByte s c) + 1) s
  | None => strings.IndexByte s c = -1
  end.
Proof.
  induction s as [|b s IH]; simpl; [reflexivity|].
  destruct (Ascii.eqb b c).
  - unfold len. simpl. repeat split; lia.
  - destruct (cutFirst c s) as [[l r]|].
    + destruct IH as (B & -> & ->).
      replace (strings.IndexByte s c <? 0) with false
        by (symmetry; apply Z.ltb_ge; lia).
      unfold len in *. simpl.
      replace (Z.to_nat (strings.IndexByte s c + 1))
        with (S (Z.to_nat (strings.IndexByte s c))) by lia.
      repeat split; try lia.
    + rewrite IH. reflexivity.
Qed.

(** The two trims of [formatDebugTermOSCLine] strip one terminator from
    a span that [consumeDebugTermOSC] returns. *)
Lemma osc_trims (payload term : bytes) :
  oscPlain payload = true ->
  term = [] \/ term = [BEL] \/ term = [ESC; "\"%char] ->
  strings.TrimSuffix (strings.TrimSuffix (payload ++ term) [BEL]) [ESC; "\"%char]
  = payload
  /\ stripTerminator (payload ++ term) = payload.
Proof.
  intros Hp [-> | [-> | ->]].
  - rewrite app_nil_r. unfold stripTerminator.
    rewrite (TrimSuffix_none _ _ (oscPlain_no_BEL _ Hp)).
    rewrite (TrimSuffix_none _ _ (oscPlain_no_ST _ Hp)).
    rewrite (oscPlain_no_BEL _ Hp), (oscPlain_no_ST _ Hp). auto.
  - rewrite TrimSuffix_app.
    rewrite (TrimSuffix_none _ _ (oscPlain_no_ST _ Hp)).
    unfold stripTerminator. rewrite HasSuffix_app.
    unfold len. rewrite length_app. simpl.
    replace (List.length payload + 1 - 1)%nat with (List.length payload + 0)%nat by lia.
    rewrite firstn_app_2. simpl. now rewrite app_nil_r.
  - rewrite (TrimSuffix_none _ _ (HasSuffix_app_ST_BEL payload)).
    rewrite TrimSuffix_app.
    unfold stripTerminator. rewrite HasSuffix_app_ST_BEL, HasSuffix_app.
    unfold len. rewrite length_app. simpl.
    replace (List.length payload + 2 - 2)%nat with (List.length payload + 0)%nat by lia.
    rewrite firstn_app_2. simpl. now rewrite app_nil_r.
Qed.

Lemma formatDebugTermOSCLine_inner (a b : ascii) (inner : bytes) :
  inner <> [] ->
  formatDebugTermOSCLine (a :: b :: inner)
  = let s := strings.TrimSuffix (strings.TrimSuffix inner [BEL]) [ESC; "\"%char] in
    match cutFirst ";" s with
    | Some (code, data) =>
      Ok (str "OSC " ++ code ++ str " " ++ strconv.QuoteToASCII data)
    | None => Ok (str "OSC " ++ strconv.QuoteToASCII s)
    end.
Proof.
  intros Hne. unfold formatDebugTermOSCLine.
  assert (L : (3 <= len (a :: b :: inner))%nat).
  { destruct inner; [congruence|]. unfold len. simpl. lia. }
  replace (len (a :: b :: inner) <? 3)%nat with false
    by (symmetry; apply Nat.ltb_ge; lia).
  rewrite sliceFrom_Ok by lia. cbn [bind skipn]. cbv zeta.
  set (s := strings.TrimSuffix (strings.TrimSuffix inner [BEL]) [ESC; "\"%char]).
  pose proof (IndexByte_cutFirst s ";") as H.
  destruct (cutFirst ";" s) as [[code d]|].
  - destruct H as (B & -> & ->).
    replace (0 <=? strings.IndexByte s ";") with true
      by (symmetry; apply Z.leb_le; lia).
    rewrite slice_Ok by lia. cbn [bind]. rewrite sliceFrom_Ok by lia.
    cbn [bind skipn]. rewrite Nat.sub_0_r. reflexivity.
  - rewrite H. reflexivity.
Qed.

(** C6, as the code has it.  For an OSC sequence at [start], the span that
    the scanner consumes, when it has three bytes or more, is printed as
    the design document says: prefix and terminator stripped, the inner
    string split on its first semicolon.  A span of the two bytes
    [ESC ]] alone is printed as [OSC] and the quoted span. *)
Theorem osc_line (data : bytes) (start : nat) :
  nth_error data start = Some ESC ->
  nth_error data (start + 1) = Some "]"%char ->
  exists seq e,
    scanToken data start = Ok (OSC seq, e)
    /\ ((3 <= len seq)%nat ->
        formatDebugTermOSCLine seq = Ok (oscLineStated seq))
    /\ ((len seq < 3)%nat ->
        seq = [ESC; "]"%char]
        /\ formatDebugTermOSCLine seq
           = Ok (str "OSC " ++ strconv.QuoteToASCII seq)).
Proof.
  intros H0 H1.
  assert (Hlen : (start + 2 <= len data)%nat).
  { assert (start + 1 < List.length data)%nat by (apply nth_error_Some; congruence).
    unfold len. lia. }
  pose proof (skipn_two data start _ _ H0 H1) as Hsk.
  assert (Hc : exists payload term e,
    consumeDebugTermOSC data start = Ok ([ESC; "]"%char] ++ payload ++ term, e)
    /\ oscPlain payload = true
    /\ (term = [] \/ term = [BEL] \/ term = [ESC; "\"%char])).
  { unfold consumeDebugTermOSC.
    destruct (oscLoop _ _) as [e|] eqn:E.
    - pose proof (oscLoop_bounds _ _ _ E) as B. rewrite len_skipn in B.
      destruct (oscLoop_some _ _ _ E) as (payload & term & F1 & F2 & F3 & _).
      exists payload, term, e. rewrite slice_Ok by lia. cbn [bind].
      repeat split; auto.
      rewrite Hsk. replace (e - start)%nat with (S (S (e - (start + 2)))) by lia.
      simpl. rewrite F1. reflexivity.
    - exists (skipn (start + 2) data), [], (len data).
      rewrite sliceFrom_Ok by lia. cbn [bind].
      repeat split; auto.
      + rewrite Hsk, app_nil_r. reflexivity.
      + eapply oscLoop_none; eauto. }
  destruct Hc as (payload & term & e & Hc & Hp & Ht).
  exists ([ESC; "]"%char] ++ payload ++ term), e.
  split; [|split].
  - unfold scanToken. apply index_Ok in H0, H1. rewrite H0. cbn [bind].
    rewrite Ascii.eqb_refl.
    replace (len data <=? start + 1)%nat with false
      by (symmetry; apply Nat.leb_gt; lia).
    rewrite H1. cbn [bind].
    replace (Ascii.eqb "]" "[") with false by reflexivity.
    rewrite Ascii.eqb_refl. rewrite Hc. reflexivity.
  - intros L. simpl app.
    destruct (osc_trims payload term Hp Ht) as [T1 T2].
    rewrite formatDebugTermOSCLine_inner.
    + cbv zeta. rewrite T1. unfold oscLineStated. cbn [skipn]. rewrite T2.
      destruct (cutFirst ";" payload) as [[c d]|]; reflexivity.
    + intros E. rewrite E in L. unfold len in L. simpl in L. lia.
  - intros L. assert (E : payload ++ term = []).
    { destruct (payload ++ term); [reflexivity|]. unfold len in L. simpl in L. lia. }
    simpl app. rewrite E. split; reflexivity.
Qed.

(** C6, as the design document states it, fails on the buffer [ESC ]]:
    the span of the OSC token is the two bytes of the prefix, and the
    line holds the quoted prefix, not the quoted empty inner string. *)
Lemma osc_prefix_alone_not_stripped :
  let data := [ESC; "]"%char] in
  scanToken data 0 = Ok (OSC data, 2%nat)
  /\ oscLineStated data = str "OSC " ++ strconv.QuoteToASCII []
  /\ formatDebugTermOSCLine data = Ok (str "OSC " ++ strconv.QuoteToASCII data)
  /\ formatDebugTermOSCLine data <> Ok (oscLineStated data).
Proof.
  cbv zeta. repeat split. vm_compute. discriminate.
Qed.

Lemma osc_line_witness :
  let data := str "x" ++ [ESC] ++ str "]0;a;b" ++ [BEL] ++ str "y" in
  exists seq e,
    scanToken data 1 = Ok (OSC seq, e)
    /\ ((3 <= len seq)%nat ->
        formatDebugTermOSCLine seq = Ok (oscLineStated seq))
    /\ ((len seq < 3)%nat ->
        seq = [ESC; "]"%char]
        /\ formatDebugTermOSCLine seq
           = Ok (str "OSC " ++ strconv.QuoteToASCII seq)).
Proof.
  cbv zeta.
  apply (osc_line (str "x" ++ [ESC] ++ str "]0;a;b" ++ [BEL] ++ str "y") 1);
    reflexivity.
Defined.

(** ** The decoder terminates; the one panic it can raise *)

Lemma Atoi_range (s : bytes) (n : Z) :
  strconv.Atoi s = Some n -> minInt <= n <= maxInt.
Proof.
  unfold strconv.Atoi.
  destruct (match s with
            | [] => (false, s)
            | c :: t => if Ascii.eqb c "-" then (true, t)
                        else if Ascii.eqb c "+" then (false, t) else (false, s)
            end) as [neg ds].
  destruct ds; [discriminate|].
  destruct (strconv.parseDigits _ _); [|discriminate].
  destruct ((minInt <=? (if neg then - z else z)) && ((if neg then - z else z) <=? maxInt)) eqn:E;
    [|discriminate].
  intros [= <-]. apply andb_prop in E. destruct E as [E1 E2].
  apply Z.leb_le in E1, E2. lia.
Qed.

Lemma parseCursorForwardN_total (seq : bytes) :
  exists n ok, parseCursorForwardN seq = Ok (n, ok)
               /\ (ok = true -> 1 <= n <= maxInt).
Proof.
  unfold parseCursorForwardN.
  destruct (len seq <? 3)%nat eqn:L; [exists 0, false; split; [reflexivity|discriminate]|].
  apply Nat.ltb_ge in L.
  destruct (index_lt seq (len seq - 1) ltac:(unfold len in *; lia)) as [b Hb].
  rewrite Hb. cbn [bind].
  destruct (negb (Ascii.eqb b "C")); [exists 0, false; split; [reflexivity|discriminate]|].
  rewrite slice_Ok by lia. cbn [bind].
  destruct (bytes_eqb _ []).
  { exists 1, true. split; [reflexivity|]. intros _. unfold maxInt. lia. }
  destruct (strconv.Atoi _) as [n|] eqn:A;
    [|exists 0, false; split; [reflexivity|discriminate]].
  apply Atoi_range in A.
  destruct (n <=? 0) eqn:N; [exists 0, false; split; [reflexivity|discriminate]|].
  apply Z.leb_gt in N. exists n, true. split; [reflexivity|]. intros _. lia.
Qed.

(** [strings.Repeat] of one space: the spaces, or the panic of the
    allocation when there are more than [maxAlloc] of them. *)
Lemma Repeat_space (n : Z) :
  1 <= n <= maxInt ->
  strings.Repeat (str " ") n
  = if maxAlloc <? n then Panic makeslicePanic
    else Ok (List.repeat " "%char (Z.to_nat n)).
Proof.
  intros H. unfold strings.Repeat.
  replace (n =? 0) with false by (symmetry; apply Z.eqb_neq; lia).
  destruct (n =? 1) eqn:E1.
  { apply Z.eqb_eq in E1. subst n. reflexivity. }
  replace (n <? 0) with false by (symmetry; apply Z.ltb_ge; lia).
  change (Z.of_nat (len (str " "))) with 1. rewrite Z.mul_1_l.
  replace (maxInt <? n) with false by (symmetry; apply Z.ltb_ge; lia).
  change (len (str " ") =? 0)%nat with false. cbv iota.
  destruct (maxAlloc <? n); [reflexivity|].
  f_equal. change (str " ") with [" "%char].
  induction (Z.to_nat n) as [|k IH]; simpl; [reflexivity|]. now rewrite IH.
Qed.

Lemma formatDebugTermCSILine_total (seq : bytes) :
  exists line, formatDebugTermCSILine seq = Ok line.
Proof.
  unfold formatDebugTermCSILine.
  destruct (len seq <? 3)%nat eqn:L; [eauto|]. apply Nat.ltb_ge in L.
  rewrite sliceFrom_Ok by lia. cbn [bind].
  assert (Li : (1 <= len (skipn 2 seq))%nat) by (rewrite len_skipn; lia).
  destruct (index_lt (skipn 2 seq) (len (skipn 2 seq) - 1) ltac:(unfold len in *; lia))
    as [f Hf].
  rewrite Hf. cbn [bind]. rewrite slice_Ok by lia. cbn [bind skipn].
  set (params := firstn _ _).
  destruct (strings.HasPrefix params (str "?")) eqn:P.
  - assert (1 <= len params)%nat.
    { destruct params; [discriminate|]. unfold len. simpl. lia. }
    destruct (Ascii.eqb f "h" || Ascii.eqb f "l"); cbn [andb].
    + rewrite sliceFrom_Ok by lia. cbn [bind].
      destruct (lookup _ _ _); eauto.
    + destruct (Ascii.eqb f "m").
      * destruct (describeSGR_total params) as [d ->]. cbn [bind].
        destruct (negb _); eauto.
      * destruct (lookup _ _ _); eauto.
  - cbn [andb]. destruct (Ascii.eqb f "m").
    + destruct (describeSGR_total params) as [d ->]. cbn [bind].
      destruct (negb _); eauto.
    + destruct (lookup _ _ _); eauto.
Qed.

Lemma formatDebugTermOSCLine_total (seq : bytes) :
  exists line, formatDebugTermOSCLine seq = Ok line.
Proof.
  destruct seq as [|a [|b [|c inner]]]; try (eexists; reflexivity).
  rewrite formatDebugTermOSCLine_inner by discriminate. cbv zeta.
  destruct (cutFirst _ _) as [[code d]|]; eauto.
Qed.

Section DecoderTotal.

Variable isPrintTable : Z -> bool.

Lemma route_total (t : token) (st : dstate) :
  (exists st', route isPrintTable t st = Ok st')
  \/ route isPrintTable t st = Panic makeslicePanic.
Proof.
  destruct t as [text|b| |seq|seq|seq|seq|seq|seq]; cbn [route];
    try (left; eexists; reflexivity).
  - destruct (len seq <? 2)%nat; left; eexists; reflexivity.
  - destruct (parseCursorForwardN_total seq) as (n & ok & -> & Hn). cbn [bind].
    destruct ok.
    + rewrite (Repeat_space n (Hn eq_refl)).
      destruct (maxAlloc <? n); [right; reflexivity | left; eexists; reflexivity].
    + destruct (formatDebugTermCSILine_total seq) as [l ->].
      left; eexists; reflexivity.
  - destruct (formatDebugTermOSCLine_total seq) as [l ->].
    left; eexists; reflexivity.
Qed.

Lemma routeAll_total (ts : list token) (st : dstate) :
  (exists st', routeAll isPrintTable ts st = Ok st')
  \/ routeAll isPrintTable ts st = Panic makeslicePanic.
Proof.
  revert st. induction ts as [|t ts IH]; intros st; simpl.
  - left; eauto.
  - destruct (route_total t st) as [[st' ->] | ->]; cbn [bind]; auto.
Qed.

(** The decoder is the routing of the tokens of the scanner. *)
Lemma formatDebugTermDecode_scan (data : bytes) :
  data <> [] ->
  exists toks,
    scan data = Ok toks
    /\ formatDebugTermDecode isPrintTable data
       = (st <- routeAll isPrintTable toks
                  {| lines := []; textBuf := []; totalCSpaces := 0 |} ;;
          Ok (strings.Join (lines (flushText isPrintTable st)) [LF] ++ [LF])).
Proof.
  intros Hne. unfold formatDebugTermDecode, scan.
  destruct (len data =? 0)%nat eqn:E.
  { apply Nat.eqb_eq in E. destruct data; [congruence | discriminate]. }
  destruct (decodeLoop_routeAll isPrintTable (len data) data 0
              {| lines := []; textBuf := []; totalCSpaces := 0 |}
              ltac:(lia) ltac:(lia)) as (ts & H1 & H2).
  exists ts. split; [exact H1|]. rewrite H2. reflexivity.
Qed.

(** On every buffer the decoder comes to an end within the fuel of its
    loop, and it returns a report unless [strings.Repeat] panics on the
    count of a cursor-forward sequence. *)
Lemma formatDebugTermDecode_total (data : bytes) :
  (exists report, formatDebugTermDecode isPrintTable data = Ok report)
  \/ formatDebugTermDecode isPrintTable data = Panic makeslicePanic.
Proof.
  destruct data as [|c data]; [left; eexists; reflexivity|].
  destruct (formatDebugTermDecode_scan (c :: data) ltac:(discriminate))
    as (ts & _ & ->).
  destruct (routeAll_total ts {| lines := []; textBuf := []; totalCSpaces := 0 |})
    as [[st' ->] | ->]; cbn [bind]; [left; eauto | right; reflexivity].
Qed.

(** Every iteration of the scan loop moves the index forward, and not
    beyond the end of the buffer. *)
Lemma decodeStep_advances (data : bytes) (i i' : nat) (st st' : dstate) :
  (i < len data)%nat ->
  decodeStep isPrintTable data i st = Ok (i', st') ->
  (i < i' <= len data)%nat.
Proof.
  intros Hi. rewrite decodeStep_route.
  destruct (scanToken_span data i Hi) as (t & e & -> & B & _). cbn [bind].
  destruct (route isPrintTable t st); cbn [bind]; try discriminate.
  intros [= <- _]. exact B.
Qed.

(** C1.  Every iteration of the scan loop moves the index forward, and
    on every buffer the decoder comes to an end: it returns a report, or
    [strings.Repeat] has panicked.  The count of a cursor-forward
    sequence is not bounded before its spaces are allocated, and on the
    22 bytes [ESC [ 999999999999999999 C] the decoder does not return a
    report: it panics in [strings.Repeat]. *)
Theorem decode_total_but_for_repeat_panic :
  (forall (data : bytes) (i i' : nat) (st st' : dstate),
     (i < len data)%nat ->
     decodeStep isPrintTable data i st = Ok (i', st') ->
     (i < i' <= len data)%nat)
  /\ (forall data : bytes,
        (exists report, formatDebugTermDecode isPrintTable data = Ok report)
        \/ formatDebugTermDecode isPrintTable data = Panic makeslicePanic)
  /\ formatDebugTermDecode isPrintTable (ESC :: str "[999999999999999999C")
     = Panic makeslicePanic.
Proof.
  split; [|split].
  - exact decodeStep_advances.
  - exact formatDebugTermDecode_total.
  - reflexivity.
Qed.

End DecoderTotal.

Lemma decode_total_but_for_repeat_panic_witness :
  (0 < 2 <= len (str "hi"))%nat.
Proof.
  apply (proj1 (decode_total_but_for_repeat_panic (fun _ => false))
           (str "hi") 0%nat 2%nat
           {| lines := []; textBuf := []; totalCSpaces := 0 |}
           {| lines := []; textBuf := str "hi"; totalCSpaces := 0 |}).
  - unfold len. simpl. lia.
  - reflexivity.
Defined.

(** ** The segments of [splitOnCRLFRuns] *)

Lemma splitOnCRLFRuns_step (s : bytes) :
  splitOnCRLFRuns s
  = if (len s =? 0)%nat then []
    else if (crlfStart s =? len s)%nat then [s]
    else firstn (crlfEnd s) s :: splitOnCRLFRuns (skipn (crlfEnd s) s).
Proof.
  funelim (splitOnCRLFRuns s); rewrite ?e, ?e0; reflexivity.
Qed.

(** [scanWhile] stops after the longest prefix whose bytes satisfy [p]. *)
Lemma scanWhile_split (p : ascii -> bool) (rest : bytes) (i : nat) :
  exists pre post,
    rest = pre ++ post
    /\ scanWhile p rest i = (i + List.length pre)%nat
    /\ Forall (fun c => p c = true) pre
    /\ (post = [] \/ exists c t, post = c :: t /\ p c = false).
Proof.
  revert i. induction rest as [|c rest IH]; intros i; simpl.
  - exists [], []. simpl. repeat split; auto.
  - destruct (p c) eqn:E.
    + destruct (IH (S i)) as (pre & post & -> & H2 & H3 & H4).
      exists (c :: pre), post. simpl. repeat split; auto. lia.
    + exists [], (c :: rest). simpl. repeat split; auto.
      right. eauto.
Qed.

(** One iteration of the outer loop on a string that has a CR or LF. *)
Lemma crlf_iteration (s : bytes) :
  crlfStart s <> len s ->
  exists body run post,
    s = body ++ run ++ post
    /\ firstn (crlfEnd s) s = body ++ run
    /\ skipn (crlfEnd s) s = post
    /\ Forall (fun c => isCRLF c = false) body
    /\ run <> []
    /\ Forall (fun c => isCRLF c = true) run
    /\ (post = [] \/ startsPlain post).
Proof.
  intros Hs. unfold crlfEnd. unfold crlfStart in *.
  destruct (scanWhile_split (fun c => negb (isCRLF c)) s 0)
    as (body & post1 & E1 & S1 & F1 & P1).
  rewrite S1 in *. simpl in *.
  assert (Sk : skipn (List.length body) s = post1).
  { rewrite E1. rewrite skipn_app, skipn_all, Nat.sub_diag. reflexivity. }
  rewrite Sk.
  destruct (scanWhile_split isCRLF post1 (List.length body))
    as (run & post & E2 & S2 & F2 & P2).
  rewrite S2. exists body, run, post.
  assert (Fb : Forall (fun c => isCRLF c = false) body).
  { eapply Forall_impl; [|exact F1]. simpl. intros a Ha.
    now apply negb_true_iff in Ha. }
  assert (Hr : run <> []).
  { destruct P1 as [-> | (c & t & -> & Hc)].
    - exfalso. apply Hs. rewrite E1. unfold len. rewrite app_nil_r. reflexivity.
    - apply negb_false_iff in Hc. intros ->. simpl in E2. subst post.
      destruct P2 as [? | (c' & t' & [= <- <-] & Hc')]; congruence. }
  clear Sk S1 S2 P1 Hs. subst post1. subst s. repeat split; auto.
  - rewrite app_assoc, <- length_app, firstn_app, firstn_all, Nat.sub_diag.
    simpl. apply app_nil_r.
  - rewrite app_assoc. rewrite <- length_app.
    rewrite skipn_app, skipn_all, Nat.sub_diag. reflexivity.
Qed.

Lemma crlfStart_all (s : bytes) :
  crlfStart s = len s -> Forall (fun c => isCRLF c = false) s.
Proof.
  unfold crlfStart. intros H.
  destruct (scanWhile_split (fun c => negb (isCRLF c)) s 0)
    as (body & post & E & S1 & F1 & _).
  rewrite S1 in H. subst s. unfold len in H. rewrite length_app in H.
  assert (post = []) by (destruct post; [reflexivity | simpl in H; lia]).
  subst post. rewrite app_nil_r.
  eapply Forall_impl; [|exact F1]. simpl. intros a Ha.
  now apply negb_true_iff in Ha.
Qed.

Lemma splitOnCRLFRuns_head (c : ascii) (t : bytes) :
  exists t' rest, splitOnCRLFRuns (c :: t) = (c :: t') :: rest.
Proof.
  rewrite splitOnCRLFRuns_step. change (len (c :: t) =? 0)%nat with false. cbv iota.
  destruct (crlfStart (c :: t) =? len (c :: t))%nat eqn:E.
  - eauto.
  - apply Nat.eqb_neq in E.
    destruct (crlf_iteration (c :: t) E) as (body & run & post & E1 & E2 & _ & _ & Hr & _).
    rewrite E2. destruct body as [|b body].
    + destruct run as [|r run]; [congruence|]. simpl in E1. injection E1 as -> _.
      simpl. eauto.
    + simpl in E1. injection E1 as -> _. simpl. eauto.
Qed.

(** C9.  The segments of [splitOnCRLFRuns s], concatenated in order, are
    [s]; every segment but the last ends with a maximal run of CR and LF
    bytes, and only the last segment may have no such run. *)
Theorem splitOnCRLFRuns_segments (s : bytes) :
  List.concat (splitOnCRLFRuns s) = s /\ segmentsOk (splitOnCRLFRuns s).
Proof.
  remember (len s) as n eqn:Hn. revert s Hn.
  induction n as [n IH] using lt_wf_ind. intros s Hn.
  rewrite splitOnCRLFRuns_step.
  destruct (len s =? 0)%nat eqn:E0.
  { apply Nat.eqb_eq in E0. destruct s; [simpl; auto | discriminate]. }
  apply Nat.eqb_neq in E0.
  destruct (crlfStart s =? len s)%nat eqn:E1.
  { apply Nat.eqb_eq in E1. simpl. rewrite app_nil_r. split; [reflexivity|].
    right. split; [destruct s; [exfalso; apply E0; reflexivity | discriminate]|].
    now apply crlfStart_all. }
  apply Nat.eqb_neq in E1.
  destruct (crlf_iteration s E1) as (body & run & post & Es & Ef & Ek & Fb & Hr & Fr & Hp).
  rewrite Ef, Ek.
  assert (Hlt : (len post < n)%nat).
  { subst n s. unfold len. rewrite !length_app.
    destruct run; [congruence | simpl; lia]. }
  destruct (IH (len post) Hlt post eq_refl) as [IH1 IH2].
  split.
  - simpl. rewrite IH1, Es, app_assoc. reflexivity.
  - assert (Hrun : endsWithRun (body ++ run)) by (exists body, run; auto).
    simpl. destruct Hp as [-> | (c & t & -> & Hc)].
    + rewrite splitOnCRLFRuns_step. simpl. left. exact Hrun.
    + destruct (splitOnCRLFRuns_head c t) as (t' & rest & Eh).
      rewrite Eh in *. repeat split; auto. exists c, t'. auto.
Qed.

(** ** The lines of a flush *)

Section Flush.

Variable isPrintTable : Z -> bool.

Lemma flushRange_lines (init : list bytes) (lst : bytes) (i n : nat) (total : Z) :
  n = (i + List.length init + 1)%nat ->
  flushRange isPrintTable (init ++ [lst]) i n total
  = map (txtLine isPrintTable) init
    ++ [txtLine isPrintTable lst ++ spaceAnnotation total].
Proof.
  revert i. induction init as [|seg init IH]; intros i Hn; simpl in *.
  - replace (i =? n - 1)%nat with true by (symmetry; apply Nat.eqb_eq; lia).
    unfold txtLine, spaceAnnotation. simpl.
    destruct (0 <? total); simpl.
    + now rewrite <- !app_assoc.
    + now rewrite app_nil_r.
  - replace (i =? n - 1)%nat with false by (symmetry; apply Nat.eqb_neq; lia).
    simpl. f_equal. apply IH. lia.
Qed.

(** C3.  A flush of a pending text gives one [TXT] line for each segment
    of [splitOnCRLFRuns], in order, and the count of collapsed spaces is
    appended to the line of the last segment only, when it is positive;
    the flush leaves the coalescer empty.  The buffer of the cursor-forward
    test decodes to the two lines of its segments, the count 4 = 1 + 3
    on the second. *)
Theorem flushText_lines :
  (forall (st : dstate) (init : list bytes) (lst : bytes),
     splitOnCRLFRuns (textBuf st) = init ++ [lst] ->
     flushText isPrintTable st
     = {| lines := lines st
                   ++ map (txtLine isPrintTable) init
                   ++ [txtLine isPrintTable lst
                       ++ spaceAnnotation (totalCSpaces st)];
          textBuf := [];
          totalCSpaces := 0 |})
  /\ formatDebugTermDecode isPrintTable
       (str "hi" ++ [ESC] ++ str "[1Cworld" ++ [ESC] ++ str "[3Cfoo"
        ++ [CR; LF] ++ str "bar")
     = Ok (str "TXT " ++ [DQUOTE] ++ str "hi world   foo\r\n" ++ [DQUOTE] ++ [LF]
           ++ str "TXT " ++ [DQUOTE] ++ str "bar" ++ [DQUOTE] ++ str " // 4C"
           ++ [LF]).
Proof.
  split; [|reflexivity].
  intros st init lst Hs. unfold flushText.
  assert (Hne : textBuf st <> []).
  { intros E. rewrite E in Hs. rewrite splitOnCRLFRuns_step in Hs.
    simpl in Hs. destruct init; discriminate. }
  replace (bytes_eqb (textBuf st) []) with false
    by (symmetry; now apply bytes_eqb_neq).
  cbn [andb]. rewrite Hs.
  replace (List.length (init ++ [lst]) =? 0)%nat with false
    by (symmetry; apply Nat.eqb_neq; rewrite length_app; simpl; lia).
  rewrite flushRange_lines by (rewrite length_app; simpl; lia).
  reflexivity.
Qed.

End Flush.

Lemma flushText_lines_witness :
  flushText (fun _ => false)
    {| lines := [str "BEL"]; textBuf := str "a" ++ [LF] ++ str "b  "; totalCSpaces := 2 |}
  = {| lines := [str "BEL"; str "TXT " ++ [DQUOTE] ++ str "a\n" ++ [DQUOTE];
                 str "TXT " ++ [DQUOTE] ++ str "b  " ++ [DQUOTE] ++ str " // 2C"];
       textBuf := []; totalCSpaces := 0 |}.
Proof.
  exact (proj1 (flushText_lines (fun _ => false))
           {| lines := [str "BEL"]; textBuf := str "a" ++ [LF] ++ str "b  ";
              totalCSpaces := 2 |}
           [str "a" ++ [LF]] (str "b  ") eq_refl).
Defined.

(** ** The JSON scanner consumes its input and needs no more fuel *)

Lemma skipSpace_len (s : bytes) : (len (json.skipSpace s) <= len s)%nat.
Proof.
  induction s as [|c s IH]; simpl; [lia|].
  destruct (json.isSpace c); unfold len in *; simpl; lia.
Qed.

Lemma skipSpace_split (s : bytes) :
  exists ws, s = ws ++ json.skipSpace s /\ Forall (fun c => json.isSpace c = true) ws.
Proof.
  induction s as [|c s (ws & E & F)]; simpl.
  - exists []. auto.
  - destruct (json.isSpace c) eqn:Ec.
    + exists (c :: ws). simpl. split; [congruence | auto].
    + exists []. auto.
Qed.

Lemma push_inv (b v rest : bytes) (r : option (bytes * bytes)) :
  json.push b r = Some (v, rest) -> exists v', r = Some (v', rest).
Proof.
  destruct r as [[v' rest']|]; simpl; [|discriminate].
  intros [= <- <-]. eauto.
Qed.

Lemma stringLit_len (s v rest : bytes) :
  json.stringLit s = Some (v, rest) -> (len rest < len s)%nat.
Proof.
  remember (len s) as n eqn:Hn. revert s v rest Hn.
  induction n as [n IH] using lt_wf_ind. intros s v rest Hn H.
  assert (Rec : forall s' b v rest,
            (len s' < n)%nat ->
            json.push b (json.stringLit s') = Some (v, rest) ->
            (len rest < n)%nat).
  { intros s' b v0 rest0 L P. apply push_inv in P. destruct P as [v' P].
    specialize (IH (len s') L s' v' rest0 eq_refl P). lia. }
  destruct s as [|c s1]; [discriminate|].
  cbn [json.stringLit] in H. unfold len in *. simpl in Hn.
  destruct (Ascii.eqb c DQUOTE).
  { injection H as _ <-. lia. }
  destruct (Ascii.eqb c "\").
  { destruct s1 as [|e s2]; [discriminate|].
    destruct (json.simpleEscape e).
    { eapply Rec; [|exact H]. cbn [List.length] in Hn |- *. lia. }
    destruct (Ascii.eqb e "u"); [|discriminate].
    destruct s2 as [|h1 [|h2 [|h3 [|h4 s6]]]]; try discriminate.
    destruct (json.getu4 h1 h2 h3 h4) as [rr|]; [|discriminate].
    destruct (json.IsSurrogate rr).
    - destruct s6 as [|b1 [|u1 [|k1 [|k2 [|k3 [|k4 s12]]]]]];
        try (eapply Rec; [|exact H]; cbn [List.length] in Hn |- *; lia).
      destruct (if Ascii.eqb b1 "\" && Ascii.eqb u1 "u" then json.getu4 k1 k2 k3 k4 else None).
      + destruct (json.utf16DecodeRune rr z =? utf8.RuneError);
          (eapply Rec; [|exact H]; cbn [List.length] in Hn |- *; lia).
      + eapply Rec; [|exact H]; cbn [List.length] in Hn |- *; lia.
    - eapply Rec; [|exact H]; cbn [List.length] in Hn |- *; lia. }
  destruct (b2z c <? 32); [discriminate|].
  destruct (b2z c <? utf8.RuneSelf).
  { eapply Rec; [|exact H]. cbn [List.length] in Hn |- *. lia. }
  destruct (utf8.DecodeRune (c :: s1)) as [rr size].
  destruct size as [|[|[|[|[|size]]]]];
    destruct s1 as [|c1 [|c2 [|c3 s4]]];
    (eapply Rec; [|exact H]; cbn [List.length] in Hn |- *; lia).
Qed.

Lemma spanDigits_len (s ds rest : bytes) :
  json.spanDigits s = (ds, rest) ->
  (len rest + len ds = len s)%nat.
Proof.
  revert ds rest. induction s as [|c s IH]; intros ds rest; simpl.
  - intros [= <- <-]. reflexivity.
  - destruct (strconv.isDigit c).
    + destruct (json.spanDigits s) as [ds' rest'] eqn:E.
      intros [= <- <-]. specialize (IH _ _ eq_refl). unfold len in *. simpl. lia.
    + intros [= <- <-]. unfold len. simpl. lia.
Qed.

Lemma numberLit_len (s lit rest : bytes) :
  json.numberLit s = Some (lit, rest) -> (len rest < len s)%nat.
Proof.
  unfold json.numberLit. intros H.
  destruct (match s with
            | [] => ([], s)
            | c :: t => if Ascii.eqb c "-" then ([c], t) else ([], s)
            end) as [sign s0] eqn:Es.
  assert (H0 : (len s0 <= len s)%nat).
  { destruct s as [|c t]; [injection Es as _ <-; lia|].
    destruct (Ascii.eqb c "-"); injection Es as _ <-; unfold len; simpl; lia. }
  destruct s0 as [|d t]; [discriminate|].
  destruct (strconv.isDigit d) eqn:Ed; cbn [negb] in H; [|discriminate].
  destruct (if Ascii.eqb d "0" then ([d], t) else json.spanDigits (d :: t))
    as [int s1] eqn:Ei.
  assert (H1 : (len s1 < len (d :: t))%nat).
  { destruct (Ascii.eqb d "0").
    - injection Ei as _ <-. unfold len; simpl; lia.
    - simpl in Ei. rewrite Ed in Ei.
      destruct (json.spanDigits t) as [a b] eqn:E.
      injection Ei as _ <-. apply spanDigits_len in E.
      unfold len in *. simpl. lia. }
  destruct (match s1 with
            | [] => Some ([], s1)
            | c :: t0 =>
              if Ascii.eqb c "."
              then let '(ds, rest0) := json.spanDigits t0 in
                   match ds with
                   | [] => None
                   | _ :: _ => Some (c :: ds, rest0)
                   end
              else Some ([], s1)
            end) as [[fr s2]|] eqn:Ef; [|discriminate].
  assert (H2 : (len s2 <= len s1)%nat).
  { destruct s1 as [|c t1]; [injection Ef as _ <-; lia|].
    destruct (Ascii.eqb c ".").
    - destruct (json.spanDigits t1) as [ds rest'] eqn:E1.
      destruct ds; [discriminate|]. injection Ef as _ <-.
      apply spanDigits_len in E1. unfold len in *. simpl in *. lia.
    - injection Ef as _ <-. lia. }
  destruct s2 as [|c t2]; [injection H as _ <-; lia|].
  destruct (Ascii.eqb c "e" || Ascii.eqb c "E"); [|injection H as _ <-; lia].
  destruct (match t2 with
            | [] => ([], t2)
            | g :: t' =>
              if Ascii.eqb g "+" || Ascii.eqb g "-" then ([g], t') else ([], t2)
            end) as [sg t3] eqn:Eg.
  assert (H3 : (len t3 <= len t2)%nat).
  { destruct t2 as [|g t']; [injection Eg as _ <-; lia|].
    destruct (Ascii.eqb g "+" || Ascii.eqb g "-");
      injection Eg as _ <-; unfold len; simpl; lia. }
  destruct (json.spanDigits t3) as [ds rest'] eqn:E3.
  destruct ds; [discriminate|]. injection H as _ <-.
  apply spanDigits_len in E3. unfold len in *. simpl in *. lia.
Qed.

Lemma literal_len (word : bytes) (v v' : json.value) (s rest : bytes) :
  word <> [] ->
  json.literal word v s = json.Done (v', rest) ->
  (len rest < len s)%nat /\ v' = v.
Proof.
  intros Hw. unfold json.literal.
  destruct (strings.HasPrefix s word) eqn:E; [|discriminate].
  intros [= <- <-]. split; [|reflexivity].
  rewrite len_skipn.
  destruct word as [|w word]; [congruence|].
  destruct s as [|c s]; [discriminate|]. unfold len. simpl. lia.
Qed.

(** The three functions of the scanner, by induction on the fuel: with
    fuel for two calls a byte the input is scanned to its end or to an
    error, and a value consumes at least one byte. *)
Lemma scanner_fuel (fuel : nat) :
  (forall depth s,
     ((2 * len s + 1 <= fuel)%nat -> json.parseValue fuel depth s <> json.Fuel)
     /\ (forall v r, json.parseValue fuel depth s = json.Done (v, r) ->
                     (len r < len s)%nat))
  /\ (forall depth s acc,
        ((2 * len s + 2 <= fuel)%nat ->
         json.parseElems fuel depth s acc <> json.Fuel)
        /\ (forall v r, json.parseElems fuel depth s acc = json.Done (v, r) ->
                        (len r < len s)%nat))
  /\ (forall depth s acc,
        ((2 * len s + 2 <= fuel)%nat ->
         json.parseMembers fuel depth s acc <> json.Fuel)
        /\ (forall v r, json.parseMembers fuel depth s acc = json.Done (v, r) ->
                        (len r < len s)%nat)).
Proof.
  induction fuel as [|fuel (IHv & IHe & IHm)].
  { repeat split; intros; try discriminate; lia. }
  split; [|split].
  - intros depth s. cbn [json.parseValue].
    pose proof (skipSpace_len s) as Hs.
    destruct (json.skipSpace s) as [|c s1] eqn:Es.
    { split; intros; discriminate. }
    assert (L1 : (len s1 < len s)%nat) by (unfold len in *; simpl in Hs; lia).
    destruct (Ascii.eqb c "[").
    { destruct (json.maxNestingDepth <? depth + 1); [split; intros; discriminate|].
      pose proof (skipSpace_len s1) as Hs1.
      destruct (json.skipSpace s1) as [|c1 s2]; [split; intros; discriminate|].
      destruct (Ascii.eqb c1 "]").
      - split; [discriminate|]. intros v r [= <- <-].
        unfold len in *. simpl in *. lia.
      - destruct (IHe (depth + 1) (c1 :: s2) []) as [F C]. split.
        + intros Hf. apply F. lia.
        + intros v r H. apply C in H. lia. }
    destruct (Ascii.eqb c "{").
    { destruct (json.maxNestingDepth <? depth + 1); [split; intros; discriminate|].
      pose proof (skipSpace_len s1) as Hs1.
      destruct (json.skipSpace s1) as [|c1 s2]; [split; intros; discriminate|].
      destruct (Ascii.eqb c1 "}").
      - split; [discriminate|]. intros v r [= <- <-].
        unfold len in *. simpl in *. lia.
      - destruct (IHm (depth + 1) (c1 :: s2) []) as [F C]. split.
        + intros Hf. apply F. lia.
        + intros v r H. apply C in H. lia. }
    destruct (Ascii.eqb c DQUOTE).
    { destruct (json.stringLit s1) as [[v0 rest]|] eqn:E; [|split; intros; discriminate].
      apply stringLit_len in E. split; [discriminate|].
      intros v r [= <- <-]. lia. }
    destruct (Ascii.eqb c "-" || strconv.isDigit c).
    { destruct (json.numberLit (c :: s1)) as [[v0 rest]|] eqn:E;
        [|split; intros; discriminate].
      apply numberLit_len in E. split; [discriminate|].
      intros v r [= <- <-]. unfold len in *. simpl in *. lia. }
    assert (Lit : forall word v0,
              word <> [] ->
              (json.literal word v0 (c :: s1) <> json.Fuel)
              /\ (forall v r, json.literal word v0 (c :: s1) = json.Done (v, r) ->
                              (len r < len s)%nat)).
    { intros word v0 Hw. split.
      - unfold json.literal. destruct (strings.HasPrefix _ _); discriminate.
      - intros v r H. apply literal_len in H; [|exact Hw].
        unfold len in *. simpl in *. lia. }
    destruct (Ascii.eqb c "t");
      [destruct (Lit (str "true") (json.Bool true) ltac:(discriminate)); split; auto|].
    destruct (Ascii.eqb c "f");
      [destruct (Lit (str "false") (json.Bool false) ltac:(discriminate)); split; auto|].
    destruct (Ascii.eqb c "n");
      [destruct (Lit (str "null") json.Null ltac:(discriminate)); split; auto|].
    split; intros; discriminate.
  - intros depth s acc. cbn [json.parseElems].
    destruct (IHv depth s) as [Fv Cv].
    destruct (json.parseValue fuel depth s) as [[v rest]| |] eqn:Ev.
    + specialize (Cv _ _ eq_refl).
      pose proof (skipSpace_len rest) as Hs.
      destruct (json.skipSpace rest) as [|c rest']; [split; intros; discriminate|].
      assert (L : (len rest' < len rest)%nat) by (unfold len in *; simpl in Hs; lia).
      destruct (Ascii.eqb c ",").
      * destruct (IHe depth rest' (acc ++ [v])) as [F C]. split.
        -- intros Hf. apply F. lia.
        -- intros v0 r H. apply C in H. lia.
      * destruct (Ascii.eqb c "]"); [|split; intros; discriminate].
        split; [discriminate|]. intros v0 r [= <- <-]. lia.
    + split; intros; discriminate.
    + split; [|discriminate]. intros Hf _. apply Fv; [lia | reflexivity].
  - intros depth s acc. cbn [json.parseMembers].
    pose proof (skipSpace_len s) as Hs.
    destruct (json.skipSpace s) as [|c s1]; [split; intros; discriminate|].
    destruct (negb (Ascii.eqb c DQUOTE)); [split; intros; discriminate|].
    destruct (json.stringLit s1) as [[key s2]|] eqn:Ek; [|split; intros; discriminate].
    apply stringLit_len in Ek.
    pose proof (skipSpace_len s2) as Hs2.
    destruct (json.skipSpace s2) as [|c2 s3]; [split; intros; discriminate|].
    destruct (negb (Ascii.eqb c2 ":")); [split; intros; discriminate|].
    assert (L3 : (len s3 + 3 <= len s)%nat) by (unfold len in *; simpl in *; lia).
    destruct (IHv depth s3) as [Fv Cv].
    destruct (json.parseValue fuel depth s3) as [[v rest]| |] eqn:Ev.
    + specialize (Cv _ _ eq_refl).
      pose proof (skipSpace_len rest) as Hsr.
      destruct (json.skipSpace rest) as [|c3 rest']; [split; intros; discriminate|].
      assert (L : (len rest' < len rest)%nat) by (unfold len in *; simpl in Hsr; lia).
      destruct (Ascii.eqb c3 ",").
      * destruct (IHm depth rest' (acc ++ [(key, v)])) as [F C]. split.
        -- intros Hf. apply F. lia.
        -- intros v0 r H. apply C in H. lia.
      * destruct (Ascii.eqb c3 "}"); [|split; intros; discriminate].
        split; [discriminate|]. intros v0 r [= <- <-]. lia.
    + split; intros; discriminate.
    + split; [|discriminate]. intros Hf _. apply Fv; [lia | reflexivity].
Qed.

(** [json.Unmarshal] returns: the model does not run out of fuel. *)
Lemma parse_not_Fuel (data : bytes) : json.parse data <> json.Fuel.
Proof.
  unfold json.parse.
  destruct (scanner_fuel (2 * len data + 2)) as (Hv & _ & _).
  destruct (Hv 0 data) as [F _].
  destruct (json.parseValue _ 0 data) as [[v rest]| |].
  - destruct (json.skipSpace rest); discriminate.
  - discriminate.
  - exfalso. apply F; [lia | reflexivity].
Qed.

Lemma Entries_not_Fuel (data : bytes) : unmarshal.Entries data <> json.Fuel.
Proof.
  unfold unmarshal.Entries. pose proof (parse_not_Fuel data).
  destruct (json.parse data) as [v| |]; try congruence.
  unfold unmarshal.storeSlice. destruct v; try discriminate.
  destruct (unmarshal.storeAll _ _); discriminate.
Qed.

Lemma Strings_not_Fuel (data : bytes) : unmarshal.Strings data <> json.Fuel.
Proof.
  unfold unmarshal.Strings. pose proof (parse_not_Fuel data).
  destruct (json.parse data) as [v| |]; try congruence.
  unfold unmarshal.storeSlice. destruct v; try discriminate.
  destruct (unmarshal.storeAll _ _); discriminate.
Qed.

(** ** The input normalizer *)

Lemma Join_empty_sep (l : list bytes) : strings.Join l [] = List.concat l.
Proof.
  induction l as [|e l IH]; simpl; [reflexivity|].
  destruct l as [|e' l]; [simpl; now rewrite app_nil_r|].
  rewrite IH. reflexivity.
Qed.

(** C7.  The normalizer returns no error on any input, and it returns the
    input itself, untrimmed, when the trimmed input is empty, when it
    does not start with an opening bracket, and when both decodings of
    the input fail. *)
Theorem parseDebugTermStdinData_passthrough (data : bytes) :
  (exists out, parseDebugTermStdinData data = Ok (out, None))
  /\ (strings.TrimSpace data = []
      \/ (exists c t, strings.TrimSpace data = c :: t /\ c <> "["%char)
      \/ (unmarshal.Entries data = json.Error
          /\ unmarshal.Strings data = json.Error) ->
      parseDebugTermStdinData data = Ok (data, None)).
Proof.
  unfold parseDebugTermStdinData.
  pose proof (Entries_not_Fuel data) as NE.
  pose proof (Strings_not_Fuel data) as NS.
  destruct (strings.TrimSpace data) as [|c t] eqn:Et.
  { simpl. split; eauto. }
  change (len (c :: t) =? 0)%nat with false. cbv iota.
  change (index (c :: t) 0) with (Ok c). cbn [bind].
  destruct (Ascii.eqb_spec c "[") as [->|Hc].
  - destruct (unmarshal.Entries data) as [es| |]; [| |congruence].
    + split; [eauto|]. intros [H | [(c' & t' & [= <- _] & H) | [H _]]]; congruence.
    + destruct (unmarshal.Strings data) as [ss| |]; [| |congruence].
      * split; [eauto|].
        intros [H | [(c' & t' & [= <- _] & H) | [_ H]]]; congruence.
      * split; eauto.
  - split; eauto.
Qed.

Lemma parseDebugTermStdinData_passthrough_witness :
  parseDebugTermStdinData (str "hello" ++ ESC :: str "[31mworld")
  = Ok (str "hello" ++ ESC :: str "[31mworld", None)
  /\ parseDebugTermStdinData (str " [1,2")
     = Ok (str " [1,2", None).
Proof.
  split.
  - apply (proj2 (parseDebugTermStdinData_passthrough _)).
    right; left. exists "h"%char, (str "ello" ++ ESC :: str "[31mworld").
    split; [reflexivity | discriminate].
  - apply (proj2 (parseDebugTermStdinData_passthrough _)).
    right; right. split; reflexivity.
Defined.

(** *** A JSON array starts with a bracket, also after the trimming *)

Lemma parseMembers_Object (fuel : nat) (depth : Z) (s : bytes)
      (acc : list (bytes * json.value)) (v : json.value) (r : bytes) :
  json.parseMembers fuel depth s acc = json.Done (v, r) ->
  exists ms, v = json.Object ms.
Proof.
  revert depth s acc.
  induction fuel as [|fuel IH]; intros depth s acc; [discriminate|].
  cbn [json.parseMembers].
  destruct (json.skipSpace s) as [|c s1]; [discriminate|].
  destruct (negb (Ascii.eqb c DQUOTE)); [discriminate|].
  destruct (json.stringLit s1) as [[key s2]|]; [|discriminate].
  destruct (json.skipSpace s2) as [|c2 s3]; [discriminate|].
  destruct (negb (Ascii.eqb c2 ":")); [discriminate|].
  destruct (json.parseValue fuel depth s3) as [[v0 rest]| |]; try discriminate.
  destruct (json.skipSpace rest) as [|c3 rest']; [discriminate|].
  destruct (Ascii.eqb c3 ","); [apply IH|].
  destruct (Ascii.eqb c3 "}"); [|discriminate].
  intros [= <- _]. eauto.
Qed.

Lemma parse_Array_bracket (data : bytes) (vs : list json.value) :
  json.parse data = json.Done (json.Array vs) ->
  exists s1, json.skipSpace data = "["%char :: s1.
Proof.
  unfold json.parse.
  destruct (json.parseValue _ 0 data) as [[v rest]| |] eqn:E; try discriminate.
  destruct (json.skipSpace rest); [|discriminate].
  intros [= ->]. revert E.
  replace (2 * len data + 2)%nat with (S (2 * len data + 1)) by lia.
  cbn [json.parseValue].
  destruct (json.skipSpace data) as [|c s1]; [discriminate|].
  destruct (Ascii.eqb_spec c "[") as [->|Hc]; [eauto|].
  destruct (Ascii.eqb c "{").
  { destruct (json.maxNestingDepth <? 0 + 1); [discriminate|].
    destruct (json.skipSpace s1) as [|c1 s2]; [discriminate|].
    destruct (Ascii.eqb c1 "}"); [discriminate|].
    intros H. apply parseMembers_Object in H. destruct H; discriminate. }
  destruct (Ascii.eqb c DQUOTE).
  { destruct (json.stringLit s1) as [[? ?]|]; discriminate. }
  destruct (Ascii.eqb c "-" || strconv.isDigit c).
  { destruct (json.numberLit (c :: s1)) as [[? ?]|]; discriminate. }
  unfold json.literal.
  repeat match goal with
  | |- context [if ?b then _ else _] => destruct b; try discriminate
  end.
Qed.

Lemma json_space (c : ascii) :
  json.isSpace c = true ->
  b2z c < 0x80 /\ strings.IsSpace (b2z c) = true.
Proof.
  unfold json.isSpace. intros H.
  repeat (apply orb_prop in H; destruct H as [H|H]);
    apply Ascii.eqb_eq in H; subst c; split; reflexivity.
Qed.

Lemma trimLeftSpace_bracket (ws rest : bytes) (fuel : nat) :
  Forall (fun c => json.isSpace c = true) ws ->
  (List.length ws < fuel)%nat ->
  strings.trimLeftSpace fuel (ws ++ "["%char :: rest) = "["%char :: rest.
Proof.
  intros F. revert fuel. induction F as [|c ws Hc _ IH]; intros fuel Hf.
  - destruct fuel as [|fuel]; [simpl in Hf; lia|]. reflexivity.
  - destruct fuel as [|fuel]; [simpl in Hf; lia|].
    destruct (json_space c Hc) as [A B].
    simpl app. cbn [strings.trimLeftSpace].
    rewrite (DecodeRune_ascii c _ A). rewrite B. simpl skipn.
    apply IH. simpl in Hf. lia.
Qed.

(** A space at the end of a string that starts with a bracket is not
    the bracket. *)
Lemma DecodeLastRune_bracket (s1 : bytes) (r : Z) (size : nat) :
  strings.DecodeLastRune ("["%char :: s1) = (r, size) ->
  strings.IsSpace r = true ->
  (1 <= size < len ("["%char :: s1))%nat.
Proof.
  unfold strings.DecodeLastRune.
  set (s := "["%char :: s1). set (e := len s).
  assert (He : e = S (len s1)) by reflexivity.
  replace (e =? 0)%nat with false by (symmetry; apply Nat.eqb_neq; lia).
  destruct (b2z (nth (e - 1) s zero) <? utf8.RuneSelf) eqn:E1.
  { intros [= <- <-] Hs. split; [lia|].
    destruct s1 as [|c s1']; [|unfold len in *; simpl in *; lia].
    vm_compute in Hs. discriminate. }
  match goal with
  | |- context [utf8.DecodeRune (skipn ?st s)] => set (start := st)
  end.
  destruct start as [|k] eqn:Es.
  { cbn [skipn]. subst s. rewrite DecodeRune_ascii by (vm_compute; reflexivity).
    destruct (0 + 1 =? e)%nat; intros [= <- <-] Hs; vm_compute in Hs; discriminate. }
  pose proof (DecodeRune_width (skipn (S k) s)) as W.
  destruct (skipn (S k) s) as [|c rest] eqn:Esk.
  { cbn [utf8.DecodeRune].
    destruct (S k + 0 =? e)%nat; intros [= <- <-] Hs; vm_compute in Hs; discriminate. }
  specialize (W ltac:(discriminate)).
  assert (Lk : len (c :: rest) = (e - S k)%nat).
  { rewrite <- Esk. apply len_skipn. }
  destruct (utf8.DecodeRune (c :: rest)) as [r' size'].
  destruct (S k + size' =? e)%nat eqn:E2.
  - apply Nat.eqb_eq in E2. intros [= <- <-] Hs. simpl in W. lia.
  - intros [= <- <-] Hs. vm_compute in Hs. discriminate.
Qed.

Lemma trimRightSpace_bracket (fuel : nat) (s1 : bytes) :
  exists t, strings.trimRightSpace fuel ("["%char :: s1) = "["%char :: t.
Proof.
  revert s1. induction fuel as [|fuel IH]; intros s1; [simpl; eauto|].
  cbn [strings.trimRightSpace].
  destruct (strings.DecodeLastRune ("["%char :: s1)) as [r size] eqn:E.
  destruct (strings.IsSpace r) eqn:Hs; [|eauto].
  pose proof (DecodeLastRune_bracket s1 r size E Hs) as B.
  replace (len ("["%char :: s1) - size)%nat with (S (len s1 - size))
    by (unfold len in *; cbn [List.length] in *; lia).
  cbn [firstn]. apply IH.
Qed.

Lemma TrimSpace_bracket (data s1 : bytes) :
  json.skipSpace data = "["%char :: s1 ->
  exists t, strings.TrimSpace data = "["%char :: t.
Proof.
  intros H. destruct (skipSpace_split data) as (ws & E & F). rewrite H in E.
  unfold strings.TrimSpace.
  assert (TL : strings.trimLeftSpace (len data) data = "["%char :: s1).
  { pose proof (trimLeftSpace_bracket ws s1 (len data) F) as T.
    rewrite <- E in T. apply T.
    rewrite E. unfold len. rewrite length_app. simpl. lia. }
  rewrite TL. apply trimRightSpace_bracket.
Qed.

(** *** Storing the values of an array *)

Lemma storeMembers_lastData (ms : list (bytes * json.value)) (e : debugTermStdinEntry) :
  dataTyped ms ->
  unmarshal.storeMembers ms e
  = Some {| Data := match lastData ms with Some s => s | None => Data e end |}.
Proof.
  revert e. induction ms as [|[k v] ms IH]; intros e T.
  - destruct e. reflexivity.
  - assert (T' : dataTyped ms) by (intros k' v' I; apply T; now right).
    cbn [unmarshal.storeMembers lastData].
    destruct (unmarshal.isDataKey k) eqn:Ek.
    + destruct (T k v (or_introl eq_refl) Ek) as [-> | [s ->]].
      * rewrite IH by exact T'. destruct (lastData ms); reflexivity.
      * rewrite IH by exact T'. destruct (lastData ms); reflexivity.
    + rewrite IH by exact T'. destruct (lastData ms); reflexivity.
Qed.

Lemma storeAll_objects (objs : list (list (bytes * json.value))) :
  Forall dataTyped objs ->
  unmarshal.storeAll unmarshal.storeEntry (map json.Object objs)
  = Some (map (fun ms => {| Data := dataField ms |}) objs).
Proof.
  induction 1 as [|ms objs T _ IH]; [reflexivity|].
  cbn [map unmarshal.storeAll unmarshal.storeEntry].
  rewrite (storeMembers_lastData ms _ T), IH. reflexivity.
Qed.



(** The normalizer on an input that is a JSON array: it takes the path
    of the decodings. *)
Lemma normalizer_array (data : bytes) (vs : list json.value) :
  json.parse data = json.Done (json.Array vs) ->
  parseDebugTermStdinData data
  = match unmarshal.storeAll unmarshal.storeEntry vs with
    | Some es => Ok (List.concat (map Data es), None)
    | None =>
      match unmarshal.storeAll unmarshal.storeString vs with
      | Some ss => Ok (List.concat ss, None)
      | None => Ok (data, None)
      end
    end.
Proof.
  intros P. destruct (parse_Array_bracket data vs P) as [s1 Hs].
  destruct (TrimSpace_bracket data s1 Hs) as [t Ht].
  unfold parseDebugTermStdinData, unmarshal.Entries, unmarshal.Strings.
  rewrite Ht, P. cbn.
  destruct (unmarshal.storeAll unmarshal.storeEntry vs).
  - now rewrite Join_empty_sep.
  - destruct (unmarshal.storeAll unmarshal.storeString vs).
    + now rewrite Join_empty_sep.
    + reflexivity.
Qed.

Lemma normalizer_object_array (data : bytes) (objs : list (list (bytes * json.value))) :
  json.parse data = json.Done (json.Array (map json.Object objs)) ->
  Forall dataTyped objs ->
  parseDebugTermStdinData data = Ok (List.concat (map dataField objs), None).
Proof.
  intros P T. rewrite (normalizer_array data _ P).
  rewrite (storeAll_objects objs T). rewrite map_map. reflexivity.
Qed.



(** An object whose member [data] holds a number is no entry: both
    decodings fail, and the input is returned as it is. *)
Lemma data_number_passthrough :
  let input := str "[{" ++ [DQUOTE] ++ str "data" ++ [DQUOTE] ++ str ":1}]" in
  unmarshal.Entries input = json.Error
  /\ parseDebugTermStdinData input = Ok (input, None).
Proof. cbv zeta. split; vm_compute; reflexivity. Qed.

(** C10.  When the input is a JSON array of objects whose members [data],
    where they have one, hold a string or [null], the normalizer returns
    the concatenation of the fields [data] of the objects; an object with
    no such member gives the empty string, and the array of the one
    object with the one member [other] gives the empty buffer, not the
    input itself. *)
Theorem object_array_data_fields :
  (forall (data : bytes) (objs : list (list (bytes * json.value))),
     json.parse data = json.Done (json.Array (map json.Object objs)) ->
     Forall dataTyped objs ->
     parseDebugTermStdinData data = Ok (List.concat (map dataField objs), None))
  /\ (forall ms : list (bytes * json.value),
        (forall k v, In (k, v) ms -> unmarshal.isDataKey k = false) ->
        dataTyped ms /\ dataField ms = [])
  /\ parseDebugTermStdinData
       (str "[{" ++ [DQUOTE] ++ str "other" ++ [DQUOTE] ++ str ":1}]")
     = Ok ([], None).
Proof.
  split; [|split].
  - exact normalizer_object_array.
  - intros ms H. split.
    + intros k v I E. rewrite (H k v I) in E. discriminate.
    + unfold dataField.
      assert (L : lastData ms = None); [|now rewrite L].
      induction ms as [|[k v] ms IH]; [reflexivity|].
      cbn [lastData]. rewrite IH by (intros k' v' I; apply (H k' v'); now right).
      rewrite (H k v (or_introl eq_refl)). reflexivity.
  - vm_compute. reflexivity.
Qed.

Lemma object_array_data_fields_witness :
  let q := [DQUOTE] in
  parseDebugTermStdinData
    (str "[{" ++ q ++ str "data" ++ q ++ str ":" ++ q ++ str "a" ++ q
     ++ str "},{" ++ q ++ str "x" ++ q ++ str ":2},{" ++ q ++ str "Data" ++ q
     ++ str ":" ++ q ++ str "b" ++ q ++ str "}]")
  = Ok (str "ab", None).
Proof.
  cbv zeta.
  apply (proj1 object_array_data_fields _
           [[(str "data", json.String (str "a"))];
            [(str "x", json.Number (str "2"))];
            [(str "Data", json.String (str "b"))]]).
  - vm_compute. reflexivity.
  - apply Forall_cons; [|apply Forall_cons; [|apply Forall_cons; [|apply Forall_nil]]];
      intros k v I E; destruct I as [[= <- <-]|[]];
      first [right; eexists; reflexivity | vm_compute in E; discriminate].
Defined.

(** ** The loops that run on fuel have come to their end *)

(** The loop of [appendQuotedWith] consumes one byte or more in each
    iteration: more fuel than the length of the string changes nothing. *)
Lemma quoteLoop_fuel (isPrintTable : Z -> bool) (ASCIIonly : bool)
      (fuel : nat) (s : bytes) :
  (len s <= fuel)%nat ->
  strconv.quoteLoop isPrintTable fuel ASCIIonly s
  = strconv.quoteLoop isPrintTable (len s) ASCIIonly s.
Proof.
  remember (len s) as n eqn:Hn. revert s fuel Hn.
  induction n as [n IH] using lt_wf_ind. intros s fuel Hn Hf.
  destruct s as [|c s1].
  { subst n. destruct fuel; reflexivity. }
  destruct n as [|n]; [discriminate|]. destruct fuel as [|fuel]; [lia|].
  cbn [strconv.quoteLoop].
  pose proof (DecodeRune_width (c :: s1) ltac:(discriminate)) as W.
  set (p := if utf8.RuneSelf <=? b2z c then utf8.DecodeRune (c :: s1)
            else (b2z c, 1%nat)).
  assert (Hp : (1 <= snd p <= len (c :: s1))%nat).
  { subst p. destruct (utf8.RuneSelf <=? b2z c); [exact W|].
    unfold len; simpl; lia. }
  destruct p as [r width]. simpl in Hp.
  f_equal.
  assert (L : (len (skipn width (c :: s1)) < S n)%nat).
  { rewrite len_skipn. rewrite <- Hn. lia. }
  transitivity (strconv.quoteLoop isPrintTable (len (skipn width (c :: s1)))
                  ASCIIonly (skipn width (c :: s1))).
  - apply (IH _ L); [reflexivity | lia].
  - symmetry. apply (IH _ L); [reflexivity | lia].
Qed.

Lemma trimLeftSpace_fuel (fuel : nat) (s : bytes) :
  (len s <= fuel)%nat ->
  strings.trimLeftSpace fuel s = strings.trimLeftSpace (len s) s.
Proof.
  remember (len s) as n eqn:Hn. revert s fuel Hn.
  induction n as [n IH] using lt_wf_ind. intros s fuel Hn Hf.
  destruct s as [|c s1].
  { subst n. destruct fuel; reflexivity. }
  destruct n as [|n]; [discriminate|]. destruct fuel as [|fuel]; [lia|].
  cbn [strings.trimLeftSpace].
  pose proof (DecodeRune_width (c :: s1) ltac:(discriminate)) as W.
  destruct (utf8.DecodeRune (c :: s1)) as [r w]. simpl in W.
  destruct (strings.IsSpace r); [|reflexivity].
  assert (L : (len (skipn w (c :: s1)) < S n)%nat).
  { rewrite len_skipn. rewrite <- Hn. lia. }
  transitivity (strings.trimLeftSpace (len (skipn w (c :: s1))) (skipn w (c :: s1))).
  - apply (IH _ L); [reflexivity | lia].
  - symmetry. apply (IH _ L); [reflexivity | lia].
Qed.

Lemma DecodeLastRune_width (s : bytes) :
  s <> [] ->
  (1 <= snd (strings.DecodeLastRune s) <= len s)%nat.
Proof.
  intros Hs. unfold strings.DecodeLastRune.
  set (e := len s).
  assert (He : (1 <= e)%nat).
  { subst e. destruct s; [congruence | unfold len; simpl; lia]. }
  replace (e =? 0)%nat with false by (symmetry; apply Nat.eqb_neq; lia).
  destruct (b2z (nth (e - 1) s zero) <? utf8.RuneSelf); [simpl; lia|].
  match goal with
  | |- context [utf8.DecodeRune (skipn ?st s)] => set (start := st)
  end.
  assert (Hst : (start < e)%nat).
  { subst start. unfold utf8.UTFMax.
    repeat match goal with
           | |- context [if ?b then _ else _] => destruct b
           end; lia. }
  pose proof (DecodeRune_width (skipn start s)) as W.
  pose proof (len_skipn s start) as Lk. change (len s) with e in Lk.
  clearbody start. clearbody e.
  destruct (skipn start s) as [|c rest] eqn:Esk.
  { exfalso. unfold len in Lk. simpl in Lk. clear - Lk Hst. lia. }
  specialize (W ltac:(discriminate)). rewrite Lk in W.
  destruct (utf8.DecodeRune (c :: rest)) as [r size]. cbn [snd] in W.
  destruct (start + size =? e)%nat; simpl; lia.
Qed.

Lemma trimRightSpace_fuel (fuel : nat) (s : bytes) :
  (len s <= fuel)%nat ->
  strings.trimRightSpace fuel s = strings.trimRightSpace (len s) s.
Proof.
  remember (len s) as n eqn:Hn. revert s fuel Hn.
  induction n as [n IH] using lt_wf_ind. intros s fuel Hn Hf.
  destruct s as [|c s1].
  { subst n. destruct fuel; reflexivity. }
  destruct n as [|n]; [discriminate|]. destruct fuel as [|fuel]; [lia|].
  cbn [strings.trimRightSpace].
  pose proof (DecodeLastRune_width (c :: s1) ltac:(discriminate)) as W.
  destruct (strings.DecodeLastRune (c :: s1)) as [r size]. simpl in W.
  destruct (strings.IsSpace r); [|reflexivity].
  assert (L : (len (firstn (len (c :: s1) - size) (c :: s1)) < S n)%nat).
  { unfold len in *. rewrite length_firstn. lia. }
  transitivity (strings.trimRightSpace
                  (len (firstn (len (c :: s1) - size) (c :: s1)))
                  (firstn (len (c :: s1) - size) (c :: s1))).
  - apply (IH _ L); [reflexivity | lia].
  - symmetry. apply (IH _ L); [reflexivity | lia].
Qed.

(** ** UTF-8: encoding a decoded rune gives its bytes back *)

Lemma z2b_b2z (c : ascii) : z2b (b2z c) = c.
Proof.
  unfold z2b, b2z. pose proof (N_ascii_bounded c).
  rewrite Z.mod_small by lia. rewrite N2Z.id. apply ascii_N_embedding.
Qed.

Lemma lor_shift_add (a b k : Z) :
  0 <= k -> 0 <= b < 2 ^ k -> Z.lor (a * 2 ^ k) b = a * 2 ^ k + b.
Proof.
  intros Hk Hb.
  assert (L : Z.land (a * 2 ^ k) b = 0).
  { apply Z.bits_inj'. intros n Hn. rewrite Z.land_spec, Z.bits_0.
    destruct (Z.ltb_spec n k).
    - rewrite Z.mul_pow2_bits_low by lia. reflexivity.
    - destruct (Z.eq_dec b 0) as [->|Hb0].
      + rewrite Z.bits_0. apply andb_false_r.
      + rewrite (Z.bits_above_log2 b n); [apply andb_false_r | lia |].
        assert (Z.log2 b < k) by (apply Z.log2_lt_pow2; lia). lia. }
  rewrite <- Z.lxor_lor by exact L. symmetry. apply Z.add_nocarry_lxor. exact L.
Qed.

Lemma first_cases (p0 : Z) :
  0 <= p0 < 256 ->
  (utf8.first p0 = 0xF0 /\ p0 < 0x80)
  \/ (utf8.first p0 = 0xF1 /\ (0x80 <= p0 < 0xC2 \/ 0xF5 <= p0))
  \/ (utf8.first p0 = 0x02 /\ 0xC2 <= p0 < 0xE0)
  \/ (utf8.first p0 = 0x13 /\ p0 = 0xE0)
  \/ (utf8.first p0 = 0x03 /\ (0xE1 <= p0 < 0xED \/ 0xEE <= p0 < 0xF0))
  \/ (utf8.first p0 = 0x23 /\ p0 = 0xED)
  \/ (utf8.first p0 = 0x34 /\ p0 = 0xF0)
  \/ (utf8.first p0 = 0x04 /\ 0xF1 <= p0 < 0xF4)
  \/ (utf8.first p0 = 0x44 /\ p0 = 0xF4).
Proof.
  intros H. unfold utf8.first.
  repeat match goal with
  | |- context [?a <? ?b] => destruct (Z.ltb_spec a b)
  | |- context [?a =? ?b] => destruct (Z.eqb_spec a b)
  end; lia.
Qed.

Lemma land_mask (b n : Z) (m : Z) :
  0 <= n -> m = Z.ones n -> Z.land b m = b mod 2 ^ n.
Proof. intros Hn ->. apply Z.land_ones. exact Hn. Qed.

Ltac bits_to_arith :=
  repeat match goal with
  | |- context [Z.land ?b 0x3F] => rewrite (land_mask b 6 0x3F) by (lia || reflexivity)
  | |- context [Z.land ?b 0x1F] => rewrite (land_mask b 5 0x1F) by (lia || reflexivity)
  | |- context [Z.land ?b 0x0F] => rewrite (land_mask b 4 0x0F) by (lia || reflexivity)
  | |- context [Z.land ?b 0x07] => rewrite (land_mask b 3 0x07) by (lia || reflexivity)
  | |- context [Z.shiftl ?b ?k] => rewrite (Z.shiftl_mul_pow2 b k) by lia
  | |- context [Z.shiftr ?b ?k] => rewrite (Z.shiftr_div_pow2 b k) by lia
  end.

Ltac pow_norm :=
  change (2 ^ 3) with 8 in *; change (2 ^ 4) with 16 in *;
  change (2 ^ 5) with 32 in *; change (2 ^ 6) with 64 in *;
  change (2 ^ 12) with 4096 in *; change (2 ^ 18) with 262144 in *.

Lemma lor_add (x b k a : Z) :
  0 <= k -> x = a * 2 ^ k -> 0 <= b < 2 ^ k -> Z.lor x b = x + b.
Proof. intros Hk -> Hb. now apply lor_shift_add. Qed.

Ltac zlia := pow_norm; Z.div_mod_to_equations; lia.

Lemma bits2 (p0 b1 : Z) :
  0xC2 <= p0 < 0xE0 -> 0x80 <= b1 <= 0xBF ->
  Z.lor (Z.shiftl (Z.land p0 0x1F) 6) (Z.land b1 0x3F)
  = (p0 - 0xC0) * 64 + (b1 - 0x80).
Proof.
  intros H0 H1. bits_to_arith. pow_norm.
  rewrite (lor_add _ _ 6 (p0 mod 32)) by zlia.
  zlia.
Qed.

Lemma bits3 (p0 b1 b2 : Z) :
  0xE0 <= p0 < 0xF0 -> 0x80 <= b1 <= 0xBF -> 0x80 <= b2 <= 0xBF ->
  Z.lor (Z.lor (Z.shiftl (Z.land p0 0x0F) 12) (Z.shiftl (Z.land b1 0x3F) 6))
        (Z.land b2 0x3F)
  = (p0 - 0xE0) * 4096 + (b1 - 0x80) * 64 + (b2 - 0x80).
Proof.
  intros H0 H1 H2. bits_to_arith. pow_norm.
  rewrite (lor_add (p0 mod 16 * 4096) _ 12 (p0 mod 16)) by zlia.
  rewrite (lor_add _ _ 6 (p0 mod 16 * 64 + b1 mod 64)) by zlia.
  zlia.
Qed.

Lemma bits4 (p0 b1 b2 b3 : Z) :
  0xF0 <= p0 <= 0xF4 -> 0x80 <= b1 <= 0xBF -> 0x80 <= b2 <= 0xBF ->
  0x80 <= b3 <= 0xBF ->
  Z.lor (Z.lor (Z.lor (Z.shiftl (Z.land p0 0x07) 18)
                      (Z.shiftl (Z.land b1 0x3F) 12))
               (Z.shiftl (Z.land b2 0x3F) 6))
        (Z.land b3 0x3F)
  = (p0 - 0xF0) * 262144 + (b1 - 0x80) * 4096 + (b2 - 0x80) * 64 + (b3 - 0x80).
Proof.
  intros H0 H1 H2 H3. bits_to_arith. pow_norm.
  rewrite (lor_add (p0 mod 8 * 262144) _ 18 (p0 mod 8)) by zlia.
  rewrite (lor_add (p0 mod 8 * 262144 + b1 mod 64 * 4096) _ 12
             (p0 mod 8 * 64 + b1 mod 64)) by zlia.
  rewrite (lor_add _ _ 6 (p0 mod 8 * 4096 + b1 mod 64 * 64 + b2 mod 64))
    by zlia.
  zlia.
Qed.





(** Evaluating the comparisons of [DecodeRune] once the entry of the
    table [first] is known. *)
Ltac is_num z :=
  lazymatch z with
  | Z0 => idtac
  | Zpos _ => idtac
  | Zneg _ => idtac
  end.

Ltac eval_closed :=
  repeat match goal with
  | |- context [Z.land ?a ?b] =>
    is_num a; is_num b;
    let v := eval vm_compute in (Z.land a b) in change (Z.land a b) with v
  | |- context [Z.shiftr ?a ?b] =>
    is_num a; is_num b;
    let v := eval vm_compute in (Z.shiftr a b) in change (Z.shiftr a b) with v
  | |- context [utf8.acceptRanges ?a] =>
    is_num a;
    let v := eval vm_compute in (utf8.acceptRanges a) in
    change (utf8.acceptRanges a) with v
  | |- context [?a <=? ?b] =>
    is_num a; is_num b;
    let v := eval vm_compute in (a <=? b) in change (a <=? b) with v
  | |- context [?a =? ?b] =>
    is_num a; is_num b;
    let v := eval vm_compute in (a =? b) in change (a =? b) with v
  end; cbv iota beta.

Lemma DecodeRune_encoding (s : bytes) (r : Z) (size : nat) :
  utf8.DecodeRune s = (r, size) -> (2 <= size)%nat ->
  exists p t, s = p ++ t /\ len p = size /\ encoding p r.
Proof.
  destruct s as [|c0 p1]; [intros [= <- <-]; lia|].
  unfold utf8.DecodeRune.
  pose proof (b2z_range c0) as R0.
  destruct (first_cases (b2z c0) R0) as
    [[E H]|[[E H]|[[E H]|[[E H]|[[E H]|[[E H]|[[E H]|[[E H]|[E H]]]]]]]]];
    rewrite E; cbv zeta; eval_closed;
    try (intros [= <- <-]; lia).
  all: destruct (Z.of_nat (len (c0 :: p1)) <? _); [intros [= <- <-]; lia|].
  all: destruct p1 as [|c1 p2]; [intros [= <- <-]; lia|].
  all: match goal with
       | |- context [(b2z ?c <? ?lo) || (?hi <? b2z ?c)] =>
         pose proof (b2z_range c) as R1;
         destruct (Z.ltb_spec (b2z c) lo); [intros [= <- <-]; lia|];
         destruct (Z.ltb_spec hi (b2z c)); [intros [= <- <-]; lia|]
       end; cbn [orb].
  all: try (destruct p2 as [|c2 p3]; [intros [= <- <-]; lia|];
            pose proof (b2z_range c2) as R2; unfold utf8.cont;
            destruct (Z.leb_spec 128 (b2z c2)); [|intros [= <- <-]; lia];
            destruct (Z.leb_spec (b2z c2) 191); [|intros [= <- <-]; lia];
            cbn [andb negb]).
  all: try (destruct p3 as [|c3 p4]; [intros [= <- <-]; lia|];
            pose proof (b2z_range c3) as R3;
            destruct (Z.leb_spec 128 (b2z c3)); [|intros [= <- <-]; lia];
            destruct (Z.leb_spec (b2z c3) 191); [|intros [= <- <-]; lia];
            cbn [andb negb]).
  all: intros Heq _; apply pair_equal_spec in Heq; destruct Heq as [<- <-].
  - exists [c0; c1], p2. (split; [reflexivity | split; [reflexivity|]]). rewrite bits2 by lia. apply enc2; lia.
  - exists [c0; c1; c2], p3. (split; [reflexivity | split; [reflexivity|]]). rewrite bits3 by lia.
    eapply enc3; try reflexivity; try lia.
    destruct (Z.eqb_spec (b2z c0) 224); destruct (Z.eqb_spec (b2z c0) 237); lia.
  - exists [c0; c1; c2], p3. (split; [reflexivity | split; [reflexivity|]]). rewrite bits3 by lia.
    eapply enc3; try reflexivity; try lia.
    destruct (Z.eqb_spec (b2z c0) 224); destruct (Z.eqb_spec (b2z c0) 237); lia.
  - exists [c0; c1; c2], p3. (split; [reflexivity | split; [reflexivity|]]). rewrite bits3 by lia.
    eapply enc3; try reflexivity; try lia.
    destruct (Z.eqb_spec (b2z c0) 224); destruct (Z.eqb_spec (b2z c0) 237); lia.
  - exists [c0; c1; c2; c3], p4. (split; [reflexivity | split; [reflexivity|]]). rewrite bits4 by lia.
    eapply enc4; try reflexivity; try lia.
    destruct (Z.eqb_spec (b2z c0) 240); destruct (Z.eqb_spec (b2z c0) 244); lia.
  - exists [c0; c1; c2; c3], p4. (split; [reflexivity | split; [reflexivity|]]). rewrite bits4 by lia.
    eapply enc4; try reflexivity; try lia.
    destruct (Z.eqb_spec (b2z c0) 240); destruct (Z.eqb_spec (b2z c0) 244); lia.
  - exists [c0; c1; c2; c3], p4. (split; [reflexivity | split; [reflexivity|]]). rewrite bits4 by lia.
    eapply enc4; try reflexivity; try lia.
    destruct (Z.eqb_spec (b2z c0) 240); destruct (Z.eqb_spec (b2z c0) 244); lia.
Qed.

Lemma encoding_DecodeRune (p : bytes) (r : Z) (t : bytes) :
  encoding p r -> utf8.DecodeRune (p ++ t) = (r, len p).
Proof.
  intros En. destruct En as [c0 c1 H0 H1 | c0 c1 c2 lo hi H0 -> -> H1 H2
                            | c0 c1 c2 c3 lo hi H0 -> -> H1 H2 H3];
    cbn [app]; unfold utf8.DecodeRune;
    pose proof (b2z_range c0) as R0;
    destruct (first_cases (b2z c0) R0) as
      [[E H]|[[E H]|[[E H]|[[E H]|[[E H]|[[E H]|[[E H]|[[E H]|[E H]]]]]]]]];
    try lia; rewrite E; cbv zeta; eval_closed.
  all: match goal with
       | |- context [Z.of_nat (len ?l) <? ?k] =>
         replace (Z.of_nat (len l) <? k) with false
           by (symmetry; apply Z.ltb_ge; unfold len; cbn [List.length]; lia)
       end.
  all: match goal with
       | |- context [(b2z ?c <? ?lo) || (?hi <? b2z ?c)] =>
         replace ((b2z c <? lo) || (hi <? b2z c)) with false
           by (symmetry; apply orb_false_iff; split; apply Z.ltb_ge;
               repeat match goal with
               | H : context [?a =? ?b] |- _ => destruct (Z.eqb_spec a b)
               end; lia)
       end.
  all: unfold utf8.cont.
  all: repeat match goal with
       | |- context [(128 <=? b2z ?c) && (b2z ?c <=? 191)] =>
         replace ((128 <=? b2z c) && (b2z c <=? 191)) with true
           by (symmetry; apply andb_true_iff; split; apply Z.leb_le; lia)
       end; cbn [negb].
  - rewrite bits2 by lia. reflexivity.
  - rewrite bits3; [reflexivity | lia | | lia].
    destruct (Z.eqb_spec (b2z c0) 224); destruct (Z.eqb_spec (b2z c0) 237); lia.
  - rewrite bits3; [reflexivity | lia | | lia].
    destruct (Z.eqb_spec (b2z c0) 224); destruct (Z.eqb_spec (b2z c0) 237); lia.
  - rewrite bits3; [reflexivity | lia | | lia].
    destruct (Z.eqb_spec (b2z c0) 224); destruct (Z.eqb_spec (b2z c0) 237); lia.
  - rewrite bits4; [reflexivity | lia | | lia | lia].
    destruct (Z.eqb_spec (b2z c0) 240); destruct (Z.eqb_spec (b2z c0) 244); lia.
  - rewrite bits4; [reflexivity | lia | | lia | lia].
    destruct (Z.eqb_spec (b2z c0) 240); destruct (Z.eqb_spec (b2z c0) 244); lia.
  - rewrite bits4; [reflexivity | lia | | lia | lia].
    destruct (Z.eqb_spec (b2z c0) 240); destruct (Z.eqb_spec (b2z c0) 244); lia.
Qed.

Lemma encoding_high (p : bytes) (r : Z) :
  encoding p r -> Forall (fun c => 0x80 <= b2z c) p /\ (2 <= len p <= 4)%nat.
Proof.
  destruct 1 as [c0 c1 H0 H1 | c0 c1 c2 lo hi H0 -> -> H1 H2
                | c0 c1 c2 c3 lo hi H0 -> -> H1 H2 H3];
    (split; [|unfold len; simpl; lia]);
    repeat constructor; try lia;
    repeat match goal with
    | H : context [?a =? ?b] |- _ => destruct (Z.eqb_spec a b)
    end; lia.
Qed.

(** A first byte of 0x80 or more decodes to the rune error when the
    width is one. *)
Lemma DecodeRune_width1 (c : ascii) (t : bytes) (r : Z) :
  0x80 <= b2z c -> utf8.DecodeRune (c :: t) = (r, 1%nat) -> r = utf8.RuneError.
Proof.
  intros Hc. unfold utf8.DecodeRune.
  pose proof (b2z_range c) as R0.
  destruct (first_cases (b2z c) R0) as
    [[E H]|[[E H]|[[E H]|[[E H]|[[E H]|[[E H]|[[E H]|[[E H]|[E H]]]]]]]]];
    try lia; rewrite E; cbv zeta; eval_closed;
    repeat match goal with
    | |- context [if ?b then _ else _] => destruct b
    | |- context [match ?l with [] => _ | _ :: _ => _ end] => destruct l
    end;
    intros Heq; apply pair_equal_spec in Heq; destruct Heq as [<- Hs];
    first [reflexivity | discriminate].
Qed.

(** ** The JSON text of a string is scanned back to the string *)











(** ** The decoding of the two encodings *)


Lemma Join_cons (e g : bytes) (l : list bytes) (sep : bytes) :
  strings.Join (e :: g :: l) sep = e ++ sep ++ strings.Join (g :: l) sep.
Proof. reflexivity. Qed.


Lemma encodeString_len (f : bytes) : (1 <= len (encodeString f))%nat.
Proof. unfold encodeString, len. cbn [app List.length]. lia. Qed.

Lemma encodeObject_len (f : bytes) : (1 <= len (encodeObject f))%nat.
Proof. unfold encodeObject, len. cbn [str list_ascii_of_string app List.length]. lia. Qed.



(** The elements of an array whose texts are [enc g], each of them read
    as [val g] with the fuel [k]. *)
Section Elements.

Variables (enc : bytes -> bytes) (val : bytes -> json.value) (k : nat).
Variable depth : Z.
Hypothesis read : forall (fuel : nat) (f rest : bytes),
  Valid f = true -> (k <= fuel)%nat ->
  json.parseValue fuel depth (enc f ++ rest) = json.Done (val f, rest).


Hypothesis first : forall f : bytes, exists c t,
  enc f = c :: t /\ json.isSpace c = false /\ Ascii.eqb c "]" = false.
Hypothesis nested : 0 + 1 = depth.


End Elements.




(** A fragment that is not UTF-8 has no JSON text: the decoding of a
    string literal coerces the byte 0xFF to U+FFFD. *)
Lemma invalid_utf8_is_coerced :
  Valid ["255"%char] = false
  /\ parseDebugTermStdinData (encodeStrings [["255"%char]])
     = Ok (["239"; "191"; "189"]%char, None).
Proof. split; vm_compute; reflexivity. Qed.



(** * Further properties of the scanner *)

From Stdlib Require DecimalPos.

(** ** Indexing a buffer that is given in pieces *)

Lemma skipn_len_app (pre rest : bytes) : skipn (len pre) (pre ++ rest) = rest.
Proof.
  unfold len. rewrite skipn_app, skipn_all, Nat.sub_diag. reflexivity.
Qed.

Lemma skipn_len_app_plus (pre x rest : bytes) :
  skipn (len pre + len x) (pre ++ x ++ rest) = rest.
Proof.
  rewrite app_assoc.
  replace (len pre + len x)%nat with (len (pre ++ x))
    by (unfold len; now rewrite length_app).
  apply skipn_len_app.
Qed.

Lemma len_app (a b : bytes) : len (a ++ b) = (len a + len b)%nat.
Proof. unfold len. apply length_app. Qed.

Lemma len_cons (c : ascii) (a : bytes) : len (c :: a) = S (len a).
Proof. reflexivity. Qed.

Ltac len_solve :=
  unfold len in *; cbn [List.length app] in *;
  rewrite ?length_app in *; cbn [List.length] in *; lia.

Lemma index_len_app (pre : bytes) (c : ascii) (rest : bytes) :
  index (pre ++ c :: rest) (len pre) = Ok c.
Proof.
  apply index_Ok. unfold len. rewrite nth_error_app2 by lia.
  rewrite Nat.sub_diag. reflexivity.
Qed.

Lemma slice_len_app (pre x rest : bytes) :
  slice (pre ++ x ++ rest) (len pre) (len pre + len x) = Ok x.
Proof.
  rewrite slice_Ok by (rewrite !len_app; lia).
  rewrite skipn_len_app.
  replace (len pre + len x - len pre)%nat with (len x) by lia.
  unfold len. rewrite firstn_app, firstn_all, Nat.sub_diag. cbn [firstn].
  now rewrite app_nil_r.
Qed.

Lemma sliceFrom_len_app (pre rest : bytes) :
  sliceFrom (pre ++ rest) (len pre) = Ok rest.
Proof.
  rewrite sliceFrom_Ok by (rewrite len_app; lia).
  now rewrite skipn_len_app.
Qed.

(** ** The three consume functions, on a buffer given in pieces *)

Lemma csiLoop_final (params : bytes) (f : ascii) (post : bytes) (i : nat) :
  Forall (fun b => isFinalByte b = false) params ->
  isFinalByte f = true ->
  csiLoop (params ++ f :: post) i = Some (i + len params)%nat.
Proof.
  intros Hp Hf. revert i.
  induction Hp as [|b params Hb _ IH]; intros i; cbn [app csiLoop].
  - unfold isFinalByte in Hf. rewrite Hf. f_equal. unfold len. simpl. lia.
  - unfold isFinalByte in Hb. rewrite Hb. rewrite IH. f_equal.
    rewrite len_cons. lia.
Qed.

Lemma oscLoop_term (payload term post : bytes) (i : nat) :
  oscPlain payload = true ->
  term = [BEL] \/ term = [ESC; "\"%char] ->
  oscLoop (payload ++ term ++ post) i = Some (i + len payload + len term)%nat.
Proof.
  intros Hp Ht. revert i Hp.
  induction payload as [|b payload IH]; intros i Hp.
  - cbn [app]. destruct Ht as [-> | ->]; cbn; f_equal; lia.
  - cbn [oscPlain] in Hp.
    apply andb_true_iff in Hp. destruct Hp as [Hp H3].
    apply andb_true_iff in Hp. destruct Hp as [H1 H2].
    apply negb_true_iff in H1. apply negb_true_iff in H2.
    cbn [app oscLoop]. rewrite H1.
    assert (E : match payload ++ term ++ post with
                | c :: _ => Ascii.eqb c "\"
                | [] => false
                end
                = if Ascii.eqb b ESC
                  then match payload with
                       | c :: _ => Ascii.eqb c "\"
                       | [] => false
                       end
                  else match payload ++ term ++ post with
                       | c :: _ => Ascii.eqb c "\"
                       | [] => false
                       end).
    { destruct (Ascii.eqb b ESC); [|reflexivity].
      destruct payload as [|c payload]; [|reflexivity].
      destruct Ht as [-> | ->]; reflexivity. }
    rewrite E. clear E.
    destruct (Ascii.eqb b ESC) eqn:Eb.
    + cbn [andb] in H2 |- *. rewrite H2.
      rewrite (IH (S i) H3). f_equal. rewrite len_cons. lia.
    + cbn [andb]. rewrite (IH (S i) H3). f_equal. rewrite len_cons. lia.
Qed.

Lemma stLoop_term (payload post : bytes) (i : nat) :
  stPlain payload = true ->
  stLoop (payload ++ ESC :: "\"%char :: post) i = Some (i + len payload + 2)%nat.
Proof.
  intros Hp. revert i Hp.
  induction payload as [|b payload IH]; intros i Hp.
  - cbn. f_equal. lia.
  - cbn [stPlain] in Hp.
    apply andb_true_iff in Hp. destruct Hp as [H2 H3].
    apply negb_true_iff in H2.
    cbn [app stLoop].
    destruct (Ascii.eqb b ESC) eqn:Eb.
    + cbn [andb] in H2 |- *.
      destruct payload as [|c payload].
      * pose proof (IH (S i) H3) as R. cbn [app] in R |- *.
        change (Ascii.eqb ESC "\") with false. rewrite R. f_equal.
        unfold len. cbn [List.length]. lia.
      * pose proof (IH (S i) H3) as R. cbn [app] in R |- *.
        rewrite H2, R. f_equal. rewrite !len_cons. lia.
    + cbn [andb]. rewrite (IH (S i) H3). f_equal. rewrite len_cons. lia.
Qed.

Lemma stLoop_none (payload : bytes) (i : nat) :
  stPlain payload = true -> stLoop payload i = None.
Proof.
  revert i. induction payload as [|b payload IH]; intros i Hp; [reflexivity|].
  cbn [stPlain] in Hp.
  apply andb_true_iff in Hp. destruct Hp as [H2 H3].
  apply negb_true_iff in H2. cbn [stLoop]. rewrite H2. now apply IH.
Qed.

Lemma oscLoop_plain (payload : bytes) (i : nat) :
  oscPlain payload = true -> oscLoop payload i = None.
Proof.
  revert i. induction payload as [|b payload IH]; intros i Hp; [reflexivity|].
  cbn [oscPlain] in Hp.
  apply andb_true_iff in Hp. destruct Hp as [Hp H3].
  apply andb_true_iff in Hp. destruct Hp as [H1 H2].
  apply negb_true_iff in H1. apply negb_true_iff in H2.
  cbn [oscLoop]. rewrite H1, H2. now apply IH.
Qed.

(** ** The run of text, forwards *)

Lemma isPlainByte_cases (c : ascii) :
  isPlainByte c = true ->
  Ascii.eqb c ESC = false /\ Ascii.eqb c BEL = false
  /\ b2z c < 0x80
  /\ (Ascii.eqb c LF || Ascii.eqb c CR || Ascii.eqb c TAB = true
      \/ isDebugTermC0Control c = false).
Proof.
  unfold isPlainByte, isDebugTermC0Control. intros H.
  destruct (Ascii.eqb_spec c LF) as [E|_];
    [subst c; split; [reflexivity|split; [reflexivity|split; [reflexivity|left; reflexivity]]]|].
  destruct (Ascii.eqb_spec c CR) as [E|_];
    [subst c; split; [reflexivity|split; [reflexivity|split; [reflexivity|left; reflexivity]]]|].
  destruct (Ascii.eqb_spec c TAB) as [E|_];
    [subst c; split; [reflexivity|split; [reflexivity|split; [reflexivity|left; reflexivity]]]|].
  cbn [orb] in H. apply andb_true_iff in H. destruct H as [H1 H2].
  apply Z.leb_le in H1. apply Z.ltb_lt in H2.
  assert (N : forall d, b2z d < 0x20 -> Ascii.eqb c d = false).
  { intros d Hd. apply Ascii.eqb_neq. intros ->. lia. }
  repeat split.
  - apply N. vm_compute. reflexivity.
  - apply N. vm_compute. reflexivity.
  - lia.
  - right. apply orb_false_iff. split; [apply Z.ltb_ge | apply Z.eqb_neq]; lia.
Qed.

Lemma encoding_head (p : bytes) (r : Z) :
  encoding p r -> exists c t, p = c :: t /\ 0x80 <= b2z c /\ (2 <= len p)%nat.
Proof.
  intros E. destruct (encoding_high p r E) as [F L].
  destruct p as [|c t]; [unfold len in L; simpl in L; lia|].
  exists c, t. inversion F; subst. repeat split; [assumption | lia].
Qed.

Lemma high_byte_cases (c : ascii) :
  0x80 <= b2z c ->
  Ascii.eqb c ESC = false /\ Ascii.eqb c BEL = false
  /\ Ascii.eqb c LF = false /\ Ascii.eqb c CR = false /\ Ascii.eqb c TAB = false
  /\ isDebugTermC0Control c = false /\ (b2z c <? 0x80) = false
  /\ isPlainByte c = false.
Proof.
  intros H.
  assert (N : forall d, b2z d < 0x80 -> Ascii.eqb c d = false).
  { intros d Hd. apply Ascii.eqb_neq. intros ->. lia. }
  assert (E1 := N ESC ltac:(vm_compute; reflexivity)).
  assert (E2 := N BEL ltac:(vm_compute; reflexivity)).
  assert (E3 := N LF ltac:(vm_compute; reflexivity)).
  assert (E4 := N CR ltac:(vm_compute; reflexivity)).
  assert (E5 := N TAB ltac:(vm_compute; reflexivity)).
  repeat split; auto.
  - unfold isDebugTermC0Control. apply orb_false_iff.
    split; [apply Z.ltb_ge | apply Z.eqb_neq]; lia.
  - apply Z.ltb_ge. lia.
  - unfold isPlainByte. rewrite E3, E4, E5. cbn [orb].
    apply andb_false_iff. right. apply Z.ltb_ge. lia.
Qed.

(** At a byte where no run of text begins the loop does not move. *)
Lemma textLoop_stops (fuel : nat) (pre post : bytes) :
  textStops post = true ->
  textLoop fuel (pre ++ post) (len pre) = len pre.
Proof.
  intros H. destruct fuel as [|fuel]; [reflexivity|].
  cbn [textLoop]. rewrite skipn_len_app.
  destruct post as [|c post]; [reflexivity|].
  cbn [textStops] in H.
  destruct (Ascii.eqb c ESC) eqn:E1; [reflexivity|].
  destruct (Ascii.eqb c BEL) eqn:E2; [reflexivity|].
  cbn [orb] in H |- *.
  apply orb_true_iff in H. destruct H as [H|H].
  - apply andb_true_iff in H. destruct H as [Hp Hl].
    apply negb_true_iff in Hp. unfold isPlainByte in Hp.
    apply orb_false_iff in Hp. destruct Hp as [Hw Hr].
    rewrite Hw. unfold isDebugTermC0Control.
    apply Z.ltb_lt in Hl.
    apply andb_false_iff in Hr.
    assert (C : (b2z c <? 32) || (b2z c =? 127) = true).
    { apply orb_true_iff.
      destruct Hr as [Hr|Hr]; [left; apply Z.ltb_lt; apply Z.leb_gt in Hr; lia|].
      apply Z.ltb_ge in Hr. right. apply Z.eqb_eq. lia. }
    rewrite C. reflexivity.
  - apply andb_true_iff in H. destruct H as [Hh Hs].
    apply Z.leb_le in Hh.
    destruct (high_byte_cases c Hh) as (_ & _ & E3 & E4 & E5 & E6 & E7 & _).
    rewrite E3, E4, E5, E6, E7. cbn [orb].
    destruct (utf8.DecodeRune (c :: post)) as [r sz]. cbn [snd] in Hs.
    rewrite Hs. reflexivity.
Qed.

(** Over a run of text the loop moves to its end. *)
Lemma textLoop_run (a : bytes) :
  textRun a ->
  forall (fuel : nat) (pre post : bytes),
    textStops post = true -> (len a <= fuel)%nat ->
    textLoop fuel (pre ++ a ++ post) (len pre) = (len pre + len a)%nat.
Proof.
  induction 1 as [|c s Hc _ IH|p r s Hp _ IH]; intros fuel pre post Hs Hf.
  - cbn [app]. rewrite textLoop_stops by exact Hs. unfold len. simpl. lia.
  - destruct fuel as [|fuel]; [rewrite len_cons in Hf; lia|].
    cbn [textLoop]. rewrite skipn_len_app. cbn [app].
    destruct (isPlainByte_cases c Hc) as (E1 & E2 & Hl & Hw).
    rewrite E1, E2. cbn [orb].
    assert (R : textLoop fuel (pre ++ c :: s ++ post) (S (len pre))
                = (len pre + len (c :: s))%nat).
    { replace (pre ++ c :: s ++ post) with ((pre ++ [c]) ++ s ++ post)
        by (rewrite <- app_assoc; reflexivity).
      replace (S (len pre)) with (len (pre ++ [c]))
        by (rewrite len_app; unfold len; simpl; lia).
      rewrite IH by (auto; rewrite len_cons in Hf; lia).
      rewrite len_app, len_cons. unfold len. simpl. lia. }
    destruct (Ascii.eqb c LF || Ascii.eqb c CR || Ascii.eqb c TAB) eqn:W;
      [exact R|].
    destruct Hw as [Hw|Hw]; [discriminate|].
    rewrite Hw. apply Z.ltb_lt in Hl. rewrite Hl. exact R.
  - destruct (encoding_head p r Hp) as (c & t & -> & Hh & L2).
    destruct fuel as [|fuel]; [rewrite len_app in Hf; lia|].
    cbn [textLoop]. rewrite skipn_len_app.
    rewrite <- app_assoc.
    rewrite (encoding_DecodeRune (c :: t) r (s ++ post) Hp).
    cbn [app].
    destruct (high_byte_cases c Hh) as (E1 & E2 & E3 & E4 & E5 & E6 & E7 & _).
    rewrite E1, E2, E3, E4, E5, E6, E7. cbn [orb].
    replace (len (c :: t) =? 1)%nat with false
      by (symmetry; apply Nat.eqb_neq; lia).
    replace (pre ++ c :: t ++ s ++ post) with ((pre ++ c :: t) ++ s ++ post)
      by (rewrite <- app_assoc; reflexivity).
    replace (len pre + len (c :: t))%nat with (len (pre ++ c :: t))
      by (now rewrite len_app).
    rewrite IH by (auto; rewrite len_app in Hf; lia).
    len_solve.
Qed.

Lemma textRun_head (a : bytes) :
  textRun a -> a <> [] ->
  exists c t, a = c :: t /\ Ascii.eqb c ESC = false /\ Ascii.eqb c BEL = false.
Proof.
  induction 1 as [|c s Hc _ _|p r s Hp Hs IH]; intros Hne; [congruence| |].
  - destruct (isPlainByte_cases c Hc) as (E1 & E2 & _). eauto.
  - destruct (encoding_head p r Hp) as (c & t & -> & Hh & _).
    destruct (high_byte_cases c Hh) as (E1 & E2 & _).
    exists c, (t ++ s). auto.
Qed.

(** ** The consume functions on a sequence that is ended, and on one
    that is not *)

Lemma consumeDebugTermCSI_closed (pre : bytes) (a b : ascii)
      (params : bytes) (f : ascii) (post : bytes) :
  noFinal params -> isFinalByte f = true ->
  consumeDebugTermCSI (pre ++ (a :: b :: params ++ [f]) ++ post) (len pre)
  = Ok (a :: b :: params ++ [f], (len pre + len (a :: b :: params ++ [f]))%nat).
Proof.
  intros Hp Hf. unfold consumeDebugTermCSI.
  replace (skipn (len pre + 2) (pre ++ (a :: b :: params ++ [f]) ++ post))
    with (params ++ f :: post).
  2:{ replace (pre ++ (a :: b :: params ++ [f]) ++ post)
        with ((pre ++ [a; b]) ++ params ++ f :: post)
        by (rewrite <- !app_assoc; cbn [app]; rewrite <- app_assoc; reflexivity).
      replace (len pre + 2)%nat with (len (pre ++ [a; b])) by len_solve.
      now rewrite skipn_len_app. }
  rewrite (csiLoop_final params f post _ Hp Hf).
  replace (len pre + 2 + len params + 1)%nat
    with (len pre + len (a :: b :: params ++ [f]))%nat by len_solve.
  rewrite slice_len_app. reflexivity.
Qed.

Lemma skipn_intro (pre : bytes) (a b : ascii) (rest : bytes) :
  skipn (len pre + 2) (pre ++ a :: b :: rest) = rest.
Proof.
  replace (pre ++ a :: b :: rest) with ((pre ++ [a; b]) ++ rest)
    by (rewrite <- app_assoc; reflexivity).
  replace (len pre + 2)%nat with (len (pre ++ [a; b])) by len_solve.
  apply skipn_len_app.
Qed.

Lemma consumeDebugTermCSI_open (pre : bytes) (a b : ascii) (params : bytes) :
  noFinal params ->
  consumeDebugTermCSI (pre ++ a :: b :: params) (len pre)
  = Ok (a :: b :: params, len (pre ++ a :: b :: params)).
Proof.
  intros Hp. unfold consumeDebugTermCSI.
  rewrite skipn_intro, (csiLoop_none params _ Hp), sliceFrom_len_app.
  reflexivity.
Qed.

Lemma consumeDebugTermOSC_closed (pre : bytes) (a b : ascii)
      (payload term post : bytes) :
  oscPlain payload = true -> oscEnd term ->
  consumeDebugTermOSC (pre ++ (a :: b :: payload ++ term) ++ post) (len pre)
  = Ok (a :: b :: payload ++ term,
        (len pre + len (a :: b :: payload ++ term))%nat).
Proof.
  intros Hp Ht. unfold consumeDebugTermOSC.
  replace ((a :: b :: payload ++ term) ++ post)
    with (a :: b :: payload ++ term ++ post)
    by (cbn [app]; now rewrite <- app_assoc).
  rewrite skipn_intro, (oscLoop_term payload term post _ Hp Ht).
  replace (a :: b :: payload ++ term ++ post)
    with ((a :: b :: payload ++ term) ++ post)
    by (cbn [app]; now rewrite <- app_assoc).
  replace (len pre + 2 + len payload + len term)%nat
    with (len pre + len (a :: b :: payload ++ term))%nat by len_solve.
  rewrite slice_len_app. reflexivity.
Qed.

Lemma consumeDebugTermOSC_open (pre : bytes) (a b : ascii) (payload : bytes) :
  oscPlain payload = true ->
  consumeDebugTermOSC (pre ++ a :: b :: payload) (len pre)
  = Ok (a :: b :: payload, len (pre ++ a :: b :: payload)).
Proof.
  intros Hp. unfold consumeDebugTermOSC.
  rewrite skipn_intro, (oscLoop_plain payload _ Hp), sliceFrom_len_app.
  reflexivity.
Qed.

Lemma consumeDebugTermST_closed (pre : bytes) (a b : ascii)
      (payload post : bytes) :
  stPlain payload = true ->
  consumeDebugTermST (pre ++ (a :: b :: payload ++ ST) ++ post) (len pre)
  = Ok (a :: b :: payload ++ ST,
        (len pre + len (a :: b :: payload ++ ST))%nat).
Proof.
  intros Hp. unfold consumeDebugTermST.
  replace ((a :: b :: payload ++ ST) ++ post)
    with (a :: b :: payload ++ ESC :: "\"%char :: post)
    by (cbn [app]; rewrite <- app_assoc; reflexivity).
  rewrite skipn_intro, (stLoop_term payload post _ Hp).
  replace (a :: b :: payload ++ ESC :: "\"%char :: post)
    with ((a :: b :: payload ++ ST) ++ post)
    by (cbn [app]; rewrite <- app_assoc; reflexivity).
  replace (len pre + 2 + len payload + 2)%nat
    with (len pre + len (a :: b :: payload ++ ST))%nat
    by (unfold ST; len_solve).
  rewrite slice_len_app. reflexivity.
Qed.

Lemma consumeDebugTermST_open (pre : bytes) (a b : ascii) (payload : bytes) :
  stPlain payload = true ->
  consumeDebugTermST (pre ++ a :: b :: payload) (len pre)
  = Ok (a :: b :: payload, len (pre ++ a :: b :: payload)).
Proof.
  intros Hp. unfold consumeDebugTermST.
  rewrite skipn_intro, (stLoop_none payload _ Hp), sliceFrom_len_app.
  reflexivity.
Qed.

(** ** Scanning the bytes of a token *)

Lemma index_next (pre : bytes) (a b : ascii) (rest : bytes) :
  index (pre ++ a :: b :: rest) (len pre + 1) = Ok b.
Proof.
  replace (pre ++ a :: b :: rest) with ((pre ++ [a]) ++ b :: rest)
    by (rewrite <- app_assoc; reflexivity).
  replace (len pre + 1)%nat with (len (pre ++ [a])) by len_solve.
  apply index_len_app.
Qed.

Lemma leb_next (pre : bytes) (a b : ascii) (rest : bytes) :
  (len (pre ++ a :: b :: rest) <=? len pre + 1)%nat = false.
Proof. apply Nat.leb_gt. len_solve. Qed.

Lemma consumeDebugTermText_run (pre a post : bytes) :
  textRun a -> textStops post = true ->
  consumeDebugTermText (pre ++ a ++ post) (len pre)
  = (len pre, (len pre + len a)%nat).
Proof.
  intros Ha Hs. unfold consumeDebugTermText. f_equal.
  apply textLoop_run; [exact Ha | exact Hs | len_solve].
Qed.

Ltac intro_byte :=
  match goal with
  | |- context [Ascii.eqb ESC ESC] => change (Ascii.eqb ESC ESC) with true
  end; cbv iota.

Lemma scanToken_wf (t : token) (post : bytes) :
  wfToken t post ->
  forall pre : bytes,
    scanToken (pre ++ raw t ++ post) (len pre)
    = Ok (t, (len pre + len (raw t))%nat).
Proof.
  intros W pre. unfold scanToken.
  destruct W as [a post Hne Ha Hs | c post E1 E2 Hs | post | x post Hx |
                 | params f post Hp Hf | params Hp
                 | payload term post Hp Ht | payload Hp
                 | payload post Hp | payload Hp
                 | payload post Hp | payload Hp
                 | payload post Hp | payload Hp]; cbn [raw].
  - (* text *)
    destruct (textRun_head a Ha Hne) as (c & t & -> & E1 & E2).
    cbn [app]. rewrite index_len_app. cbn [bind]. rewrite E1, E2.
    change (c :: t ++ post) with ((c :: t) ++ post).
    rewrite (consumeDebugTermText_run pre (c :: t) post Ha Hs).
    replace (len pre <? len pre + len (c :: t))%nat with true
      by (symmetry; apply Nat.ltb_lt; len_solve).
    rewrite slice_len_app. reflexivity.
  - (* control byte *)
    cbn [app]. rewrite index_len_app. cbn [bind]. rewrite E1, E2.
    unfold consumeDebugTermText.
    rewrite (textLoop_stops _ pre (c :: post) Hs).
    rewrite Nat.ltb_irrefl. do 2 f_equal. len_solve.
  - (* BEL *)
    cbn [app]. rewrite index_len_app. cbn [bind].
    change (Ascii.eqb BEL ESC) with false.
    change (Ascii.eqb BEL BEL) with true. cbv iota. do 2 f_equal. len_solve.
  - (* an escape pair *)
    cbn [app]. rewrite index_len_app. cbn [bind]. intro_byte.
    rewrite leb_next, index_next. cbn [bind].
    unfold isBareEscape in Hx. apply negb_true_iff in Hx.
    apply orb_false_iff in Hx. destruct Hx as [Hx X5].
    apply orb_false_iff in Hx. destruct Hx as [Hx X4].
    apply orb_false_iff in Hx. destruct Hx as [Hx X3].
    apply orb_false_iff in Hx. destruct Hx as [X1 X2].
    rewrite X1, X2, X3, X4, X5.
    change (pre ++ ESC :: x :: post) with (pre ++ [ESC; x] ++ post).
    replace (len pre + 2)%nat with (len pre + len [ESC; x])%nat by len_solve.
    rewrite slice_len_app. reflexivity.
  - (* ESC at the end *)
    cbn [app]. rewrite index_len_app. cbn [bind]. intro_byte.
    replace (len (pre ++ [ESC]) <=? len pre + 1)%nat with true
      by (symmetry; apply Nat.leb_le; len_solve).
    do 2 f_equal. len_solve.
  - (* CSI *)
    change (pre ++ (ESC :: "["%char :: params ++ [f]) ++ post)
      with (pre ++ ESC :: "["%char :: (params ++ [f]) ++ post).
    rewrite index_len_app. cbn [bind]. intro_byte.
    rewrite leb_next, index_next. cbn [bind].
    change (Ascii.eqb "[" "[") with true. cbv iota.
    change (pre ++ ESC :: "["%char :: (params ++ [f]) ++ post)
      with (pre ++ (ESC :: "["%char :: params ++ [f]) ++ post).
    rewrite (consumeDebugTermCSI_closed pre ESC "[" params f post Hp Hf).
    reflexivity.
  - rewrite app_nil_r.
    rewrite index_len_app. cbn [bind]. intro_byte.
    rewrite leb_next, index_next. cbn [bind].
    change (Ascii.eqb "[" "[") with true. cbv iota.
    rewrite (consumeDebugTermCSI_open pre ESC "[" params Hp). cbn [bind].
    do 2 f_equal. len_solve.
  - (* OSC *)
    change (pre ++ (ESC :: "]"%char :: payload ++ term) ++ post)
      with (pre ++ ESC :: "]"%char :: (payload ++ term) ++ post).
    rewrite index_len_app. cbn [bind]. intro_byte.
    rewrite leb_next, index_next. cbn [bind].
    change (Ascii.eqb "]" "[") with false.
    change (Ascii.eqb "]" "]") with true. cbv iota.
    change (pre ++ ESC :: "]"%char :: (payload ++ term) ++ post)
      with (pre ++ (ESC :: "]"%char :: payload ++ term) ++ post).
    rewrite (consumeDebugTermOSC_closed pre ESC "]" payload term post Hp Ht).
    reflexivity.
  - rewrite app_nil_r.
    rewrite index_len_app. cbn [bind]. intro_byte.
    rewrite leb_next, index_next. cbn [bind].
    change (Ascii.eqb "]" "[") with false.
    change (Ascii.eqb "]" "]") with true. cbv iota.
    rewrite (consumeDebugTermOSC_open pre ESC "]" payload Hp). cbn [bind].
    do 2 f_equal. len_solve.
  - (* DCS *)
    change (pre ++ (ESC :: "P"%char :: payload ++ ST) ++ post)
      with (pre ++ ESC :: "P"%char :: (payload ++ ST) ++ post).
    rewrite index_len_app. cbn [bind]. intro_byte.
    rewrite leb_next, index_next. cbn [bind].
    change (Ascii.eqb "P" "[") with false.
    change (Ascii.eqb "P" "]") with false.
    change (Ascii.eqb "P" "P") with true. cbv iota.
    change (pre ++ ESC :: "P"%char :: (payload ++ ST) ++ post)
      with (pre ++ (ESC :: "P"%char :: payload ++ ST) ++ post).
    rewrite (consumeDebugTermST_closed pre ESC "P" payload post Hp).
    reflexivity.
  - rewrite app_nil_r.
    rewrite index_len_app. cbn [bind]. intro_byte.
    rewrite leb_next, index_next. cbn [bind].
    change (Ascii.eqb "P" "[") with false.
    change (Ascii.eqb "P" "]") with false.
    change (Ascii.eqb "P" "P") with true. cbv iota.
    rewrite (consumeDebugTermST_open pre ESC "P" payload Hp). cbn [bind].
    do 2 f_equal. len_solve.
  - (* PM *)
    change (pre ++ (ESC :: "^"%char :: payload ++ ST) ++ post)
      with (pre ++ ESC :: "^"%char :: (payload ++ ST) ++ post).
    rewrite index_len_app. cbn [bind]. intro_byte.
    rewrite leb_next, index_next. cbn [bind].
    change (Ascii.eqb "^" "[") with false.
    change (Ascii.eqb "^" "]") with false.
    change (Ascii.eqb "^" "P") with false.
    change (Ascii.eqb "^" "^") with true. cbv iota.
    change (pre ++ ESC :: "^"%char :: (payload ++ ST) ++ post)
      with (pre ++ (ESC :: "^"%char :: payload ++ ST) ++ post).
    rewrite (consumeDebugTermST_closed pre ESC "^" payload post Hp).
    reflexivity.
  - rewrite app_nil_r.
    rewrite index_len_app. cbn [bind]. intro_byte.
    rewrite leb_next, index_next. cbn [bind].
    change (Ascii.eqb "^" "[") with false.
    change (Ascii.eqb "^" "]") with false.
    change (Ascii.eqb "^" "P") with false.
    change (Ascii.eqb "^" "^") with true. cbv iota.
    rewrite (consumeDebugTermST_open pre ESC "^" payload Hp). cbn [bind].
    do 2 f_equal. len_solve.
  - (* APC *)
    change (pre ++ (ESC :: "_"%char :: payload ++ ST) ++ post)
      with (pre ++ ESC :: "_"%char :: (payload ++ ST) ++ post).
    rewrite index_len_app. cbn [bind]. intro_byte.
    rewrite leb_next, index_next. cbn [bind].
    change (Ascii.eqb "_" "[") with false.
    change (Ascii.eqb "_" "]") with false.
    change (Ascii.eqb "_" "P") with false.
    change (Ascii.eqb "_" "^") with false.
    change (Ascii.eqb "_" "_") with true. cbv iota.
    change (pre ++ ESC :: "_"%char :: (payload ++ ST) ++ post)
      with (pre ++ (ESC :: "_"%char :: payload ++ ST) ++ post).
    rewrite (consumeDebugTermST_closed pre ESC "_" payload post Hp).
    reflexivity.
  - rewrite app_nil_r.
    rewrite index_len_app. cbn [bind]. intro_byte.
    rewrite leb_next, index_next. cbn [bind].
    change (Ascii.eqb "_" "[") with false.
    change (Ascii.eqb "_" "]") with false.
    change (Ascii.eqb "_" "P") with false.
    change (Ascii.eqb "_" "^") with false.
    change (Ascii.eqb "_" "_") with true. cbv iota.
    rewrite (consumeDebugTermST_open pre ESC "_" payload Hp). cbn [bind].
    do 2 f_equal. len_solve.
Qed.

(** ** Scanning the bytes of a list of tokens *)

Lemma wfToken_raw (t : token) (post : bytes) :
  wfToken t post -> (1 <= len (raw t))%nat.
Proof.
  intros W. destruct W; cbn [raw]; try len_solve.
  destruct a; [congruence | len_solve].
Qed.

Lemma scanLoop_serialize (ts : list token) :
  wellFormed ts ->
  forall (fuel : nat) (pre : bytes),
    (len (serialize ts) <= fuel)%nat ->
    scanLoop fuel (pre ++ serialize ts) (len pre) = Ok ts.
Proof.
  induction ts as [|t ts IH]; intros W fuel pre Hf.
  - unfold serialize. cbn [map List.concat]. rewrite app_nil_r.
    destruct fuel; cbn [scanLoop]; now rewrite Nat.leb_refl.
  - destruct W as [Wt Wts].
    pose proof (wfToken_raw t _ Wt) as L.
    unfold serialize in *. cbn [map List.concat] in *.
    rewrite len_app in Hf.
    destruct fuel as [|fuel]; [lia|].
    cbn [scanLoop].
    replace (len (pre ++ raw t ++ List.concat (map raw ts)) <=? len pre)%nat
      with false by (symmetry; apply Nat.leb_gt; rewrite !len_app; lia).
    rewrite (scanToken_wf t _ Wt pre). cbn [bind].
    rewrite app_assoc. rewrite <- len_app.
    rewrite (IH Wts fuel (pre ++ raw t)) by lia.
    reflexivity.
Qed.

(** X1.  Scanning is the inverse of writing the tokens out: a list of tokens
    that have their shapes is the list that the scanner reads from their
    bytes. *)
Theorem scan_serialize (ts : list token) :
  wellFormed ts -> scan (serialize ts) = Ok ts.
Proof.
  intros W. unfold scan.
  apply (scanLoop_serialize ts W (len (serialize ts)) []). lia.
Qed.

Lemma scan_serialize_witness :
  let ts := [Text (str "hi"); CSI (ESC :: str "[1;31m"); Bell;
             OSC (ESC :: str "]0;title" ++ [BEL]); ControlByte "000"%char;
             DCS (ESC :: str "Pq")] in
  scan (serialize ts) = Ok ts.
Proof.
  cbv zeta. apply scan_serialize.
  split; [|split; [|split; [|split; [|split; [|split; [|exact I]]]]]].
  - apply wf_text; [discriminate | | reflexivity].
    apply textRun_plain; [reflexivity|].
    apply textRun_plain; [reflexivity|]. apply textRun_nil.
  - apply (@wf_csi (str "1;31") "m"%char); [|reflexivity].
    repeat (apply Forall_cons; [reflexivity|]). apply Forall_nil.
  - apply wf_bell.
  - apply (@wf_osc (str "0;title") [BEL]); [reflexivity | left; reflexivity].
  - apply wf_control; reflexivity.
  - apply (@wf_dcs_end (str "q")). reflexivity.
Defined.

(** ** Every buffer is the bytes of tokens that have their shapes *)

Lemma final_split (rest : bytes) :
  noFinal rest
  \/ exists params f post,
       rest = params ++ f :: post /\ noFinal params /\ isFinalByte f = true.
Proof.
  induction rest as [|b rest IH]; [left; constructor|].
  destruct (isFinalByte b) eqn:Eb.
  - right. exists [], b, rest. repeat split; [constructor | exact Eb].
  - destruct IH as [IH | (params & f & post & -> & Hp & Hf)].
    + left. constructor; assumption.
    + right. exists (b :: params), f, post.
      repeat split; [constructor; assumption | exact Hf].
Qed.

Lemma osc_split (rest : bytes) :
  oscPlain rest = true
  \/ exists payload term post,
       rest = payload ++ term ++ post
       /\ oscPlain payload = true /\ oscEnd term.
Proof.
  induction rest as [|b rest IH]; [left; reflexivity|].
  destruct (Ascii.eqb_spec b BEL) as [Eb|Nb].
  { subst b. right. exists [], [BEL], rest.
    repeat split. left; reflexivity. }
  assert (Hb : Ascii.eqb b BEL = false) by (now apply Ascii.eqb_neq).
  destruct (Ascii.eqb b ESC
            && match rest with c :: _ => Ascii.eqb c "\" | [] => false end)
    eqn:Et.
  { apply andb_true_iff in Et. destruct Et as [E1 E2].
    apply Ascii.eqb_eq in E1. subst b.
    destruct rest as [|c rest]; [discriminate|].
    apply Ascii.eqb_eq in E2. subst c.
    right. exists [], ST, rest. repeat split. right; reflexivity. }
  destruct IH as [IH | (payload & term & post & -> & Hp & Ht)].
  - left. cbn [oscPlain]. rewrite Hb, Et, IH. reflexivity.
  - right. exists (b :: payload), term, post.
    repeat split; [|exact Ht].
    cbn [oscPlain]. rewrite Hb, Hp. cbn [negb andb].
    rewrite andb_true_r. apply negb_true_iff.
    destruct (Ascii.eqb b ESC); [|reflexivity]. cbn [andb] in Et |- *.
    destruct payload as [|c payload]; [reflexivity | exact Et].
Qed.

Lemma st_split (rest : bytes) :
  stPlain rest = true
  \/ exists payload post,
       rest = payload ++ ST ++ post /\ stPlain payload = true.
Proof.
  induction rest as [|b rest IH]; [left; reflexivity|].
  destruct (Ascii.eqb b ESC
            && match rest with c :: _ => Ascii.eqb c "\" | [] => false end)
    eqn:Et.
  { apply andb_true_iff in Et. destruct Et as [E1 E2].
    apply Ascii.eqb_eq in E1. subst b.
    destruct rest as [|c rest]; [discriminate|].
    apply Ascii.eqb_eq in E2. subst c.
    right. exists [], rest. split; reflexivity. }
  destruct IH as [IH | (payload & post & -> & Hp)].
  - left. cbn [stPlain]. rewrite Et, IH. reflexivity.
  - right. exists (b :: payload), post.
    split; [reflexivity|].
    cbn [stPlain]. rewrite Hp. rewrite andb_true_r. apply negb_true_iff.
    destruct (Ascii.eqb b ESC); [|reflexivity]. cbn [andb] in Et |- *.
    destruct payload as [|c payload]; [reflexivity | exact Et].
Qed.

Lemma text_split (n : nat) :
  forall rest : bytes,
    (len rest <= n)%nat ->
    exists a post, rest = a ++ post /\ textRun a /\ textStops post = true.
Proof.
  induction n as [|n IH]; intros rest L.
  { destruct rest; [|len_solve]. exists [], []. repeat split. constructor. }
  destruct (textStops rest) eqn:Es.
  { exists [], rest. repeat split; [constructor | exact Es]. }
  destruct rest as [|c r]; [discriminate|].
  cbn [textStops] in Es.
  apply orb_false_iff in Es. destruct Es as [Es H4].
  apply orb_false_iff in Es. destruct Es as [Es H3].
  apply orb_false_iff in Es. destruct Es as [H1 H2].
  destruct (Z.ltb_spec (b2z c) 0x80) as [Hl|Hh].
  - rewrite andb_true_r in H3. apply negb_false_iff in H3.
    destruct (IH r ltac:(len_solve)) as (a & post & -> & Ha & Hs).
    exists (c :: a), post. repeat split; [|exact Hs].
    now apply textRun_plain.
  - replace (128 <=? b2z c) with true in H4 by (symmetry; apply Z.leb_le; lia).
    cbn [andb] in H4. apply Nat.eqb_neq in H4.
    pose proof (DecodeRune_width (c :: r) ltac:(discriminate)) as W.
    destruct (utf8.DecodeRune (c :: r)) as [rr size] eqn:D. cbn [snd] in *.
    destruct (DecodeRune_encoding _ _ _ D ltac:(lia)) as (p & t & Ept & Lp & En).
    destruct (IH t) as (a & post & -> & Ha & Hs).
    { assert (len (c :: r) = len (p ++ t)) by now rewrite Ept.
      rewrite len_app in *. rewrite len_cons in *. lia. }
    exists (p ++ a), post. rewrite Ept, app_assoc. repeat split; [|exact Hs].
    now apply (@textRun_rune p rr).
Qed.

Lemma token_exists (rest : bytes) :
  rest <> [] ->
  exists t post, rest = raw t ++ post /\ wfToken t post.
Proof.
  intros Hne. destruct rest as [|b r]; [congruence|]. clear Hne.
  destruct (Ascii.eqb_spec b ESC) as [Eb|Nb].
  { subst b. destruct r as [|x r].
    { exists (BareEscape [ESC]), []. split; [reflexivity | constructor]. }
    destruct (Ascii.eqb_spec x "[") as [Ex|N1].
    { subst x. destruct (final_split r)
        as [Hp | (params & f & post & -> & Hp & Hf)].
      - exists (CSI (ESC :: "["%char :: r)), []. cbn [raw].
        rewrite app_nil_r. split; [reflexivity | now constructor].
      - exists (CSI (ESC :: "["%char :: params ++ [f])), post. cbn [raw].
        split; [cbn [app]; now rewrite <- app_assoc | now constructor]. }
    destruct (Ascii.eqb_spec x "]") as [Ex|N2].
    { subst x. destruct (osc_split r)
        as [Hp | (payload & term & post & -> & Hp & Ht)].
      - exists (OSC (ESC :: "]"%char :: r)), []. cbn [raw].
        rewrite app_nil_r. split; [reflexivity | now constructor].
      - exists (OSC (ESC :: "]"%char :: payload ++ term)), post. cbn [raw].
        split; [cbn [app]; now rewrite <- app_assoc | now constructor]. }
    destruct (Ascii.eqb_spec x "P") as [Ex|N3].
    { subst x. destruct (st_split r) as [Hp | (payload & post & -> & Hp)].
      - exists (DCS (ESC :: "P"%char :: r)), []. cbn [raw].
        rewrite app_nil_r. split; [reflexivity | now constructor].
      - exists (DCS (ESC :: "P"%char :: payload ++ ST)), post. cbn [raw].
        split; [cbn [app]; now rewrite <- app_assoc | now constructor]. }
    destruct (Ascii.eqb_spec x "^") as [Ex|N4].
    { subst x. destruct (st_split r) as [Hp | (payload & post & -> & Hp)].
      - exists (PM (ESC :: "^"%char :: r)), []. cbn [raw].
        rewrite app_nil_r. split; [reflexivity | now constructor].
      - exists (PM (ESC :: "^"%char :: payload ++ ST)), post. cbn [raw].
        split; [cbn [app]; now rewrite <- app_assoc | now constructor]. }
    destruct (Ascii.eqb_spec x "_") as [Ex|N5].
    { subst x. destruct (st_split r) as [Hp | (payload & post & -> & Hp)].
      - exists (APC (ESC :: "_"%char :: r)), []. cbn [raw].
        rewrite app_nil_r. split; [reflexivity | now constructor].
      - exists (APC (ESC :: "_"%char :: payload ++ ST)), post. cbn [raw].
        split; [cbn [app]; now rewrite <- app_assoc | now constructor]. }
    exists (BareEscape [ESC; x]), r. split; [reflexivity|].
    constructor. unfold isBareEscape.
    apply Ascii.eqb_neq in N1, N2, N3, N4, N5.
    now rewrite N1, N2, N3, N4, N5. }
  destruct (Ascii.eqb_spec b BEL) as [Eb|Nb'].
  { subst b. exists Bell, r. split; [reflexivity | constructor]. }
  apply Ascii.eqb_neq in Nb, Nb'.
  destruct (text_split (len (b :: r)) (b :: r) (le_n _))
    as (a & post & E & Ha & Hs).
  destruct a as [|c a].
  - cbn [app] in E. subst post.
    exists (ControlByte b), r. split; [reflexivity | now constructor].
  - exists (Text (c :: a)), post. split; [exact E|].
    constructor; [discriminate | exact Ha | exact Hs].
Qed.

Lemma tokens_exist (n : nat) :
  forall B : bytes,
    (len B <= n)%nat -> exists ts, serialize ts = B /\ wellFormed ts.
Proof.
  induction n as [|n IH]; intros B L.
  { destruct B; [|len_solve]. exists []. split; [reflexivity | exact I]. }
  destruct B as [|b r]; [exists []; split; [reflexivity | exact I]|].
  destruct (token_exists (b :: r) ltac:(discriminate)) as (t & post & E & W).
  pose proof (wfToken_raw t post W) as Lt.
  destruct (IH post) as (ts & Es & Ws).
  { assert (len (b :: r) = len (raw t ++ post)) by now rewrite E.
    rewrite len_app in *. lia. }
  exists (t :: ts). split.
  - unfold serialize in *. cbn [map List.concat]. now rewrite Es.
  - cbn [wellFormed]. rewrite Es. auto.
Qed.

(** X2.  The scanner reads every buffer as a list of tokens that have their
    shapes, and whose bytes are the buffer. *)
Theorem scan_wellFormed (B : bytes) :
  exists ts, scan B = Ok ts /\ wellFormed ts /\ serialize ts = B.
Proof.
  destruct (tokens_exist (len B) B (le_n _)) as (ts & E & W).
  exists ts. split; [|split; assumption].
  rewrite <- E. unfold scan.
  apply (scanLoop_serialize ts W (len (serialize ts)) []). lia.
Qed.

(** ** Decimal numbers: [strconv.Atoi] reads what [strconv.Itoa] writes *)

Lemma parseDigits_string_of_uint (d : Decimal.uint) (acc : Z) :
  strconv.parseDigits (str (NilEmpty.string_of_uint d)) acc
  = Some (horner d acc).
Proof.
  revert acc. induction d; intros acc; cbn [NilEmpty.string_of_uint horner];
    [reflexivity | ..];
    unfold str in *; cbn [list_ascii_of_string strconv.parseDigits];
    match goal with
    | |- context [strconv.isDigit ?c] =>
      change (strconv.isDigit c) with true; cbv iota
    end;
    rewrite IHd; reflexivity.
Qed.

Lemma horner_pos (d : Decimal.uint) (acc : positive) :
  horner d (Zpos acc) = Zpos (Pos.of_uint_acc d acc).
Proof.
  revert acc. induction d; intros acc; cbn [horner Pos.of_uint_acc];
    [reflexivity | ..];
    match goal with
    | |- horner _ ?z = _ =>
      match goal with
      | |- _ = Zpos (Pos.of_uint_acc _ ?p) =>
        replace z with (Zpos p) by lia
      end
    end; apply IHd.
Qed.

Lemma horner_zero (d : Decimal.uint) :
  horner d 0 = Z.of_N (Pos.of_uint d).
Proof.
  induction d; cbn [horner Pos.of_uint]; [reflexivity | exact IHd | ..];
    match goal with
    | |- horner _ ?z = _ =>
      match goal with
      | |- _ = Z.of_N (Npos (Pos.of_uint_acc _ ?p)) =>
        replace z with (Zpos p) by lia
      end
    end; apply horner_pos.
Qed.

Lemma string_of_uint_digits (d : Decimal.uint) :
  Forall (fun c => strconv.isDigit c = true) (str (NilEmpty.string_of_uint d)).
Proof.
  induction d; cbn [NilEmpty.string_of_uint]; unfold str in *;
    cbn [list_ascii_of_string]; constructor; auto.
Qed.

Lemma to_uint_string (p : positive) :
  NilZero.string_of_uint (Pos.to_uint p) = NilEmpty.string_of_uint (Pos.to_uint p).
Proof.
  pose proof (DecimalPos.Unsigned.to_uint_nonnil p) as N.
  destruct (Pos.to_uint p); [congruence | reflexivity..].
Qed.

Lemma Itoa_pos (p : positive) :
  strconv.Itoa (Zpos p) = str (NilEmpty.string_of_uint (Pos.to_uint p)).
Proof.
  unfold strconv.Itoa. cbn [Z.to_int NilZero.string_of_int].
  now rewrite to_uint_string.
Qed.

Lemma Itoa_neg (p : positive) :
  strconv.Itoa (Zneg p)
  = "-"%char :: str (NilEmpty.string_of_uint (Pos.to_uint p)).
Proof.
  unfold strconv.Itoa. cbn [Z.to_int NilZero.string_of_int].
  rewrite to_uint_string. reflexivity.
Qed.

Lemma parseDigits_to_uint (p : positive) :
  strconv.parseDigits (str (NilEmpty.string_of_uint (Pos.to_uint p))) 0
  = Some (Zpos p).
Proof.
  rewrite parseDigits_string_of_uint, horner_zero.
  now rewrite DecimalPos.Unsigned.of_to.
Qed.

Lemma digits_head (d : Decimal.uint) :
  d <> Decimal.Nil ->
  exists c t, str (NilEmpty.string_of_uint d) = c :: t
              /\ strconv.isDigit c = true.
Proof.
  intros N. pose proof (string_of_uint_digits d) as F.
  destruct d; [congruence | ..]; cbn [NilEmpty.string_of_uint] in *;
    unfold str in *; cbn [list_ascii_of_string] in *;
    inversion F; subst; eauto.
Qed.

Lemma isDigit_not_sign (c : ascii) :
  strconv.isDigit c = true ->
  Ascii.eqb c "-" = false /\ Ascii.eqb c "+" = false.
Proof.
  intros H. split; apply Ascii.eqb_neq; intros ->; discriminate.
Qed.

(** [Atoi] reads the decimal form of every [int]. *)
Lemma Atoi_Itoa (n : Z) :
  minInt <= n <= maxInt -> strconv.Atoi (strconv.Itoa n) = Some n.
Proof.
  intros R. destruct n as [|p|p].
  - reflexivity.
  - rewrite Itoa_pos. unfold strconv.Atoi.
    destruct (digits_head (Pos.to_uint p) (DecimalPos.Unsigned.to_uint_nonnil p))
      as (c & t & E & Hc).
    pose proof (parseDigits_to_uint p) as P. rewrite E in *.
    destruct (isDigit_not_sign c Hc) as [E1 E2]. rewrite E1, E2, P.
    replace ((minInt <=? Zpos p) && (Zpos p <=? maxInt)) with true; [reflexivity|].
    symmetry. apply andb_true_iff. split; apply Z.leb_le; lia.
  - rewrite Itoa_neg. unfold strconv.Atoi.
    change (Ascii.eqb "-" "-") with true. cbv iota.
    destruct (digits_head (Pos.to_uint p) (DecimalPos.Unsigned.to_uint_nonnil p))
      as (c & t & E & Hc).
    pose proof (parseDigits_to_uint p) as P. rewrite E in *. rewrite P.
    change (- Zpos p) with (Zneg p).
    replace ((minInt <=? Zneg p) && (Zneg p <=? maxInt)) with true; [reflexivity|].
    symmetry. apply andb_true_iff. split; apply Z.leb_le; lia.
Qed.

Lemma Itoa_digits (n : Z) :
  0 <= n -> Forall (fun c => strconv.isDigit c = true) (strconv.Itoa n).
Proof.
  intros H. destruct n as [|p|p]; [|rewrite Itoa_pos; apply string_of_uint_digits|lia].
  repeat constructor.
Qed.

(** What [Atoi] accepts is a sign, or none, and digits. *)
Lemma parseDigits_digits (s : bytes) (acc n : Z) :
  strconv.parseDigits s acc = Some n ->
  Forall (fun c => strconv.isDigit c = true) s.
Proof.
  revert acc. induction s as [|c s IH]; intros acc H; [constructor|].
  cbn [strconv.parseDigits] in H.
  destruct (strconv.isDigit c) eqn:Ec; [|discriminate].
  constructor; [exact Ec | exact (IH _ H)].
Qed.

Lemma isDigit_noFinal (c : ascii) :
  strconv.isDigit c = true -> isFinalByte c = false.
Proof.
  unfold strconv.isDigit, isFinalByte. intros H.
  apply andb_true_iff in H. destruct H as [_ H]. apply Z.leb_le in H.
  apply andb_false_iff. left. apply Z.leb_gt. lia.
Qed.

Lemma Atoi_noFinal (s : bytes) (n : Z) :
  strconv.Atoi s = Some n -> noFinal s.
Proof.
  unfold strconv.Atoi, noFinal. intros H.
  assert (D : forall ds, match ds with
                         | [] => None
                         | _ :: _ =>
                           match strconv.parseDigits ds 0 with
                           | Some un => Some un
                           | None => None
                           end
                         end <> None ->
                         Forall (fun b => isFinalByte b = false) ds).
  { intros ds Hd. destruct ds as [|c ds]; [congruence|].
    destruct (strconv.parseDigits (c :: ds) 0) eqn:P; [|congruence].
    apply parseDigits_digits in P.
    eapply Forall_impl; [|exact P]. apply isDigit_noFinal. }
  destruct s as [|c t]; [discriminate|].
  destruct (Ascii.eqb_spec c "-") as [Ec|_].
  { subst c. constructor; [reflexivity|]. apply D.
    destruct t; [discriminate|].
    destruct (strconv.parseDigits (a :: t) 0); [discriminate | discriminate]. }
  destruct (Ascii.eqb_spec c "+") as [Ec|_].
  { subst c. constructor; [reflexivity|]. apply D.
    destruct t; [discriminate|].
    destruct (strconv.parseDigits (a :: t) 0); [discriminate | discriminate]. }
  apply D. destruct (strconv.parseDigits (c :: t) 0); discriminate.
Qed.

(** ** The count of a cursor-forward sequence *)

Lemma last_index (a b : ascii) (params : bytes) (f : ascii) :
  index (a :: b :: params ++ [f]) (len (a :: b :: params ++ [f]) - 1) = Ok f.
Proof.
  replace (a :: b :: params ++ [f]) with ((a :: b :: params) ++ [f]) by reflexivity.
  replace (len ((a :: b :: params) ++ [f]) - 1)%nat with (len (a :: b :: params))
    by len_solve.
  apply index_len_app.
Qed.

Lemma params_slice (a b : ascii) (params : bytes) (f : ascii) :
  slice (a :: b :: params ++ [f]) 2 (len (a :: b :: params ++ [f]) - 1)
  = Ok params.
Proof.
  change (a :: b :: params ++ [f]) with ([a; b] ++ params ++ [f]).
  replace (len ([a; b] ++ params ++ [f]) - 1)%nat
    with (len [a; b] + len params)%nat by len_solve.
  apply (slice_len_app [a; b] params [f]).
Qed.

Lemma parseCursorForwardN_shape (a b : ascii) (params : bytes) (f : ascii) :
  parseCursorForwardN (a :: b :: params ++ [f])
  = if negb (Ascii.eqb f "C") then Ok (0, false)
    else if bytes_eqb params [] then Ok (1, true)
    else match strconv.Atoi params with
         | None => Ok (0, false)
         | Some n => if n <=? 0 then Ok (0, false) else Ok (n, true)
         end.
Proof.
  unfold parseCursorForwardN.
  replace (len (a :: b :: params ++ [f]) <? 3)%nat with false
    by (symmetry; apply Nat.ltb_ge; len_solve).
  rewrite last_index. cbn [bind].
  destruct (negb (Ascii.eqb f "C")); [reflexivity|].
  rewrite params_slice. reflexivity.
Qed.

Lemma split_last (s : bytes) :
  (3 <= len s)%nat -> exists a b params f, s = a :: b :: params ++ [f].
Proof.
  intros L. destruct s as [|a [|b r]]; try len_solve.
  assert (r <> []) by (intros ->; len_solve).
  destruct (exists_last H) as (params & f & ->). eauto.
Qed.

Lemma parseCursorForwardN_accepted (seq : bytes) (n : Z) :
  parseCursorForwardN seq = Ok (n, true) ->
  exists a b params,
    seq = a :: b :: params ++ [ "C"%char ]
    /\ noFinal params
    /\ 1 <= n <= maxInt
    /\ (params = [] /\ n = 1 \/ strconv.Atoi params = Some n).
Proof.
  intros H.
  destruct (Nat.ltb_spec (len seq) 3) as [L|L].
  { unfold parseCursorForwardN in H.
    replace (len seq <? 3)%nat with true in H
      by (symmetry; now apply Nat.ltb_lt). discriminate. }
  destruct (split_last seq L) as (a & b & params & f & ->).
  rewrite parseCursorForwardN_shape in H.
  destruct (Ascii.eqb_spec f "C") as [Ef|_]; [|discriminate]. subst f.
  cbn [negb] in H. exists a, b, params. split; [reflexivity|].
  destruct (bytes_eqb params []) eqn:Ep.
  - apply bytes_eqb_eq in Ep. subst params. injection H as <-.
    repeat split; [constructor | lia | unfold maxInt; lia | left; auto].
  - destruct (strconv.Atoi params) as [m|] eqn:A; [|discriminate].
    pose proof (Atoi_range _ _ A) as R.
    destruct (Z.leb_spec m 0); [discriminate|]. injection H as <-.
    repeat split; [exact (Atoi_noFinal _ _ A) | lia | lia | right; reflexivity].
Qed.

Lemma Itoa_nonempty (n : Z) : bytes_eqb (strconv.Itoa n) [] = false.
Proof.
  destruct n as [|p|p]; [reflexivity| |rewrite Itoa_neg; reflexivity].
  rewrite Itoa_pos.
  destruct (digits_head (Pos.to_uint p) (DecimalPos.Unsigned.to_uint_nonnil p))
    as (c & t & -> & _). reflexivity.
Qed.

(** X7.  A cursor-forward sequence stands for the count of its decimal
    parameter, and for 1 when it has none; a count that is not positive
    is not accepted.  What is accepted ends with [C], has parameter bytes
    that are no final bytes, and has a count from 1 to the largest
    [int]. *)
Theorem parseCursorForwardN_counts :
  (forall a b : ascii, parseCursorForwardN [a; b; "C"%char] = Ok (1, true))
  /\ (forall (a b : ascii) (n : Z),
        1 <= n <= maxInt ->
        parseCursorForwardN (a :: b :: strconv.Itoa n ++ [ "C"%char ])
        = Ok (n, true))
  /\ (forall (a b : ascii) (n : Z),
        minInt <= n <= 0 ->
        parseCursorForwardN (a :: b :: strconv.Itoa n ++ [ "C"%char ])
        = Ok (0, false))
  /\ (forall (seq : bytes) (n : Z),
        parseCursorForwardN seq = Ok (n, true) ->
        exists a b params,
          seq = a :: b :: params ++ [ "C"%char ]
          /\ noFinal params /\ 1 <= n <= maxInt
          /\ (params = [] /\ n = 1 \/ strconv.Atoi params = Some n)).
Proof.
  split; [|split; [|split]].
  - intros a b. reflexivity.
  - intros a b n R. rewrite parseCursorForwardN_shape.
    change (Ascii.eqb "C" "C") with true. cbn [negb].
    rewrite Itoa_nonempty, Atoi_Itoa by (unfold minInt; lia).
    destruct (Z.leb_spec n 0); [lia | reflexivity].
  - intros a b n R. rewrite parseCursorForwardN_shape.
    change (Ascii.eqb "C" "C") with true. cbn [negb].
    rewrite Itoa_nonempty, Atoi_Itoa by (unfold maxInt; lia).
    destruct (Z.leb_spec n 0); [reflexivity | lia].
  - exact parseCursorForwardN_accepted.
Qed.

Lemma parseCursorForwardN_counts_witness :
  parseCursorForwardN (ESC :: "["%char :: strconv.Itoa 12 ++ [ "C"%char ])
  = Ok (12, true)
  /\ parseCursorForwardN (ESC :: "["%char :: strconv.Itoa (-3) ++ [ "C"%char ])
     = Ok (0, false)
  /\ exists a b params,
       ESC :: str "[+7C" = a :: b :: params ++ [ "C"%char ]
       /\ noFinal params /\ 1 <= 7 <= maxInt
       /\ (params = [] /\ 7 = 1 \/ strconv.Atoi params = Some 7).
Proof.
  split; [|split].
  - apply (proj1 (proj2 parseCursorForwardN_counts)). vm_compute. split; discriminate.
  - apply (proj1 (proj2 (proj2 parseCursorForwardN_counts))).
    vm_compute. split; discriminate.
  - apply (proj2 (proj2 (proj2 parseCursorForwardN_counts))). reflexivity.
Defined.

(** ** Text and cursor-forward sequences through the coalescer *)


Lemma serialize_app (l1 l2 : list token) :
  serialize (l1 ++ l2) = serialize l1 ++ serialize l2.
Proof. unfold serialize. now rewrite map_app, concat_app. Qed.











Section Collapse.

Variable isPrintTable : Z -> bool.

Lemma routeAll_app (l1 l2 : list token) (st : dstate) :
  routeAll isPrintTable (l1 ++ l2) st
  = (st' <- routeAll isPrintTable l1 st ;; routeAll isPrintTable l2 st').
Proof.
  revert st. induction l1 as [|t l1 IH]; intros st; [reflexivity|].
  cbn [app routeAll]. destruct (route isPrintTable t st); cbn [bind]; auto.
Qed.





Lemma flushRange_txtLines (segs : list bytes) (total : Z) :
  segs <> [] ->
  flushRange isPrintTable segs 0 (List.length segs) total
  = txtLines isPrintTable segs total.
Proof.
  intros Hne. unfold txtLines.
  rewrite (app_removelast_last [] Hne) at 1 2.
  apply flushRange_lines. rewrite length_app. reflexivity.
Qed.

Lemma flushText_pending (st : dstate) :
  textBuf st <> [] ->
  flushText isPrintTable st
  = {| lines := lines st
                ++ txtLines isPrintTable (splitOnCRLFRuns (textBuf st))
                     (totalCSpaces st);
       textBuf := [];
       totalCSpaces := 0 |}.
Proof.
  intros Hne. unfold flushText.
  destruct (textBuf st) as [|c t] eqn:E; [congruence|].
  cbn [bytes_eqb andb].
  destruct (splitOnCRLFRuns_head c t) as (t' & rest & S).
  rewrite S. cbn [List.length Nat.eqb].
  rewrite <- (flushRange_txtLines ((c :: t') :: rest)) by discriminate.
  reflexivity.
Qed.

Lemma report_of_tokens (data : bytes) (ts : list token) (st : dstate) :
  data <> [] -> scan data = Ok ts ->
  routeAll isPrintTable ts
    {| lines := []; textBuf := []; totalCSpaces := 0 |} = Ok st ->
  formatDebugTermDecode isPrintTable data
  = Ok (strings.Join (lines (flushText isPrintTable st)) [LF] ++ [LF]).
Proof.
  intros Hne Hs Hr.
  destruct (formatDebugTermDecode_scan isPrintTable data Hne) as (ts' & Hs' & ->).
  rewrite Hs in Hs'. injection Hs' as <-. rewrite Hr. reflexivity.
Qed.


(** X8.  A buffer that is one run of text is reported as one [TXT] line for
    each of its segments, with no annotation. *)
Theorem plain_text_report (data : bytes) :
  textRun data -> data <> [] ->
  formatDebugTermDecode isPrintTable data
  = Ok (strings.Join (map (txtLine isPrintTable) (splitOnCRLFRuns data)) [LF]
        ++ [LF]).
Proof.
  intros Ha Hne.
  assert (W : wellFormed [Text data]).
  { split; [|exact I]. constructor; [exact Hne | exact Ha | reflexivity]. }
  assert (S : scan data = Ok [Text data]).
  { rewrite <- (scanLoop_serialize _ W (len (serialize [Text data])) []) by lia.
    unfold scan, serialize. cbn [map List.concat raw app len List.length].
    now rewrite app_nil_r. }
  rewrite (report_of_tokens _ _
             {| lines := []; textBuf := data; totalCSpaces := 0 |} Hne S)
    by reflexivity.
  rewrite flushText_pending by exact Hne. cbn [lines textBuf totalCSpaces app].
  unfold txtLines. change (spaceAnnotation 0) with (@nil ascii).
  rewrite app_nil_r.
  destruct data as [|c t]; [congruence|].
  destruct (splitOnCRLFRuns_head c t) as (t' & rest & E). rewrite E.
  rewrite (app_removelast_last [] (l := (c :: t') :: rest)) at 3 by discriminate.
  rewrite map_app. reflexivity.
Qed.

End Collapse.

Ltac text_run :=
  cbv [str list_ascii_of_string app];
  repeat (apply textRun_plain; [reflexivity|]); apply textRun_nil.

Lemma plain_text_report_witness :
  let data := str "ab" ++ [CR; LF] ++ str "cd" in
  formatDebugTermDecode (fun _ => false) data
  = Ok (strings.Join (map (txtLine (fun _ => false)) (splitOnCRLFRuns data)) [LF]
        ++ [LF]).
Proof.
  cbv zeta. apply plain_text_report; [text_run | discriminate].
Defined.


(** ** Runs of text are the well-formed UTF-8 strings of plain bytes *)

Lemma validLoop_fuel (fuel : nat) (s : bytes) :
  (len s <= fuel)%nat -> validLoop fuel s = validLoop (len s) s.
Proof.
  remember (len s) as n eqn:Hn. revert s fuel Hn.
  induction n as [n IH] using lt_wf_ind. intros s fuel Hn Hf.
  destruct s as [|c s1].
  { subst n. destruct fuel; reflexivity. }
  destruct n as [|n]; [discriminate|]. destruct fuel as [|fuel]; [lia|].
  cbn [validLoop].
  pose proof (DecodeRune_width (c :: s1) ltac:(discriminate)) as W.
  destruct (utf8.DecodeRune (c :: s1)) as [r w]. cbn [snd] in W.
  destruct ((r =? utf8.RuneError) && (w =? 1)%nat); [reflexivity|].
  assert (L : (len (skipn w (c :: s1)) < S n)%nat).
  { rewrite len_skipn. rewrite <- Hn. lia. }
  transitivity (validLoop (len (skipn w (c :: s1))) (skipn w (c :: s1))).
  - apply (IH _ L); [reflexivity | lia].
  - symmetry. apply (IH _ L); [reflexivity | lia].
Qed.

Lemma Valid_step (c : ascii) (s : bytes) :
  Valid (c :: s)
  = let '(r, size) := utf8.DecodeRune (c :: s) in
    if (r =? utf8.RuneError) && (size =? 1)%nat then false
    else Valid (skipn size (c :: s)).
Proof.
  unfold Valid at 1. rewrite len_cons. cbn [validLoop].
  pose proof (DecodeRune_width (c :: s) ltac:(discriminate)) as W.
  destruct (utf8.DecodeRune (c :: s)) as [r w]. cbn [snd] in W.
  destruct ((r =? utf8.RuneError) && (w =? 1)%nat); [reflexivity|].
  unfold Valid. apply validLoop_fuel. rewrite len_skipn, len_cons. lia.
Qed.

Lemma Valid_ascii (c : ascii) (s : bytes) :
  b2z c < 0x80 -> Valid (c :: s) = Valid s.
Proof.
  intros H. rewrite Valid_step, DecodeRune_ascii by exact H.
  replace (b2z c =? utf8.RuneError) with false; [reflexivity|].
  symmetry. apply Z.eqb_neq. unfold utf8.RuneError. lia.
Qed.

Lemma Valid_rune (p : bytes) (r : Z) (s : bytes) :
  encoding p r -> Valid (p ++ s) = Valid s.
Proof.
  intros E. destruct (encoding_head p r E) as (c & t & -> & _ & L).
  cbn [app]. rewrite Valid_step.
  change (c :: t ++ s) with ((c :: t) ++ s).
  rewrite (encoding_DecodeRune _ _ s E).
  replace (len (c :: t) =? 1)%nat with false
    by (symmetry; apply Nat.eqb_neq; lia).
  rewrite andb_false_r. now rewrite skipn_len_app.
Qed.

Lemma textRun_Valid (a : bytes) :
  textRun a ->
  Valid a = true
  /\ Forall (fun c => isPlainByte c = true \/ 0x80 <= b2z c) a.
Proof.
  induction 1 as [|c s Hc _ [IH1 IH2]|p r s Hp _ [IH1 IH2]].
  - split; [reflexivity | constructor].
  - destruct (isPlainByte_cases c Hc) as (_ & _ & Hl & _).
    rewrite Valid_ascii by exact Hl. auto.
  - rewrite (Valid_rune p r s Hp). split; [exact IH1|].
    apply Forall_app. split; [|exact IH2].
    destruct (encoding_high p r Hp) as [F _].
    eapply Forall_impl; [|exact F]. intros c Hc. now right.
Qed.

Lemma Valid_textRun (n : nat) :
  forall a : bytes,
    (len a <= n)%nat -> Valid a = true ->
    Forall (fun c => isPlainByte c = true \/ 0x80 <= b2z c) a ->
    textRun a.
Proof.
  induction n as [|n IH]; intros a L V F.
  { destruct a; [constructor | len_solve]. }
  destruct a as [|c s]; [constructor|].
  inversion F as [|? ? Hc Fs]; subst.
  destruct (Z.ltb_spec (b2z c) 0x80) as [Hl|Hh].
  - rewrite Valid_ascii in V by exact Hl.
    destruct Hc as [Hc|Hc]; [|lia].
    apply textRun_plain; [exact Hc|]. apply IH; [len_solve | exact V | exact Fs].
  - rewrite Valid_step in V.
    pose proof (DecodeRune_width (c :: s) ltac:(discriminate)) as W.
    destruct (utf8.DecodeRune (c :: s)) as [r size] eqn:D. cbn [snd] in W.
    destruct (Nat.eq_dec size 1) as [E1|N1].
    { subst size. rewrite (DecodeRune_width1 c s r Hh D) in V. discriminate. }
    destruct (DecodeRune_encoding _ _ _ D ltac:(lia)) as (p & t & Ept & Lp & En).
    destruct ((r =? utf8.RuneError) && (size =? 1)%nat); [discriminate|].
    rewrite Ept in V |- *. rewrite <- Lp, skipn_len_app in V.
    apply (@textRun_rune p r); [exact En|].
    apply IH; [|exact V|].
    + assert (len (c :: s) = len (p ++ t)) by now rewrite Ept.
      rewrite len_app in *. rewrite len_cons in *. lia.
    + rewrite Ept in F. apply Forall_app in F. apply F.
Qed.

Lemma textRun_iff (a : bytes) :
  textRun a
  <-> Valid a = true
      /\ Forall (fun c => isPlainByte c = true \/ 0x80 <= b2z c) a.
Proof.
  split; [apply textRun_Valid|].
  intros [V F]. now apply (Valid_textRun (len a)).
Qed.

(** ** The consume functions *)

(** X3.  [consumeDebugTermCSI] takes the two bytes at its index, then the
    bytes up to the first one from 0x40 to 0x7e, which it includes; when
    there is none it takes the rest of the buffer. *)
Theorem consumeDebugTermCSI_first_final (pre : bytes) (a b : ascii)
        (params : bytes) :
  noFinal params ->
  (forall (f : ascii) (post : bytes),
     isFinalByte f = true ->
     consumeDebugTermCSI (pre ++ a :: b :: params ++ f :: post) (len pre)
     = Ok (a :: b :: params ++ [f], (len pre + len params + 3)%nat))
  /\ consumeDebugTermCSI (pre ++ a :: b :: params) (len pre)
     = Ok (a :: b :: params, (len pre + len params + 2)%nat).
Proof.
  intros Hp. split.
  - intros f post Hf.
    replace (pre ++ a :: b :: params ++ f :: post)
      with (pre ++ (a :: b :: params ++ [f]) ++ post)
      by (cbn [app]; rewrite <- app_assoc; reflexivity).
    rewrite consumeDebugTermCSI_closed by assumption.
    do 2 f_equal. len_solve.
  - rewrite consumeDebugTermCSI_open by assumption. do 2 f_equal. len_solve.
Qed.

Lemma consumeDebugTermCSI_first_final_witness :
  consumeDebugTermCSI (str "ab" ++ ESC :: str "[1;31mred") 2
  = Ok (ESC :: str "[1;31m", 9%nat).
Proof.
  assert (P : noFinal (str "1;31")).
  { repeat (apply Forall_cons; [reflexivity|]). apply Forall_nil. }
  exact (proj1 (consumeDebugTermCSI_first_final (str "ab") ESC "[" (str "1;31") P)
           "m"%char (str "red") eq_refl).
Defined.

(** X4.  [consumeDebugTermOSC] takes the two bytes at its index, then the
    bytes up to the first BEL or the first ESC before a backslash, which
    it includes; when there is none it takes the rest of the buffer. *)
Theorem consumeDebugTermOSC_first_terminator (pre : bytes) (a b : ascii)
        (payload : bytes) :
  oscPlain payload = true ->
  (forall term post : bytes,
     oscEnd term ->
     consumeDebugTermOSC (pre ++ a :: b :: payload ++ term ++ post) (len pre)
     = Ok (a :: b :: payload ++ term,
           (len pre + len payload + len term + 2)%nat))
  /\ consumeDebugTermOSC (pre ++ a :: b :: payload) (len pre)
     = Ok (a :: b :: payload, (len pre + len payload + 2)%nat).
Proof.
  intros Hp. split.
  - intros term post Ht.
    replace (pre ++ a :: b :: payload ++ term ++ post)
      with (pre ++ (a :: b :: payload ++ term) ++ post)
      by (cbn [app]; rewrite <- app_assoc; reflexivity).
    rewrite consumeDebugTermOSC_closed by assumption.
    do 2 f_equal. len_solve.
  - rewrite consumeDebugTermOSC_open by assumption. do 2 f_equal. len_solve.
Qed.

Lemma consumeDebugTermOSC_first_terminator_witness :
  consumeDebugTermOSC (ESC :: str "]0;a" ++ [ESC] ++ str "b" ++ ST ++ str "x") 0
  = Ok (ESC :: str "]0;a" ++ [ESC] ++ str "b" ++ ST, 9%nat).
Proof.
  exact (proj1 (consumeDebugTermOSC_first_terminator [] ESC "]"
                  (str "0;a" ++ [ESC] ++ str "b") eq_refl) ST (str "x")
           (or_intror eq_refl)).
Defined.

(** X5.  [consumeDebugTermST] takes the two bytes at its index, then the
    bytes up to the first ESC before a backslash, which it includes; a
    BEL does not end the string.  When there is none it takes the rest
    of the buffer. *)
Theorem consumeDebugTermST_first_terminator (pre : bytes) (a b : ascii)
        (payload : bytes) :
  stPlain payload = true ->
  (forall post : bytes,
     consumeDebugTermST (pre ++ a :: b :: payload ++ ST ++ post) (len pre)
     = Ok (a :: b :: payload ++ ST, (len pre + len payload + 4)%nat))
  /\ consumeDebugTermST (pre ++ a :: b :: payload) (len pre)
     = Ok (a :: b :: payload, (len pre + len payload + 2)%nat).
Proof.
  intros Hp. split.
  - intros post.
    replace (pre ++ a :: b :: payload ++ ST ++ post)
      with (pre ++ (a :: b :: payload ++ ST) ++ post)
      by (cbn [app]; rewrite <- app_assoc; reflexivity).
    rewrite consumeDebugTermST_closed by assumption.
    do 2 f_equal. unfold ST. len_solve.
  - rewrite consumeDebugTermST_open by assumption. do 2 f_equal. len_solve.
Qed.

Lemma consumeDebugTermST_first_terminator_witness :
  consumeDebugTermST (ESC :: str "Pa" ++ [BEL] ++ str "b" ++ ST ++ str "x") 0
  = Ok (ESC :: str "Pa" ++ [BEL] ++ str "b" ++ ST, 7%nat)
  /\ consumeDebugTermST (ESC :: str "Pa" ++ [BEL] ++ str "b") 0
     = Ok (ESC :: str "Pa" ++ [BEL] ++ str "b", 5%nat).
Proof.
  split.
  - exact (proj1 (consumeDebugTermST_first_terminator [] ESC "P"
                    (str "a" ++ [BEL] ++ str "b") eq_refl) (str "x")).
  - exact (proj2 (consumeDebugTermST_first_terminator [] ESC "P"
                    (str "a" ++ [BEL] ++ str "b") eq_refl)).
Defined.

(** X6.  From every index [consumeDebugTermText] takes the longest run of
    text: well-formed UTF-8 whose bytes below 0x80 are line feed,
    carriage return, tab and the bytes from 0x20 to 0x7e; the run ends
    at the end of the buffer, or before ESC, BEL, another control byte,
    or a byte that starts no well-formed rune. *)
Theorem consumeDebugTermText_longest_run (pre rest : bytes) :
  exists a post,
    rest = a ++ post
    /\ consumeDebugTermText (pre ++ rest) (len pre)
       = (len pre, (len pre + len a)%nat)
    /\ Valid a = true
    /\ Forall (fun c => isPlainByte c = true \/ 0x80 <= b2z c) a
    /\ textStops post = true.
Proof.
  destruct (text_split (len rest) rest (le_n _)) as (a & post & -> & Ha & Hs).
  exists a, post. split; [reflexivity|]. split.
  - now apply consumeDebugTermText_run.
  - destruct (textRun_Valid a Ha) as [V F]. auto.
Qed.

(** ** The hex dump *)

Lemma offset_mod (n : Z) : hex.offset (n mod 2 ^ 64) = hex.offset n.
Proof.
  assert (S : forall k, 0 <= k <= 24 ->
                Z.shiftr (n mod 2 ^ 64) k mod 256 = Z.shiftr n k mod 256).
  { intros k Hk.
    change 256 with (2 ^ 8).
    rewrite <- !Z.land_ones by lia.
    apply Z.bits_inj'. intros i Hi.
    rewrite !Z.land_spec, !Z.shiftr_spec, Z.land_spec by lia.
    destruct (Z.ltb_spec i 8) as [L|L].
    - rewrite (Z.ones_spec_low 64 (i + k)) by lia. now rewrite andb_true_r.
    - rewrite (Z.ones_spec_high 8 i) by lia. now rewrite !andb_false_r. }
  unfold hex.offset.
  rewrite (S 24), (S 16), (S 8) by lia.
  pose proof (S 0 ltac:(lia)) as S0. rewrite !Z.shiftr_0_r in S0.
  now rewrite S0.
Qed.

Lemma hexRow_mod (a b : Z) (row : bytes) :
  a mod 2 ^ 64 = b mod 2 ^ 64 -> hexRow a row = hexRow b row.
Proof.
  intros E. unfold hexRow.
  now rewrite <- (offset_mod a), <- (offset_mod b), E.
Qed.

Lemma hexRows_mod (fuel : nat) :
  forall (a b : Z) (data : bytes),
    a mod 2 ^ 64 = b mod 2 ^ 64 -> hexRows fuel a data = hexRows fuel b data.
Proof.
  induction fuel as [|fuel IH]; intros a b data E; [reflexivity|].
  destruct data as [|c data]; [reflexivity|].
  cbn [hexRows]. rewrite (hexRow_mod a b _ E). f_equal.
  assert (M : 2 ^ 64 <> 0) by (apply Z.pow_nonzero; lia).
  apply IH. rewrite <- Z.add_mod_idemp_l, E, Z.add_mod_idemp_l by exact M.
  reflexivity.
Qed.

Ltac dump_state h H :=
  destruct h as [w r u t c]; destruct H as (Hu & Hc & Hr);
  cbn [hex.used hex.closed hex.rightChars hex.written hex.total] in *;
  subst u c;
  do 18 (destruct r as [|? r]; [discriminate Hr|]);
  destruct r; [|discriminate Hr]; clear Hr.

Ltac dump_run :=
  cbn [fold_left hex.writeByte hex.Close hex.used hex.closed hex.rightChars
       hex.written hex.total Nat.eqb Nat.ltb Nat.leb hex.store hex.padLoop
       firstn Nat.add app str list_ascii_of_string strconv.hex2
       hexRow hexCell flat_map seq nth_error map List.length].

Lemma total_fold (row : bytes) :
  forall h : hex.dumper,
    hex.total (fold_left hex.writeByte row h) mod 2 ^ 64
    = (hex.total h + Z.of_nat (List.length row)) mod 2 ^ 64.
Proof.
  assert (M : 2 ^ 64 <> 0) by (apply Z.pow_nonzero; lia).
  induction row as [|b row IH]; intros h.
  - cbn [fold_left List.length]. now rewrite Z.add_0_r.
  - cbn [fold_left]. rewrite IH.
    assert (T : hex.total (hex.writeByte h b) = (hex.total h + 1) mod 2 ^ 64).
    { unfold hex.writeByte. cbv zeta.
      destruct (S (hex.used h) =? 16)%nat; reflexivity. }
    rewrite T, Z.add_mod_idemp_l by exact M. f_equal.
    cbn [List.length]. lia.
Qed.

Lemma writeRow_full (h : hex.dumper) (row : bytes) :
  betweenLines h -> List.length row = 16%nat ->
  let h' := fold_left hex.writeByte row h in
  hex.written h' = hex.written h ++ hexRow (hex.total h) row
  /\ betweenLines h'
  /\ hex.total h' mod 2 ^ 64 = (hex.total h + 16) mod 2 ^ 64.
Proof.
  intros H L. cbv zeta.
  assert (T := total_fold row h). rewrite L in T.
  split; [|split; [|exact T]]; clear T; dump_state h H;
    do 16 (destruct row as [|? row]; [discriminate L|]);
    (destruct row; [|discriminate L]); clear L; dump_run.
  - rewrite <- !app_assoc. reflexivity.
  - repeat split.
Qed.

Lemma writeRow_partial (h : hex.dumper) (row : bytes) :
  betweenLines h -> (1 <= List.length row <= 15)%nat ->
  hex.written (hex.Close (fold_left hex.writeByte row h))
  = hex.written h ++ hexRow (hex.total h) row.
Proof.
  intros H L. dump_state h H.
  destruct row as [|? row]; [cbn in L; lia|].
  do 15 (destruct row as [|? row];
         [clear L; dump_run; rewrite <- !app_assoc; reflexivity|]).
  cbn in L. lia.
Qed.

Lemma Close_betweenLines (h : hex.dumper) :
  betweenLines h -> hex.written (hex.Close h) = hex.written h.
Proof.
  intros (Hu & Hc & _). unfold hex.Close. rewrite Hc, Hu. reflexivity.
Qed.

Lemma dump_rows (fuel : nat) :
  forall (data : bytes) (h : hex.dumper),
    betweenLines h -> (len data <= fuel)%nat ->
    hex.written (hex.Close (fold_left hex.writeByte data h))
    = hex.written h ++ List.concat (hexRows fuel (hex.total h) data).
Proof.
  induction fuel as [|fuel IH]; intros data h H L.
  { destruct data; [|len_solve]. cbn [fold_left hexRows List.concat].
    rewrite app_nil_r. now apply Close_betweenLines. }
  destruct data as [|c data].
  { cbn [fold_left hexRows List.concat].
    rewrite app_nil_r. now apply Close_betweenLines. }
  cbn [hexRows List.concat].
  destruct (Nat.leb_spec 16 (len (c :: data))) as [G|G].
  - rewrite <- (firstn_skipn 16 (c :: data)) at 1.
    rewrite fold_left_app.
    destruct (writeRow_full h (firstn 16 (c :: data)) H) as (W & B & T).
    { rewrite length_firstn. unfold len in G. lia. }
    rewrite (IH _ _ B) by (rewrite len_skipn; lia).
    rewrite W, <- app_assoc. do 3 f_equal.
    apply hexRows_mod. exact T.
  - rewrite firstn_all2 by (unfold len in G; lia).
    rewrite skipn_all2 by (unfold len in G; lia).
    replace (hexRows fuel (hex.total h + 16) []) with (@nil bytes)
      by (destruct fuel; reflexivity).
    cbn [List.concat]. rewrite app_nil_r.
    apply writeRow_partial; [exact H|]. unfold len in G. cbn [List.length] in *. lia.
Qed.

Lemma Dump_hexRows (data : bytes) :
  hex.Dump data = List.concat (hexRows (len data) 0 data).
Proof.
  unfold hex.Dump.
  destruct data as [|c data]; [reflexivity|].
  change (len (c :: data) =? 0)%nat with false. cbv iota.
  unfold hex.Write. cbn [hex.closed hex.Dumper].
  rewrite (dump_rows (len (c :: data)) (c :: data) hex.Dumper); [reflexivity| |lia].
  repeat split.
Qed.

(** X10.  The dump of a buffer is its rows of sixteen bytes, one line for
    each: the offset of the row in eight hexadecimal digits, the bytes
    in two digits each, and the printable bytes between bars, every
    other byte as a dot; the dump of the empty buffer is empty. *)
Theorem formatDebugTermHex_rows (data : bytes) :
  formatDebugTermHex data = List.concat (hexRows (len data) 0 data).
Proof.
  unfold formatDebugTermHex. apply Dump_hexRows.
Qed.

(** ** The hex dump loses nothing *)

Lemma app_eq_len {A : Type} (a1 a2 b1 b2 : list A) :
  List.length a1 = List.length a2 -> a1 ++ b1 = a2 ++ b2 ->
  a1 = a2 /\ b1 = b2.
Proof.
  revert a2. induction a1 as [|x a1 IH]; intros [|y a2] L E;
    try discriminate L; [auto|].
  cbn [app] in E. injection E as -> E. injection L as L.
  destruct (IH a2 L E) as [-> ->]. auto.
Qed.

Lemma flat_map_eq_len {A B : Type} (f g : A -> list B) (ks : list A) :
  (forall k, List.length (f k) = List.length (g k)) ->
  flat_map f ks = flat_map g ks ->
  forall k, In k ks -> f k = g k.
Proof.
  intros L. induction ks as [|k0 ks IH]; intros E k I; [destruct I|].
  cbn [flat_map] in E.
  destruct (app_eq_len _ _ _ _ (L k0) E) as [E0 E1].
  destruct I as [<-|I]; [exact E0 | now apply IH].
Qed.

Lemma lowerhex_land (d : Z) : strconv.lowerhex d = strconv.lowerhex (Z.land d 0xF).
Proof.
  unfold strconv.lowerhex. rewrite <- Z.land_assoc. reflexivity.
Qed.

Lemma nibble_cases (n : Z) :
  0 <= n < 16 -> In n (map Z.of_nat (seq 0 16)).
Proof.
  intros H. apply in_map_iff. exists (Z.to_nat n).
  split; [lia | apply in_seq; lia].
Qed.

Lemma hexVal_lowerhex (n : Z) :
  0 <= n < 16 -> json.hexVal (strconv.lowerhex n) = Some n.
Proof.
  intros H. pose proof (nibble_cases n H) as C. vm_compute in C.
  repeat (destruct C as [C|C]; [subst n; reflexivity|]). destruct C.
Qed.

Lemma land15_range (d : Z) : 0 <= Z.land d 0xF < 16.
Proof.
  change 0xF with (Z.ones 4). rewrite Z.land_ones by lia.
  apply Z.mod_pos_bound. lia.
Qed.

Lemma hex2_inj (b b' : ascii) :
  strconv.hex2 (b2z b) = strconv.hex2 (b2z b') -> b = b'.
Proof.
  unfold strconv.hex2. intros E. injection E as E1 E2.
  rewrite lowerhex_land in E1, E2.
  rewrite (lowerhex_land (Z.shiftr (b2z b') 4)) in E1.
  rewrite (lowerhex_land (b2z b')) in E2.
  apply (f_equal json.hexVal) in E1, E2.
  rewrite !hexVal_lowerhex in E1, E2 by apply land15_range.
  injection E1 as E1. injection E2 as E2.
  pose proof (b2z_range b) as R. pose proof (b2z_range b') as R'.
  change 0xF with (Z.ones 4) in E1, E2.
  rewrite !Z.land_ones, !Z.shiftr_div_pow2 in * by lia.
  change (2 ^ 4) with 16 in *.
  assert (Z : b2z b = b2z b').
  { rewrite (Z.div_mod (b2z b) 16), (Z.div_mod (b2z b') 16) by lia.
    rewrite (Z.mod_small (b2z b / 16) 16) in E1
      by (split; [apply Z.div_pos; lia | apply Z.div_lt_upper_bound; lia]).
    rewrite (Z.mod_small (b2z b' / 16) 16) in E1
      by (split; [apply Z.div_pos; lia | apply Z.div_lt_upper_bound; lia]).
    now rewrite E1, E2. }
  rewrite <- (z2b_b2z b), <- (z2b_b2z b'). now rewrite Z.
Qed.

Lemma hex2_not_blank (b : ascii) : strconv.hex2 (b2z b) <> str "  ".
Proof.
  unfold strconv.hex2. intros E. injection E as E _.
  rewrite lowerhex_land in E. apply (f_equal json.hexVal) in E.
  rewrite hexVal_lowerhex in E by apply land15_range. discriminate.
Qed.

Lemma hexCell_length (row : bytes) (k : nat) :
  List.length (hexCell row k) = if (k =? 7)%nat then 4%nat else 3%nat.
Proof.
  unfold hexCell. destruct (nth_error row k), (k =? 7)%nat; reflexivity.
Qed.

Lemma hexCell_inj (r1 r2 : bytes) (k : nat) :
  hexCell r1 k = hexCell r2 k -> nth_error r1 k = nth_error r2 k.
Proof.
  unfold hexCell. intros E.
  apply app_eq_len in E.
  2:{ destruct (nth_error r1 k), (nth_error r2 k); reflexivity. }
  destruct E as [E _].
  destruct (nth_error r1 k) as [b|], (nth_error r2 k) as [b'|].
  - f_equal. now apply hex2_inj.
  - exfalso. now apply (hex2_not_blank b).
  - exfalso. symmetry in E. now apply (hex2_not_blank b').
  - reflexivity.
Qed.

Lemma hexRow_inj (off : Z) (r1 r2 rest1 rest2 : bytes) :
  (len r1 <= 16)%nat -> (len r2 <= 16)%nat ->
  hexRow off r1 ++ rest1 = hexRow off r2 ++ rest2 ->
  r1 = r2 /\ rest1 = rest2.
Proof.
  intros L1 L2 E. unfold hexRow in E. rewrite <- !app_assoc in E.
  apply app_inv_head in E. apply app_inv_head in E.
  apply app_eq_len in E.
  2:{ rewrite !flat_map_concat_map, !length_concat.
      rewrite !map_map. f_equal. apply map_ext. intros k.
      now rewrite !hexCell_length. }
  destruct E as [C E].
  assert (R : r1 = r2).
  { apply nth_error_ext. intros k.
    destruct (Nat.ltb_spec k 16) as [K|K].
    - apply hexCell_inj.
      apply (flat_map_eq_len (hexCell r1) (hexCell r2) (seq 0 16)); [|exact C|].
      + intros j. now rewrite !hexCell_length.
      + apply in_seq. lia.
    - transitivity (@None ascii); [|symmetry];
        apply nth_error_None; unfold len in *; lia. }
  subst r2. split; [reflexivity|].
  apply app_inv_head in E. apply app_inv_head in E.
  apply app_inv_head in E. now apply app_inv_head in E.
Qed.

Lemma hexRow_nonempty (off : Z) (r rest : bytes) : hexRow off r ++ rest <> [].
Proof.
  unfold hexRow, hex.offset, strconv.hex2. cbn [app]. discriminate.
Qed.

Lemma hexRows_inj (fuel : nat) :
  forall (off : Z) (d1 d2 : bytes) (f2 : nat),
    (len d1 <= fuel)%nat -> (len d2 <= f2)%nat ->
    List.concat (hexRows fuel off d1) = List.concat (hexRows f2 off d2) ->
    d1 = d2.
Proof.
  induction fuel as [|fuel IH]; intros off d1 d2 f2 L1 L2 E.
  { destruct d1; [|len_solve]. destruct d2 as [|c d2]; [reflexivity|].
    destruct f2; [len_solve|]. cbn [hexRows List.concat] in E.
    symmetry in E. now apply hexRow_nonempty in E. }
  destruct d1 as [|c1 d1].
  { destruct d2 as [|c d2]; [reflexivity|].
    destruct f2; [len_solve|]. cbn [hexRows List.concat] in E.
    symmetry in E. now apply hexRow_nonempty in E. }
  destruct d2 as [|c2 d2].
  { replace (hexRows f2 off []) with (@nil bytes) in E by (destruct f2; reflexivity).
    cbn [hexRows List.concat] in E. now apply hexRow_nonempty in E. }
  destruct f2 as [|f2]; [len_solve|].
  cbn [hexRows List.concat] in E.
  apply hexRow_inj in E;
    [|unfold len; rewrite length_firstn; lia..].
  destruct E as [E1 E2].
  apply IH in E2; [|rewrite len_skipn; lia..].
  rewrite <- (firstn_skipn 16 (c1 :: d1)), <- (firstn_skipn 16 (c2 :: d2)).
  now rewrite E1, E2.
Qed.

(** X11.  Two buffers that have the same hex dump are the same buffer. *)
Theorem formatDebugTermHex_inj (d1 d2 : bytes) :
  formatDebugTermHex d1 = formatDebugTermHex d2 -> d1 = d2.
Proof.
  unfold formatDebugTermHex. rewrite !Dump_hexRows.
  apply hexRows_inj; lia.
Qed.

Lemma formatDebugTermHex_inj_witness : str "abc" = str "abc".
Proof.
  apply formatDebugTermHex_inj. reflexivity.
Defined.

(** ** The mode flag *)

Lemma ToLower_ascii (toLowerTable : Z -> Z) (s : bytes) :
  Forall (fun c => b2z c < 0x80) s ->
  stringsMap.ToLower toLowerTable s = map stringsMap.lowerByte s.
Proof.
  intros F. unfold stringsMap.ToLower.
  assert (A : forallb (fun c => b2z c <? utf8.RuneSelf) s = true).
  { apply forallb_forall. intros c I. apply Z.ltb_lt.
    rewrite Forall_forall in F. now apply F. }
  rewrite A. destruct (existsb stringsMap.isUpper s) eqn:E; [reflexivity|].
  clear A F. induction s as [|c s IH]; [reflexivity|].
  cbn [existsb] in E. apply orb_false_iff in E. destruct E as [E1 E2].
  cbn [map]. unfold stringsMap.lowerByte at 1. rewrite E1. f_equal. now apply IH.
Qed.

(** X12.  The mode flag is read whatever the case of its letters: a flag of
    ASCII bytes that has the letters of [hex] or of [decode] gives that
    mode, in lower case, and no error; any other flag of ASCII bytes
    gives the error that quotes the flag as it was given. *)
Theorem getDebugTermMode_ascii (isPrintTable : Z -> bool)
        (toLowerTable : Z -> Z) (flag : bytes) :
  Forall (fun c => b2z c < 0x80) flag ->
  getDebugTermMode isPrintTable toLowerTable flag
  = if sameLetters flag DebugTermModeHex then (DebugTermModeHex, None)
    else if sameLetters flag DebugTermModeDecode then (DebugTermModeDecode, None)
    else ([], Some (str "invalid mode " ++ strconv.Quote isPrintTable flag
                    ++ str " (expected " ++ [DQUOTE] ++ str "hex" ++ [DQUOTE]
                    ++ str " or " ++ [DQUOTE] ++ str "decode" ++ [DQUOTE]
                    ++ str ")")).
Proof.
  intros F. unfold getDebugTermMode, sameLetters.
  rewrite (ToLower_ascii toLowerTable flag F).
  change (map stringsMap.lowerByte DebugTermModeHex) with DebugTermModeHex.
  change (map stringsMap.lowerByte DebugTermModeDecode) with DebugTermModeDecode.
  destruct (bytes_eqb (map stringsMap.lowerByte flag) DebugTermModeHex) eqn:E1.
  { apply bytes_eqb_eq in E1. rewrite E1. reflexivity. }
  destruct (bytes_eqb (map stringsMap.lowerByte flag) DebugTermModeDecode) eqn:E2.
  { apply bytes_eqb_eq in E2. rewrite E2. reflexivity. }
  cbn [negb andb]. reflexivity.
Qed.

Lemma getDebugTermMode_ascii_witness :
  getDebugTermMode (fun _ => false) (fun r => r) (str "DeCode")
  = (str "decode", None)
  /\ getDebugTermMode (fun _ => false) (fun r => r) (str "raw")
     = ([], Some (str "invalid mode " ++ [DQUOTE] ++ str "raw" ++ [DQUOTE]
                  ++ str " (expected " ++ [DQUOTE] ++ str "hex" ++ [DQUOTE]
                  ++ str " or " ++ [DQUOTE] ++ str "decode" ++ [DQUOTE]
                  ++ str ")")).
Proof.
  split.
  - refine (eq_trans (getDebugTermMode_ascii _ _ (str "DeCode") _) _);
      [|reflexivity].
    repeat (apply Forall_cons; [reflexivity|]). apply Forall_nil.
  - refine (eq_trans (getDebugTermMode_ascii _ _ (str "raw") _) _);
      [|reflexivity].
    repeat (apply Forall_cons; [reflexivity|]). apply Forall_nil.
Defined.

(** ** The report of a buffer that is split at a token *)

Lemma textStops_prefix (P X : bytes) :
  textStops (P ++ X) = true -> textStops P = true.
Proof.
  destruct P as [|c P]; [reflexivity|]. cbn [app textStops]. intros H.
  apply orb_true_iff in H. destruct H as [H|H]; [now rewrite H|].
  apply andb_true_iff in H. destruct H as [Hh H1].
  rewrite Hh. cbn [andb]. apply orb_true_iff. right.
  apply Nat.eqb_eq in H1. apply Nat.eqb_eq.
  pose proof (DecodeRune_width (c :: P) ltac:(discriminate)) as W.
  destruct (utf8.DecodeRune (c :: P)) as [r sz] eqn:D. cbn [snd] in *.
  destruct (Nat.eq_dec sz 1) as [E|N]; [exact E|exfalso].
  destruct (DecodeRune_encoding _ _ _ D ltac:(lia)) as (p & t & Ept & Lp & En).
  change (c :: P ++ X) with ((c :: P) ++ X) in H1.
  rewrite Ept, <- app_assoc, (encoding_DecodeRune p r (t ++ X) En) in H1.
  cbn [snd] in H1. lia.
Qed.

Lemma wfToken_prefix (t : token) (P X : bytes) :
  X <> [] -> wfToken t (P ++ X) -> wfToken t P.
Proof.
  intros HX W. remember (P ++ X) as post eqn:E.
  assert (N : post <> []).
  { subst post. intros H. apply app_eq_nil in H. now destruct H. }
  destruct W; try congruence; subst; try (now constructor).
  - constructor; [assumption | assumption | now apply (textStops_prefix P X)].
  - constructor; [assumption | assumption|].
    now apply (textStops_prefix (c :: P) X).
Qed.

Lemma serialize_cons (t : token) (ts : list token) :
  serialize (t :: ts) = raw t ++ serialize ts.
Proof. reflexivity. Qed.

Lemma wellFormed_app (ts1 ts2 : list token) :
  wellFormed (ts1 ++ ts2) -> wellFormed ts2.
Proof.
  induction ts1 as [|t ts1 IH]; [auto|]. cbn [app wellFormed]. intros [_ W]. auto.
Qed.

Lemma wellFormed_prefix (ts1 : list token) (t : token) (ts2 : list token) :
  wellFormed (ts1 ++ t :: ts2) -> wellFormed ts1.
Proof.
  induction ts1 as [|t1 ts1 IH]; [intros; exact I|].
  cbn [app wellFormed]. intros [W1 W]. split; [|now apply IH].
  rewrite serialize_app in W1.
  apply (wfToken_prefix t1 _ (serialize (t :: ts2))); [|exact W1].
  pose proof (wellFormed_app ts1 (t :: ts2) W) as [Wt _].
  pose proof (wfToken_raw t _ Wt) as L.
  rewrite serialize_cons. intros H. apply app_eq_nil in H.
  destruct H as [H _]. rewrite H in L. len_solve.
Qed.

Lemma reportOf_app (l1 l2 : list bytes) :
  reportOf (l1 ++ l2) = reportOf l1 ++ reportOf l2.
Proof. unfold reportOf. apply flat_map_app. Qed.

Lemma Join_reportOf (ls : list bytes) :
  ls <> [] -> strings.Join ls [LF] ++ [LF] = reportOf ls.
Proof.
  induction ls as [|l ls IH]; [congruence|]. intros _.
  destruct ls as [|l' ls]; [cbn; now rewrite app_nil_r|].
  change (reportOf (l :: l' :: ls)) with ((l ++ [LF]) ++ reportOf (l' :: ls)).
  rewrite <- IH by discriminate.
  rewrite Join_cons, <- !app_assoc. reflexivity.
Qed.

Section Report.

Variable isPrintTable : Z -> bool.

Lemma flushText_withLines (ls : list bytes) (st : dstate) :
  flushText isPrintTable (withLines ls st)
  = withLines ls (flushText isPrintTable st).
Proof.
  unfold flushText, withLines. cbn [textBuf totalCSpaces lines].
  destruct (bytes_eqb (textBuf st) [] && (totalCSpaces st =? 0)); [reflexivity|].
  cbn [textBuf totalCSpaces lines]. now rewrite app_assoc.
Qed.

Lemma appendLine_withLines (ls : list bytes) (st : dstate) (l : bytes) :
  appendLine (withLines ls st) l = withLines ls (appendLine st l).
Proof.
  unfold appendLine, withLines. cbn [textBuf totalCSpaces lines].
  now rewrite app_assoc.
Qed.

Lemma route_withLines (ls : list bytes) (t : token) (st : dstate) :
  route isPrintTable t (withLines ls st)
  = (st' <- route isPrintTable t st ;; Ok (withLines ls st')).
Proof.
  destruct t as [text|b| |seq|seq|seq|seq|seq|seq]; cbn [route];
    rewrite ?flushText_withLines, ?appendLine_withLines; try reflexivity.
  - destruct (len seq <? 2)%nat; reflexivity.
  - destruct (parseCursorForwardN seq) as [[n ok]| |]; cbn [bind]; try reflexivity.
    destruct ok.
    + destruct (strings.Repeat (str " ") n); reflexivity.
    + destruct (formatDebugTermCSILine seq); cbn [bind]; try reflexivity.
      now rewrite appendLine_withLines.
  - destruct (formatDebugTermOSCLine seq); cbn [bind]; try reflexivity.
    now rewrite appendLine_withLines.
Qed.

Lemma routeAll_withLines (ls : list bytes) (ts : list token) :
  forall st : dstate,
    routeAll isPrintTable ts (withLines ls st)
    = (st' <- routeAll isPrintTable ts st ;; Ok (withLines ls st')).
Proof.
  induction ts as [|t ts IH]; intros st; [reflexivity|].
  cbn [routeAll]. rewrite route_withLines.
  destruct (route isPrintTable t st) as [st1| |]; cbn [bind]; auto.
Qed.

(** A token that flushes leaves the lines of the flush and its own
    line, and nothing pending. *)
Lemma route_flushes (t : token) :
  flushes t ->
  exists line, forall st : dstate,
    route isPrintTable t st
    = Ok (withLines (lines (flushText isPrintTable st) ++ [line]) emptyState).
Proof.
  assert (F : forall st l,
             appendLine (flushText isPrintTable st) l
             = withLines (lines (flushText isPrintTable st) ++ [l]) emptyState).
  { intros st l. unfold appendLine, withLines, emptyState, flushText.
    destruct (bytes_eqb (textBuf st) [] && (totalCSpaces st =? 0)) eqn:E.
    - apply andb_true_iff in E. destruct E as [E1 E2].
      apply bytes_eqb_eq in E1. apply Z.eqb_eq in E2.
      cbn [lines textBuf totalCSpaces]. rewrite E1, E2, app_nil_r. reflexivity.
    - cbn [lines textBuf totalCSpaces]. now rewrite app_nil_r. }
  destruct t as [text|b| |seq|seq|seq|seq|seq|seq]; cbn [flushes route]; intros H.
  - destruct H.
  - eexists. intros st. now rewrite F.
  - eexists. intros st. now rewrite F.
  - destruct (len seq <? 2)%nat; eexists; intros st; now rewrite F.
  - destruct (parseCursorForwardN_total seq) as (n & ok & E & _).
    rewrite E in H |- *. destruct ok; [destruct H|].
    destruct (formatDebugTermCSILine_total seq) as [l ->].
    exists l. intros st. cbn [bind]. now rewrite F.
  - destruct (formatDebugTermOSCLine_total seq) as [l ->].
    exists l. intros st. cbn [bind]. now rewrite F.
  - eexists. intros st. now rewrite F.
  - eexists. intros st. now rewrite F.
  - eexists. intros st. now rewrite F.
Qed.

(** After tokens that have their shapes something is pending, or a line
    has been written. *)
Lemma route_progress (t : token) (post : bytes) (st st' : dstate) :
  wfToken t post -> route isPrintTable t st = Ok st' ->
  lines st' <> [] \/ textBuf st' <> [].
Proof.
  intros W R.
  assert (A : forall s l, lines (appendLine s l) <> []).
  { intros s l. unfold appendLine. cbn [lines]. intros X.
    apply app_eq_nil in X. destruct X as [_ X]. discriminate. }
  destruct W as [a post Hne Ha Hs | c post E1 E2 Hs | post | x post Hx |
                 | params f post Hp Hf | params Hp
                 | payload term post Hp Ht | payload Hp
                 | payload post Hp | payload Hp
                 | payload post Hp | payload Hp
                 | payload post Hp | payload Hp]; cbn [route] in R;
    try (injection R as <-; left; apply A).
  - injection R as <-. right. cbn [textBuf]. intros X.
    apply app_eq_nil in X. destruct X. congruence.
  - destruct (parseCursorForwardN_total (ESC :: "["%char :: params ++ [f]))
      as (n & ok & E & Hn).
    rewrite E in R. cbn [bind] in R. destruct ok.
    + rewrite (Repeat_space n (Hn eq_refl)) in R.
      destruct (maxAlloc <? n); [discriminate|]. injection R as <-.
      right. cbn [textBuf]. intros X. apply app_eq_nil in X. destruct X as [_ X].
      apply (f_equal (@List.length ascii)) in X. rewrite repeat_length in X.
      cbn in X. specialize (Hn eq_refl). lia.
    + destruct (formatDebugTermCSILine (ESC :: "["%char :: params ++ [f]));
        [|discriminate..]. injection R as <-. left; apply A.
  - destruct (parseCursorForwardN_total (ESC :: "["%char :: params))
      as (n & ok & E & Hn).
    rewrite E in R. cbn [bind] in R. destruct ok.
    + rewrite (Repeat_space n (Hn eq_refl)) in R.
      destruct (maxAlloc <? n); [discriminate|]. injection R as <-.
      right. cbn [textBuf]. intros X. apply app_eq_nil in X. destruct X as [_ X].
      apply (f_equal (@List.length ascii)) in X. rewrite repeat_length in X.
      cbn in X. specialize (Hn eq_refl). lia.
    + destruct (formatDebugTermCSILine (ESC :: "["%char :: params));
        [|discriminate..]. injection R as <-. left; apply A.
  - destruct (formatDebugTermOSCLine (ESC :: "]"%char :: payload ++ term));
      [|discriminate..]. injection R as <-. left; apply A.
  - destruct (formatDebugTermOSCLine (ESC :: "]"%char :: payload));
      [|discriminate..]. injection R as <-. left; apply A.
Qed.

Lemma routeAll_progress (ts : list token) :
  forall st st' : dstate,
    wellFormed ts -> routeAll isPrintTable ts st = Ok st' ->
    ts <> [] \/ lines st <> [] \/ textBuf st <> [] ->
    lines st' <> [] \/ textBuf st' <> [].
Proof.
  induction ts as [|t ts IH]; intros st st' W R H.
  - injection R as <-. destruct H as [H|H]; [congruence | exact H].
  - destruct W as [Wt W]. cbn [routeAll] in R.
    destruct (route isPrintTable t st) as [s1| |] eqn:R1; try discriminate.
    cbn [bind] in R. apply (IH s1 st' W R). right.
    exact (route_progress t _ st s1 Wt R1).
Qed.

Lemma flushText_lines_nonempty (st : dstate) :
  lines st <> [] \/ textBuf st <> [] ->
  lines (flushText isPrintTable st) <> [].
Proof.
  intros H. destruct (textBuf st) as [|c t] eqn:E.
  - destruct H as [H|H]; [|congruence].
    unfold flushText. rewrite E.
    destruct (bytes_eqb [] [] && (totalCSpaces st =? 0)); [exact H|].
    cbn [lines]. intros X. apply app_eq_nil in X. now destruct X.
  - rewrite flushText_pending by (rewrite E; discriminate).
    cbn [lines]. unfold txtLines. intros X.
    apply app_eq_nil in X. destruct X as [_ X].
    apply app_eq_nil in X. destruct X as [_ X]. discriminate.
Qed.

(** The report of the bytes of tokens is the report of the lines that
    routing them leaves. *)
Lemma report_of_routed (ts : list token) :
  wellFormed ts ->
  formatDebugTermDecode isPrintTable (serialize ts)
  = (st <- routeAll isPrintTable ts emptyState ;;
     Ok (reportOf (lines (flushText isPrintTable st)))).
Proof.
  intros W. destruct ts as [|t ts].
  { reflexivity. }
  assert (Hne : serialize (t :: ts) <> []).
  { destruct W as [Wt _]. pose proof (wfToken_raw t _ Wt) as L.
    rewrite serialize_cons. intros H. apply app_eq_nil in H.
    destruct H as [H _]. rewrite H in L. len_solve. }
  assert (S : scan (serialize (t :: ts)) = Ok (t :: ts)).
  { unfold scan.
    apply (scanLoop_serialize _ W (len (serialize (t :: ts))) []). lia. }
  destruct (formatDebugTermDecode_scan isPrintTable _ Hne) as (ts' & S' & ->).
  rewrite S in S'. injection S' as <-.
  fold emptyState.
  destruct (routeAll isPrintTable (t :: ts) emptyState) as [st| |] eqn:R;
    cbn [bind]; try reflexivity.
  rewrite Join_reportOf; [reflexivity|].
  apply flushText_lines_nonempty.
  apply (routeAll_progress (t :: ts) emptyState st W R). left. discriminate.
Qed.

(** X13.  The report of a buffer that is split before a token that flushes is
    the report of the first part and then the report of the rest. *)
Theorem report_splits (ts1 : list token) (t : token) (ts2 : list token)
        (r1 r2 : bytes) :
  wellFormed (ts1 ++ t :: ts2) -> flushes t ->
  formatDebugTermDecode isPrintTable (serialize ts1) = Ok r1 ->
  formatDebugTermDecode isPrintTable (serialize (t :: ts2)) = Ok r2 ->
  formatDebugTermDecode isPrintTable (serialize ts1 ++ serialize (t :: ts2))
  = Ok (r1 ++ r2).
Proof.
  intros W F D1 D2.
  pose proof (wellFormed_prefix ts1 t ts2 W) as W1.
  pose proof (wellFormed_app ts1 (t :: ts2) W) as W2.
  rewrite <- serialize_app.
  rewrite report_of_routed in * by assumption.
  rewrite routeAll_app.
  destruct (routeAll isPrintTable ts1 emptyState) as [s1| |]; try discriminate.
  cbn [bind] in *. injection D1 as <-.
  destruct (route_flushes t F) as (line & Rt).
  cbn [routeAll] in *. rewrite Rt in *. cbn [bind] in *.
  replace (lines (flushText isPrintTable emptyState)) with (@nil bytes) in D2
    by reflexivity.
  rewrite routeAll_withLines in D2. rewrite routeAll_withLines.
  destruct (routeAll isPrintTable ts2 emptyState) as [s2| |]; try discriminate.
  cbn [bind] in *. injection D2 as <-.
  rewrite !flushText_withLines. unfold withLines. cbn [lines].
  now rewrite <- app_assoc, reportOf_app.
Qed.

End Report.

Lemma report_splits_witness :
  let q := [DQUOTE] in
  formatDebugTermDecode (fun _ => false)
    (serialize [Text (str "ab"); CSI (ESC :: str "[1C")]
     ++ serialize [Bell; Text (str "cd")])
  = Ok ((str "TXT " ++ q ++ str "ab " ++ q ++ str " // 1C" ++ [LF])
        ++ (str "BEL" ++ [LF] ++ str "TXT " ++ q ++ str "cd" ++ q ++ [LF])).
Proof.
  cbv zeta. apply report_splits; [|exact I|reflexivity|reflexivity].
  split; [|split; [|split; [|split; [|exact I]]]].
  - apply wf_text; [discriminate | text_run | reflexivity].
  - apply (@wf_csi (str "1") "C"%char); [|reflexivity].
    repeat (apply Forall_cons; [reflexivity|]). apply Forall_nil.
  - apply wf_bell.
  - apply wf_text; [discriminate | text_run | reflexivity].
Defined.

(** ** The line of a CSI sequence tells the sequence *)

Lemma csi_line_unfold (a b : ascii) (params : bytes) (f : ascii) :
  formatDebugTermCSILine (a :: b :: params ++ [f])
  = if strings.HasPrefix params (str "?")
       && (Ascii.eqb f "h" || Ascii.eqb f "l")
    then
      modeStr <- sliceFrom params 1 ;;
      Ok ((if Ascii.eqb f "h" then str "DEC SET " ++ modeStr
           else str "DEC RST " ++ modeStr)
          ++ csiComment (lookup bytes_eqb decModeDescriptions modeStr))
    else if Ascii.eqb f "m" then
      desc <- describeSGR params ;;
      Ok (str "CSI " ++ [f] ++ csiParams params
          ++ csiComment (if negb (bytes_eqb desc []) then Some desc else None))
    else
      Ok (str "CSI " ++ [f] ++ csiParams params
          ++ csiComment (lookup Ascii.eqb csiCommandDescriptions f)).
Proof.
  unfold formatDebugTermCSILine.
  replace (len (a :: b :: params ++ [f]) <? 3)%nat with false
    by (symmetry; apply Nat.ltb_ge; len_solve).
  pose proof (sliceFrom_len_app [a; b] (params ++ [f])) as S0.
  change (len [a; b]) with 2%nat in S0. cbn [app] in S0.
  rewrite S0. cbn [bind]. clear S0.
  replace (len (params ++ [f]) - 1)%nat with (len params) by len_solve.
  rewrite (index_len_app params f []). cbn [bind].
  pose proof (slice_len_app [] params [f]) as S. cbn [app len List.length] in S.
  change (List.length params) with (len params) in S.
  replace (0 + len params)%nat with (len params) in S by lia.
  rewrite S. cbn [bind]. clear S.
  destruct (strings.HasPrefix params (str "?")
            && (Ascii.eqb f "h" || Ascii.eqb f "l")).
  - destruct (sliceFrom params 1) as [modeStr| |]; cbn [bind]; try reflexivity.
    unfold csiComment.
    destruct (Ascii.eqb f "h"), (lookup bytes_eqb decModeDescriptions modeStr);
      rewrite ?app_nil_r; rewrite <- ?app_assoc; reflexivity.
  - unfold csiParams, csiComment.
    destruct (Ascii.eqb f "m").
    + destruct (describeSGR params) as [desc| |]; cbn [bind]; try reflexivity.
      destruct (bytes_eqb params []), (negb (bytes_eqb desc []));
        cbn [app]; rewrite ?app_nil_r; rewrite <- ?app_assoc; reflexivity.
    + destruct (bytes_eqb params []),
        (lookup Ascii.eqb csiCommandDescriptions f);
        cbn [app]; rewrite ?app_nil_r; rewrite <- ?app_assoc; reflexivity.
Qed.

Lemma first_final_unique (u u' : bytes) (c c' : ascii) (r r' : bytes) :
  noFinal u -> noFinal u' ->
  isFinalByte c = true -> isFinalByte c' = true ->
  u ++ c :: r = u' ++ c' :: r' -> u = u' /\ c = c' /\ r = r'.
Proof.
  intros Hu. revert u'. induction Hu as [|x u Hx _ IH]; intros u' Hu' Hc Hc' E.
  - destruct Hu' as [|y u' Hy _]; cbn [app] in E.
    + injection E as -> ->. auto.
    + injection E as -> _. congruence.
  - destruct Hu' as [|y u' Hy Hu']; cbn [app] in E.
    + injection E as -> _. congruence.
    + injection E as -> E. destruct (IH u' Hu' Hc Hc' E) as (-> & -> & ->). auto.
Qed.

Lemma noFinal_app (u v : bytes) : noFinal u -> noFinal v -> noFinal (u ++ v).
Proof. intros A B. apply Forall_app. auto. Qed.

Lemma noFinal_has_final (u : bytes) (c : ascii) (r : bytes) :
  isFinalByte c = true -> ~ noFinal (u ++ c :: r).
Proof.
  intros Hc F. apply Forall_app in F. destruct F as [_ F].
  inversion F; subst. congruence.
Qed.

Lemma csiParams_noFinal (p : bytes) : noFinal p -> noFinal (csiParams p).
Proof.
  intros H. unfold csiParams. destruct (bytes_eqb p []); [constructor|].
  constructor; [reflexivity | exact H].
Qed.

Lemma csiParams_inj (p p' : bytes) : csiParams p = csiParams p' -> p = p'.
Proof.
  unfold csiParams.
  destruct (bytes_eqb p []) eqn:E, (bytes_eqb p' []) eqn:E';
    rewrite ?bytes_eqb_eq in *; subst; intros H;
    [reflexivity | discriminate | discriminate | now injection H].
Qed.

Lemma slashes_noFinal : noFinal (str " // ").
Proof. repeat constructor. Qed.

Lemma headed_inj (u u' x x' : bytes) :
  noFinal u -> noFinal u' -> headed x -> headed x' ->
  u ++ x = u' ++ x' -> u = u'.
Proof.
  intros Hu Hu' [->|(c & t & -> & Hc)] [->|(c' & t' & -> & Hc')] E.
  - now rewrite !app_nil_r in E.
  - exfalso. rewrite app_nil_r in E. rewrite E, app_assoc in Hu.
    exact (noFinal_has_final _ _ _ Hc' Hu).
  - exfalso. rewrite app_nil_r in E. rewrite <- E, app_assoc in Hu'.
    exact (noFinal_has_final _ _ _ Hc Hu').
  - rewrite !app_assoc in E.
    apply first_final_unique in E; auto using noFinal_app, slashes_noFinal.
    destruct E as (E & _). now apply app_inv_tail in E.
Qed.

Lemma sgr_lookup_head (n : Z) (d : bytes) :
  lookup Z.eqb sgrSingleDescriptions n = Some d ->
  exists c t, d = c :: t /\ isFinalByte c = true.
Proof.
  unfold sgrSingleDescriptions. cbn [lookup].
  repeat match goal with
         | |- context [Z.eqb ?k n] => destruct (Z.eqb k n)
         end;
    intros [= <-]; eexists; eexists; split; reflexivity.
Qed.

Lemma describeSGR_head (params : bytes) :
  exists d, describeSGR params = Ok d
            /\ (d = [] \/ exists c t, d = c :: t /\ isFinalByte c = true).
Proof.
  assert (R : forall (s : string) (t : bytes) (c : ascii) (s' : string),
             s = String c s' -> isFinalByte c = true ->
             exists d, Ok (str s ++ t) = Ok d
                       /\ (d = [] \/ exists c t, d = c :: t /\ isFinalByte c = true)).
  { intros s t c s' -> Hc. eexists. split; [reflexivity|]. right.
    exists c, (str s' ++ t). split; [reflexivity | exact Hc]. }
  assert (N : exists d, @Ok bytes [] = Ok d
                        /\ (d = [] \/ exists c t, d = c :: t /\ isFinalByte c = true)).
  { eexists. split; [reflexivity | now left]. }
  unfold describeSGR.
  destruct (bytes_eqb params []).
  { rewrite <- (app_nil_r (str "reset all")). eapply R; reflexivity. }
  set (parts := strings.Split params ";").
  assert (Hne : parts <> []) by apply Split_nonempty.
  assert (Hlen : (1 <= List.length parts)%nat)
    by (destruct parts; [congruence | simpl; lia]).
  rewrite !sgrShape_spec
    by (intros HH; first [apply Nat.leb_le in HH | apply Nat.eqb_eq in HH]; lia).
  destruct (5 <=? List.length parts)%nat eqn:L5;
    [apply Nat.leb_le in L5 | apply Nat.leb_gt in L5].
  - replace (List.length parts =? 3)%nat with false
      by (symmetry; apply Nat.eqb_neq; lia).
    replace (List.length parts =? 1)%nat with false
      by (symmetry; apply Nat.eqb_neq; lia).
    destruct (bytes_eqb (nth 0 parts []) (str "38"));
    destruct (bytes_eqb (nth 0 parts []) (str "48"));
    destruct (bytes_eqb (nth 1 parts []) (str "2"));
    cbn [andb bind negb]; rewrite ?index_nth by lia; cbn [bind];
      first [exact N | eapply R; reflexivity].
  - destruct (List.length parts =? 3)%nat eqn:L3;
      [apply Nat.eqb_eq in L3 | apply Nat.eqb_neq in L3].
    + destruct (bytes_eqb (nth 0 parts []) (str "38"));
      destruct (bytes_eqb (nth 0 parts []) (str "48"));
      destruct (bytes_eqb (nth 1 parts []) (str "5"));
      cbn [andb bind negb]; rewrite ?index_nth by lia; cbn [bind];
      rewrite ?L3; cbn [Nat.eqb negb];
        first [exact N | eapply R; reflexivity].
    + cbn [andb bind].
      destruct (List.length parts =? 1)%nat; cbn [negb]; [|exact N].
      rewrite index_nth by lia. cbn [bind].
      destruct (strconv.Atoi _) as [n|]; [|exact N].
      destruct (lookup _ _ _) as [d|] eqn:Lk.
      { destruct (sgr_lookup_head n d Lk) as (c & t & -> & Hc).
        eexists. split; [reflexivity|]. right. eauto. }
      repeat match goal with
      | |- context [if ?c then _ else _] => destruct c
      end; first [exact N | eapply R; reflexivity].
Qed.

Lemma sgr_comment_headed (params : bytes) :
  exists d, describeSGR params = Ok d
            /\ headed (csiComment (if negb (bytes_eqb d []) then Some d else None)).
Proof.
  destruct (describeSGR_head params) as (d & E & H).
  exists d. split; [exact E|].
  destruct H as [->|(c & t & -> & Hc)].
  - left. reflexivity.
  - right. exists c, t. split; [reflexivity | exact Hc].
Qed.

Lemma lookup_In {V : Type} (tbl : list (bytes * V)) (k : bytes) (v : V) :
  lookup bytes_eqb tbl k = Some v -> In (k, v) tbl.
Proof.
  induction tbl as [|[k' v'] tbl IH]; [discriminate|]. cbn [lookup].
  destruct (bytes_eqb k' k) eqn:E.
  - apply bytes_eqb_eq in E. intros [= <-]. left. now rewrite E.
  - intros H. right. now apply IH.
Qed.

Lemma forallb_noFinal (s : bytes) :
  noFinal s -> forallb (fun b => negb (isFinalByte b)) s = true.
Proof.
  intros F. apply forallb_forall. intros c I.
  unfold noFinal in F. rewrite Forall_forall in F. now rewrite (F c I).
Qed.

(** The modes that have a description, and their lines after the tag. *)
Lemma dec_described (m d : bytes) :
  lookup bytes_eqb decModeDescriptions m = Some d ->
  In (m ++ str " // " ++ d)
     (map (fun kv => fst kv ++ str " // " ++ snd kv) decModeDescriptions)
  /\ forallb (fun b => negb (isFinalByte b)) (m ++ str " // " ++ d) = false.
Proof.
  intros L. apply lookup_In in L. split.
  - apply (in_map (fun kv => fst kv ++ str " // " ++ snd kv)) in L. exact L.
  - unfold decModeDescriptions in L. cbn [In] in L.
    repeat (destruct L as [L|L]; [injection L as <- <-; reflexivity|]).
    destruct L.
Qed.

Lemma dec_rest_inj (m m' : bytes) :
  noFinal m -> noFinal m' ->
  m ++ csiComment (lookup bytes_eqb decModeDescriptions m)
  = m' ++ csiComment (lookup bytes_eqb decModeDescriptions m') ->
  m = m'.
Proof.
  intros F F' E.
  destruct (lookup bytes_eqb decModeDescriptions m) as [d|] eqn:L;
    destruct (lookup bytes_eqb decModeDescriptions m') as [d'|] eqn:L';
    cbn [csiComment] in E; rewrite ?app_nil_r in E.
  - apply lookup_In in L, L'.
    unfold decModeDescriptions in L, L'. cbn [In] in L, L'.
    repeat (destruct L as [L|L]; [injection L as <- <-|]); [..|destruct L];
      repeat (destruct L' as [L'|L']; [injection L' as <- <-|]);
      first [reflexivity | discriminate E | destruct L'].
  - exfalso. destruct (dec_described m d L) as [_ N].
    rewrite E in N. now rewrite (forallb_noFinal m' F') in N.
  - exfalso. destruct (dec_described m' d' L') as [_ N].
    rewrite <- E in N. now rewrite (forallb_noFinal m F) in N.
  - exact E.
Qed.

(** The two shapes of the line of a CSI sequence. *)
Lemma csi_line_shape (p : bytes) (f : ascii) :
  exists line,
    formatDebugTermCSILine (ESC :: "["%char :: p ++ [f]) = Ok line
    /\ ((exists m, p = "?"%char :: m
                   /\ (f = "h"%char \/ f = "l"%char)
                   /\ line = (if Ascii.eqb f "h" then str "DEC SET "
                              else str "DEC RST ")
                             ++ m
                             ++ csiComment (lookup bytes_eqb decModeDescriptions m))
        \/ (exists x, line = str "CSI " ++ [f] ++ csiParams p ++ x
                      /\ (f = "m"%char -> headed x)
                      /\ (f <> "m"%char ->
                          x = csiComment (lookup Ascii.eqb csiCommandDescriptions f)))).
Proof.
  rewrite csi_line_unfold.
  destruct (strings.HasPrefix p (str "?")
            && (Ascii.eqb f "h" || Ascii.eqb f "l")) eqn:K.
  - apply andb_true_iff in K. destruct K as [P H].
    destruct p as [|c m]; [discriminate|].
    cbn in P. destruct (Ascii.eqb_spec c "?"); [subst c|discriminate].
    rewrite (sliceFrom_len_app ["?"%char] m : sliceFrom ("?"%char :: m) 1 = Ok m).
    cbn [bind]. eexists. split; [reflexivity|]. left. exists m.
    split; [reflexivity|].
    split; [|destruct (Ascii.eqb f "h"); now rewrite <- app_assoc].
    apply orb_true_iff in H. destruct H as [H|H]; apply Ascii.eqb_eq in H; auto.
  - destruct (Ascii.eqb_spec f "m") as [->|Nm].
    + destruct (sgr_comment_headed p) as (d & -> & Hd). cbn [bind].
      eexists. split; [reflexivity|]. right. eexists. split; [reflexivity|].
      split; [intros _; exact Hd | congruence].
    + eexists. split; [reflexivity|]. right. eexists. split; [reflexivity|].
      split; [congruence | reflexivity].
Qed.

(** X14.  Two CSI sequences that are ended by a final byte and have the same
    line are the same sequence. *)
Theorem csi_line_injective (p p' : bytes) (f f' : ascii) :
  noFinal p -> noFinal p' ->
  formatDebugTermCSILine (ESC :: "["%char :: p ++ [f])
  = formatDebugTermCSILine (ESC :: "["%char :: p' ++ [f']) ->
  p = p' /\ f = f'.
Proof.
  intros F F'.
  destruct (csi_line_shape p f) as (l & -> & S).
  destruct (csi_line_shape p' f') as (l' & -> & S').
  intros [= E]. subst l'.
  destruct S as [(m & -> & Hf & ->) | (x & -> & Hm & Hn)];
    destruct S' as [(m' & -> & Hf' & E) | (x' & E & Hm' & Hn')].
  - assert (T : forall q, noFinal ("?"%char :: q) -> noFinal q)
      by (intros q H; now inversion H).
    destruct Hf as [-> | ->], Hf' as [-> | ->];
      cbn [Ascii.eqb Bool.eqb str list_ascii_of_string app] in E;
      try discriminate E;
      injection E as E;
      rewrite (dec_rest_inj m m' (T _ F) (T _ F') E); auto.
  - exfalso. destruct Hf as [-> | ->];
      cbn [Ascii.eqb Bool.eqb str list_ascii_of_string app] in E;
      discriminate E.
  - exfalso. destruct Hf' as [-> | ->];
      cbn [Ascii.eqb Bool.eqb str list_ascii_of_string app] in E;
      discriminate E.
  - cbn [str list_ascii_of_string app] in E. injection E as -> E.
    split; [|reflexivity]. apply csiParams_inj.
    destruct (Ascii.eqb_spec f' "m") as [Em|Nm].
    + apply (headed_inj _ _ x x'); auto using csiParams_noFinal.
    + rewrite (Hn Nm), (Hn' Nm) in E. now apply app_inv_tail in E.
Qed.

Lemma csi_line_injective_witness :
  str "1;31" = str "1;31" /\ "m"%char = "m"%char.
Proof.
  apply csi_line_injective; [| |reflexivity];
    repeat (apply Forall_cons; [reflexivity|]); apply Forall_nil.
Defined.
